(** * FileReader: source resolution of the compiler front end

    A shallow embedding of [libsolidity/interface/FileReader.cpp] (the
    second translation unit stored in [StorageInfo.cpp]; the first one,
    [StorageInfo::generate], is a projection of compiled declarations
    and plays no part here) together with a model of the
    Boost.Filesystem operations it calls.

    Layout:
    - [Boost]      : paths as strings and the lexical path operations;
    - [FileSystem] : what the code asks of the operating system, kept
                     abstract; exceptions as a result type;
    - [FileReader] : the functions of the source, under their own names;
    - [TreeFS]     : one concrete file system, to run the code on;
    - the shapes and descriptions the properties are stated with;
    - the properties. *)

From Stdlib Require Import Ascii String ZArith.
From stdpp Require Import base strings list gmap.

(** Let [simpl] compute the append of strings again. *)
Arguments String.append : simpl nomatch.

(** ** Strings *)

Definition is_directory_separator (c : ascii) : bool := Ascii.eqb c "/".

Fixpoint ends_with_separator (s : string) : bool :=
  match s with
  | "" => false
  | String c "" => is_directory_separator c
  | String _ s' => ends_with_separator s'
  end.

Definition starts_with_separator (s : string) : bool :=
  match s with
  | String c _ => is_directory_separator c
  | "" => false
  end.

(** [std::string::find(pre) == 0] *)
Fixpoint starts_with (pre s : string) : bool :=
  match pre, s with
  | "", _ => true
  | String a pre', String b s' => Ascii.eqb a b && starts_with pre' s'
  | String _ _, "" => false
  end.

(** [std::string::erase(0, n)] *)
Fixpoint erase_front (n : nat) (s : string) : string :=
  match n, s with
  | S n', String _ s' => erase_front n' s'
  | _, _ => s
  end.

(** [operator[]] of [std::string], made explicit about its range. *)
Fixpoint char_at (s : string) (i : nat) : option ascii :=
  match s, i with
  | "", _ => None
  | String c _, 0 => Some c
  | String _ s', S i' => char_at s' i'
  end.

(** ** Boost.Filesystem paths

    The functions below model version 3 of Boost.Filesystem in its POSIX
    build, the library [FileReader.cpp] is written against: it calls
    [filename_is_dot], and relies on a trailing separator being iterated
    as a dot element and on ["a/b/"] and ["a/b/."] being equal paths.
    A path is its string.  Its decomposition into elements is the one
    [path::begin()] .. [path::end()] yields; [root_name],
    [root_directory], [filename] and [parent_path] are given by the
    elements as the library reference defines them; [operator/=],
    [relative_path], [lexically_normal] and [lexically_relative] follow
    the library's algorithms.  In this version the normal form of a path
    that ends in a separator or in a dot ends in a dot element
    (["foo/."]). *)

Module Boost.

Abbreviation path := string.

(** The pieces of a string between separators: ["a//b/"] gives
    ["a"; ""; "b"; ""]. *)
Fixpoint split (s : string) : list string :=
  match s with
  | "" => [""]
  | String c s' =>
      if is_directory_separator c then "" :: split s'
      else match split s' with
           | h :: t => String c h :: t
           | [] => [String c ""]
           end
  end.

Definition nonempty (s : string) : bool := negb (String.eqb s "").

(** Names of the part of a path below its root: empty pieces (repeated
    separators) vanish, and a trailing separator after a name is iterated
    as the element ["."]. *)
Definition body (pieces : list string) : list string :=
  let ns := List.filter nonempty pieces in
  match ns with
  | [] => []
  | _ :: _ => if String.eqb (List.last pieces "") "" then ns ++ ["."] else ns
  end.

Fixpoint take_name (s : string) : string :=
  match s with
  | "" => ""
  | String c s' => if is_directory_separator c then "" else String c (take_name s')
  end.

Fixpoint drop_name (s : string) : string :=
  match s with
  | "" => ""
  | String c s' => if is_directory_separator c then s else drop_name s'
  end.

Fixpoint skip_separators (s : string) : string :=
  match s with
  | "" => ""
  | String c s' => if is_directory_separator c then skip_separators s' else s
  end.

(** The element sequence of [path::iterator].  Two leading separators not
    followed by a third start a root name (["//net"]); any other run of
    leading separators is the root directory ["/"]. *)
Definition elements (s : path) : list string :=
  match s with
  | "" => []
  | String c1 s1 =>
      if is_directory_separator c1 then
        match s1 with
        | String c2 s2 =>
            if is_directory_separator c2 then
              match s2 with
              | "" => ["//"]
              | String c3 s3 =>
                  if is_directory_separator c3 then "/" :: body (split s3)
                  else
                    let rn := String c1 (String c2 (take_name s2)) in
                    match drop_name s2 with
                    | "" => [rn]
                    | String _ r => rn :: "/" :: body (split r)
                    end
              end
            else "/" :: body (split s1)
        | "" => ["/"]
        end
      else body (split s)
  end.

(** An element is a root name when it is longer than one character and
    starts with two separators. *)
Definition is_root_name (e : string) : bool :=
  match e with
  | String c1 (String c2 _) => is_directory_separator c1 && is_directory_separator c2
  | _ => false
  end.

Definition root_name (p : path) : path :=
  match elements p with
  | e :: _ => if is_root_name e then e else ""
  | [] => ""
  end.

Definition has_root_directory (p : path) : bool :=
  match elements p with
  | e :: rest =>
      if String.eqb e "/" then true
      else if is_root_name e then
             match rest with
             | e' :: _ => String.eqb e' "/"
             | [] => false
             end
           else false
  | [] => false
  end.

Definition root_directory (p : path) : path :=
  if has_root_directory p then "/" else "".

(** [operator/=] of version 3: the right operand is appended as text,
    after a separator when neither side supplies one. *)
Definition append (p q : path) : path :=
  match q with
  | "" => p
  | String c _ =>
      if is_directory_separator c then p +:+ q
      else if nonempty p && negb (ends_with_separator p) then p +:+ "/" +:+ q
      else p +:+ q
  end.

Declare Scope path_scope.
Delimit Scope path_scope with path.
Infix "/" := append : path_scope.

(** A path composed with [operator/=] from a sequence of elements. *)
Definition compose (l : list string) : path := fold_left append l "".

Definition root_path (p : path) : path := append (root_name p) (root_directory p).

(** The text after the root name and the root directory. *)
Definition relative_path (p : path) : path :=
  if nonempty (root_name p) then skip_separators (drop_name (erase_front 2 p))
  else skip_separators p.

(** [filename()] is the last element, [parent_path()] the path composed of
    all elements but the last. *)
Definition filename (p : path) : path := List.last (elements p) "".

Definition parent_path (p : path) : path := compose (removelast (elements p)).

Definition filename_is_dot (p : path) : bool := String.eqb (filename p) ".".
Definition filename_is_dot_dot (p : path) : bool := String.eqb (filename p) "..".

Definition empty (p : path) : bool := String.eqb p "".

(** POSIX: a path is absolute when it has a root directory. *)
Definition is_absolute (p : path) : bool := has_root_directory p.

(** [operator==] compares element by element, not the text. *)
Definition path_eqb (p q : path) : bool := bool_decide (elements p = elements q).

Definition generic_string (p : path) : string := p.

(** [path::compare]: lexicographic over the elements; the order of
    [std::set<path>]. *)
Fixpoint compare_elements (l1 l2 : list string) : comparison :=
  match l1, l2 with
  | [], [] => Eq
  | [], _ :: _ => Lt
  | _ :: _, [] => Gt
  | a :: l1', b :: l2' =>
      match String.compare a b with
      | Eq => compare_elements l1' l2'
      | c => c
      end
  end.

Definition compare (p q : path) : comparison :=
  compare_elements (elements p) (elements q).

(** *** lexically_normal *)

(** The test [lexically_normal] applies to the last element collected so
    far before it lets a following [".."] cancel it. *)
Definition cancellable (lf : string) : bool :=
  match lf with
  | "" => false
  | String c "" => negb (Ascii.eqb c ".") && negb (is_directory_separator c)
  | String c1 (String c2 "") => negb (Ascii.eqb c1 ".") && negb (Ascii.eqb c2 ".")
  | _ => true
  end.

(** The main loop; [first] tells whether the element at hand is the first
    one, the element is the last one when nothing follows it. *)
Fixpoint normal_loop (first : bool) (temp : list string) (l : list string)
  : list string :=
  match l with
  | [] => temp
  | e :: rest =>
      let is_last := match rest with [] => true | _ => false end in
      if String.eqb e "." && negb first && negb is_last then
        normal_loop false temp rest
      else if negb (bool_decide (temp = [])) && String.eqb e ".."
              && cancellable (List.last temp "") then
        let temp' := removelast temp in
        let temp'' :=
          if bool_decide (temp' = []) && bool_decide (rest = ["."])
          then ["."] else temp' in
        normal_loop false temp'' rest
      else normal_loop false (temp ++ [e]) rest
  end.

Definition normal_elements (l : list string) : list string :=
  match normal_loop true [] l with
  | [] => ["."]
  | t => t
  end.

Definition lexically_normal (p : path) : path :=
  if empty p then p else compose (normal_elements (elements p)).

(** *** lexically_relative (the algorithm of Boost 1.72 and later) *)

Fixpoint mismatch (l1 l2 : list string) : list string * list string :=
  match l1, l2 with
  | a :: l1', b :: l2' =>
      if String.eqb a b then mismatch l1' l2' else (l1, l2)
  | _, _ => (l1, l2)
  end.

Fixpoint base_depth (l : list string) (n : Z) : Z :=
  match l with
  | [] => n
  | e :: l' =>
      if String.eqb e ".." then base_depth l' (n - 1)
      else if nonempty e && negb (String.eqb e ".") then base_depth l' (n + 1)
      else base_depth l' n
  end.

Definition lexically_relative (p base : path) : path :=
  let ep := elements p in
  let eb := elements base in
  let '(rp, rb) := mismatch ep eb in
  if bool_decide (rp = ep) && bool_decide (rb = eb) then ""
  else if bool_decide (rp = []) && bool_decide (rb = []) then "."
  else
    let n := base_depth rb 0 in
    if (n <? 0)%Z then ""
    else if (n =? 0)%Z && match rp with [] => true | e :: _ => String.eqb e "" end
    then "."
    else compose (replicate (Z.to_nat n) ".." ++ rp).

(** *** absolute (POSIX), for an absolute [base] *)

Definition absolute (p base : path) : path :=
  if empty p then base
  else if nonempty (root_name p) then
    if empty (root_directory p) then
      append (append (append (root_name p) (root_directory base))
                     (relative_path base)) (relative_path p)
    else p
  else if nonempty (root_directory p) then
    if empty (root_name base) then p else append (root_name base) p
  else append base p.

End Boost.

(** ** Exceptions and the environment *)

(** The exceptions the three handlers of [readFile] tell apart. *)
Inductive exception :=
| InternalCompilerError (comment : string)  (* a [util::Exception] *)
| UtilException (comment : string)          (* any other [util::Exception] *)
| StdException (what : string)              (* a [std::exception] *)
| UnknownException.                         (* anything else *)

(** A computation that returns or throws. *)
Inductive result (A : Type) :=
| Ok (a : A)
| Throw (e : exception).
Arguments Ok {A} a.
Arguments Throw {A} e.

#[global] Instance result_ret : MRet result := λ A a, Ok a.
#[global] Instance result_bind : MBind result := λ A B f m,
  match m with
  | Ok a => f a
  | Throw e => Throw e
  end.

(** [solAssert(condition, description)] throws an
    [InternalCompilerError] carrying the description. *)
Definition solAssert (condition : bool) (description : string) : result unit :=
  if condition then Ok tt else Throw (InternalCompilerError description).

(** What the code asks of the operating system and of Boost's exception
    support.  Every operation may throw. *)
Record FileSystem := {
  current_path : result Boost.path;
  weakly_canonical : Boost.path → result Boost.path;
  fs_exists : Boost.path → result bool;
  is_regular_file : Boost.path → result bool;
  readFileAsString : Boost.path → result string;
  diagnostic_information : exception → string;
}.

(** [boost::filesystem::absolute(p, base)]; a relative [base] is first
    made absolute against the current path. *)
Definition fs_absolute (fs : FileSystem) (p base : Boost.path) : result Boost.path :=
  if Boost.is_absolute base then Ok (Boost.absolute p base)
  else
    cur ← current_path fs;
    Ok (Boost.absolute p (Boost.absolute base cur)).

(** ** FileReader *)

Module FileReader.
Import Boost.

(** [FileSystemPathSet = std::set<boost::filesystem::path>]: kept in the
    order of [path::compare], one representative per class of
    equivalent paths. *)
Definition FileSystemPathSet := list path.

Fixpoint set_insert (x : path) (s : FileSystemPathSet) : FileSystemPathSet :=
  match s with
  | [] => [x]
  | y :: s' =>
      match compare x y with
      | Lt => x :: s
      | Eq => s
      | Gt => y :: set_insert x s'
      end
  end.

(** [operator+=] and [operator+] on a set and a container. *)
Definition set_add_all (s : FileSystemPathSet) (l : list path) : FileSystemPathSet :=
  fold_left (λ acc x, set_insert x acc) l s.

(** The members of the class. *)
Record t := mk {
  m_basePath : path;
  m_includePaths : list path;
  m_allowedDirectories : FileSystemPathSet;
  m_sourceCodes : gmap string string;
}.

(** [ReadCallback::Result]. *)
Record Result := mkResult {
  success : bool;
  responseOrErrorMessage : string;
}.

(** Modelled from the spec: [ReadCallback::kindString(ReadCallback::Kind::ReadFile)]
    is declared in [ReadFile.h], which is not part of the sources; the
    specification's scenarios call [readFile] with the tag ["source"]. *)
Definition kindString_ReadFile : string := "source".

Section WithFileSystem.
Variable fs : FileSystem.

(** POSIX build: the [_WIN32] alternative is compiled out.  The flag is
    kept so that both builds can be stated.  [None] is an access outside
    of the string. *)
Definition isUNCRootName (win32 : bool) (rootName : string) : option bool :=
  let size := String.length rootName in
  shape ←
    (if size =? 2 then Some true
     else if 2 <? size then
       c2 ← char_at rootName 2;
       c1 ← char_at rootName 1;
       Some (negb (Ascii.eqb c2 c1))
     else Some false);
  if (shape : bool) then
    c0 ← char_at rootName 0;
    c1 ← char_at rootName 1;
    if Ascii.eqb c0 "/" && Ascii.eqb c1 "/" then Some true
    else if win32 then Some (Ascii.eqb c0 "\" && Ascii.eqb c1 "\")
    else Some false
  else Some false.

Definition isUNCPath (_path : path) : bool :=
  default false (isUNCRootName false (root_name _path)).

Definition hasDotDotSegments (_path : path) : bool :=
  existsb filename_is_dot_dot (elements _path).

Definition absoluteDotDotPrefix (_path : path) : result path :=
  _ ← solAssert (is_absolute _path || path_eqb (root_path _path) "/") "";
  let _pathWithoutRoot := relative_path _path in
  Ok (fold_left
        (λ prefix segment,
           if filename_is_dot_dot segment then append prefix segment else prefix)
        (elements _pathWithoutRoot) "").

(** Modelled from the spec: the default value of the parameter
    [_resolveSymlinks], used by the calls with one argument, is given with
    the declaration in [FileReader.h], which is not part of the sources;
    the specification has these calls normalise without resolving
    symbolic links. *)
Definition resolveSymlinksDefault : bool := false.

Definition normalizeCLIPathForVFS (_path : path) (_resolveSymlinks : bool)
  : result path :=
  cur ← current_path fs;
  canonicalWorkDir ← weakly_canonical fs cur;
  absolutePath ← fs_absolute fs _path canonicalWorkDir;
  normalizedPath ←
    (if _resolveSymlinks then
       normalizedPath ← weakly_canonical fs absolutePath;
       if (path_eqb _path "." || path_eqb _path "./" || path_eqb _path "../")
          && negb (ends_with_separator (generic_string normalizedPath))
       then Ok (append (parent_path normalizedPath)
                       (filename normalizedPath +:+ "/"))
       else Ok normalizedPath
     else Ok (lexically_normal absolutePath));
  _ ← solAssert (is_absolute normalizedPath
                 || path_eqb (root_path normalizedPath) "/") "";
  let normalizedRootPath := root_path normalizedPath in
  let normalizedRootPath :=
    if negb (isUNCPath normalizedPath) then
      let workingDirRootPath := root_path canonicalWorkDir in
      if path_eqb normalizedRootPath workingDirRootPath then "/"
      else normalizedRootPath
    else normalizedRootPath in
  dotDotPrefix ← absoluteDotDotPrefix normalizedPath;
  let normalizedPathNoDotDot :=
    if empty dotDotPrefix then
      append normalizedRootPath (relative_path normalizedPath)
    else
      append normalizedRootPath
        (lexically_relative normalizedPath
           (append (root_path normalizedPath) dotDotPrefix)) in
  _ ← solAssert (negb (hasDotDotSegments normalizedPathNoDotDot)) "";
  let normalizedPathNoDotDot := generic_string normalizedPathNoDotDot in
  if path_eqb normalizedPathNoDotDot "/." then Ok "/"
  else Ok normalizedPathNoDotDot.

(** The path [lexically_relative] is taken against: a prefix that ends
    in a dot element stands for its parent. *)
Definition prefixBase (_prefix : path) : path :=
  if filename_is_dot _prefix then parent_path _prefix else _prefix.

Definition isPathPrefix (_prefix _path : path) : result bool :=
  _ ← solAssert (negb (empty _prefix) && negb (empty _path)) "";
  _ ← solAssert (is_absolute _prefix || isUNCPath _prefix
                 || path_eqb (root_path _prefix) "/") "";
  _ ← solAssert (is_absolute _path || isUNCPath _path
                 || path_eqb (root_path _path) "/") "";
  _ ← solAssert (path_eqb _prefix (lexically_normal _prefix)
                 && path_eqb _path (lexically_normal _path)) "";
  _ ← solAssert (negb (hasDotDotSegments _prefix)
                 && negb (hasDotDotSegments _path)) "";
  let strippedPath := lexically_relative _path (prefixBase _prefix) in
  Ok (negb (empty strippedPath)
      && negb (path_eqb (List.hd "" (elements strippedPath)) "..")).

Definition stripPrefixIfPresent (_prefix _path : path) : result path :=
  b ← isPathPrefix _prefix _path;
  if negb b then Ok _path
  else
    let strippedPath := lexically_relative _path (prefixBase _prefix) in
    _ ← solAssert (empty strippedPath
                   || negb (path_eqb (List.hd "" (elements strippedPath)) "..")) "";
    Ok strippedPath.

(** The loop of [cliPathToSourceUnitName]: the first prefix that contains
    the path is stripped from it. *)
Fixpoint stripFirstPrefix (prefixes : list path) (normalizedPath : path)
  : result path :=
  match prefixes with
  | [] => Ok normalizedPath
  | prefix :: rest =>
      b ← isPathPrefix prefix normalizedPath;
      if (b : bool) then stripPrefixIfPresent prefix normalizedPath
      else stripFirstPrefix rest normalizedPath
  end.

Definition cliPathToSourceUnitName (this : t) (_cliPath : path) : result string :=
  first ← (if empty (m_basePath this)
           then normalizeCLIPathForVFS "." resolveSymlinksDefault
           else Ok (m_basePath this));
  let prefixes := first :: m_includePaths this in
  normalizedPath ← normalizeCLIPathForVFS _cliPath resolveSymlinksDefault;
  normalizedPath ← stripFirstPrefix prefixes normalizedPath;
  Ok (generic_string normalizedPath).

Definition setBasePath (this : t) (_path : path) : result t :=
  if empty _path then
    _ ← solAssert (bool_decide (m_includePaths this = [])) "";
    Ok (mk "" (m_includePaths this) (m_allowedDirectories this) (m_sourceCodes this))
  else
    p ← normalizeCLIPathForVFS _path resolveSymlinksDefault;
    Ok (mk p (m_includePaths this) (m_allowedDirectories this) (m_sourceCodes this)).

Definition addIncludePath (this : t) (_path : path) : result t :=
  _ ← solAssert (negb (empty (m_basePath this))) "";
  _ ← solAssert (negb (empty _path)) "";
  p ← normalizeCLIPathForVFS _path resolveSymlinksDefault;
  Ok (mk (m_basePath this) (m_includePaths this ++ [p])
         (m_allowedDirectories this) (m_sourceCodes this)).

Definition allowDirectory (this : t) (_path : path) : result t :=
  _ ← solAssert (negb (empty _path)) "";
  Ok (mk (m_basePath this) (m_includePaths this)
         (set_insert _path (m_allowedDirectories this)) (m_sourceCodes this)).

Definition setSource (this : t) (_path : path) (_source : string) : result t :=
  name ← cliPathToSourceUnitName this _path;
  Ok (mk (m_basePath this) (m_includePaths this) (m_allowedDirectories this)
         (<[name := _source]> (m_sourceCodes this))).

Definition setStdin (this : t) (_source : string) : t :=
  mk (m_basePath this) (m_includePaths this) (m_allowedDirectories this)
     (<["<stdin>" := _source]> (m_sourceCodes this)).

Definition setSources (this : t) (_sources : gmap string string) : t :=
  mk (m_basePath this) (m_includePaths this) (m_allowedDirectories this) _sources.

(** The constructor. *)
Definition create (_basePath : path) (_includePaths : list path)
    (_allowedDirectories : FileSystemPathSet) : result t :=
  this ← setBasePath (mk "" [] _allowedDirectories ∅) _basePath;
  this ← foldl (λ acc includePath, this ← acc; addIncludePath this includePath)
               (Ok this) _includePaths;
  _ ← solAssert (forallb (λ allowedDir, negb (empty allowedDir))
                         (m_allowedDirectories this)) "";
  Ok this.

(** The first loop of [readFile]: candidates in the order of the
    prefixes, up to the first one that exists. *)
Fixpoint resolveCandidates (strippedSourceUnitName : string)
    (prefixes : list path) (canonicalPath : path) : result path :=
  match prefixes with
  | [] => Ok canonicalPath
  | prefix :: rest =>
      canonicalPath ←
        normalizeCLIPathForVFS (append prefix strippedSourceUnitName) true;
      found ← fs_exists fs canonicalPath;
      if (found : bool) then Ok canonicalPath
      else resolveCandidates strippedSourceUnitName rest canonicalPath
  end.

(** The second loop: is the path below one of the allowed directories? *)
Fixpoint checkAllowed (dirs : list path) (canonicalPath : path) : result bool :=
  match dirs with
  | [] => Ok false
  | allowedDir :: rest =>
      normalizedDir ← normalizeCLIPathForVFS allowedDir true;
      b ← isPathPrefix normalizedDir canonicalPath;
      if (b : bool) then Ok true else checkAllowed rest canonicalPath
  end.

Definition stripFileScheme (_sourceUnitName : string) : string :=
  if starts_with "file://" _sourceUnitName then erase_front 7 _sourceUnitName
  else _sourceUnitName.

Definition readFilePrefixes (this : t) : list path :=
  m_basePath this :: m_includePaths this.

(** [m_allowedDirectories + extraAllowedPaths], in iteration order. *)
Definition effectiveAllowList (this : t) : FileSystemPathSet :=
  let extraAllowedPaths :=
    set_add_all [if empty (m_basePath this) then "." else m_basePath this]
                (m_includePaths this) in
  set_add_all (m_allowedDirectories this) extraAllowedPaths.

(** The body of the [try] block. *)
Definition readFileTry (this : t) (_kind _sourceUnitName : string)
  : result (Result * t) :=
  _ ← (if negb (String.eqb _kind kindString_ReadFile) then
         Throw (InternalCompilerError
                  ("ReadFile callback used as callback kind " +:+ _kind))
       else Ok tt);
  let strippedSourceUnitName := stripFileScheme _sourceUnitName in
  canonicalPath ←
    resolveCandidates strippedSourceUnitName (readFilePrefixes this) "";
  isAllowed ← checkAllowed (effectiveAllowList this) canonicalPath;
  if negb isAllowed then
    Ok (mkResult false "File outside of allowed directories.", this)
  else
    found ← fs_exists fs canonicalPath;
    if negb found then Ok (mkResult false "File not found.", this)
    else
      regular ← is_regular_file fs canonicalPath;
      if negb regular then Ok (mkResult false "Not a valid file.", this)
      else
        contents ← readFileAsString fs canonicalPath;
        Ok (mkResult true contents,
            mk (m_basePath this) (m_includePaths this)
               (m_allowedDirectories this)
               (<[_sourceUnitName := contents]> (m_sourceCodes this))).

(** The three [catch] clauses. *)
Definition catchMessage (e : exception) : string :=
  match e with
  | InternalCompilerError _ | UtilException _ | StdException _ =>
      "Exception in read callback: " +:+ diagnostic_information fs e
  | UnknownException => "Unknown exception in read callback."
  end.

Definition readFile (this : t) (_kind _sourceUnitName : string) : Result * t :=
  match readFileTry this _kind _sourceUnitName with
  | Ok r => r
  | Throw e => (mkResult false (catchMessage e), this)
  end.

End WithFileSystem.
End FileReader.

(** ** A concrete file system

    A directory tree without symbolic links, enough to run the code: the
    keys are the names below the root directory.  Paths are resolved the
    way the operating system does it (["."] and [".."] need a directory
    to stand on). *)

Module TreeFS.
Import Boost.

Inductive node :=
| Dir
| File (content : string).

Definition tree := list (list string * node).

Definition lookup_node (tr : tree) (loc : list string) : option node :=
  match loc with
  | [] => Some Dir
  | _ => snd <$> List.find (λ kv, bool_decide (fst kv = loc)) tr
  end.

Definition is_dir (tr : tree) (loc : list string) : bool :=
  match lookup_node tr loc with
  | Some Dir => true
  | _ => false
  end.

(** Walks the elements of a path from the location [loc]. *)
Fixpoint walk (tr : tree) (loc : list string) (els : list string)
  : option (list string) :=
  match els with
  | [] => Some loc
  | e :: rest =>
      if String.eqb e "/" then walk tr [] rest
      else if is_root_name e then None
      else if negb (is_dir tr loc) then None
      else if String.eqb e "." then walk tr loc rest
      else if String.eqb e ".." then walk tr (removelast loc) rest
      else match lookup_node tr (loc ++ [e]) with
           | Some _ => walk tr (loc ++ [e]) rest
           | None => None
           end
  end.

Section WithTree.
Variable tr : tree.
Variable cwd : list string.

Definition locate (p : path) : option (list string) :=
  if empty p then None else walk tr cwd (elements p).

Definition status (p : path) : option node :=
  loc ← locate p; lookup_node tr loc.

(** [canonical]: the location found, written from the root. *)
Definition canonical (p : path) : option path :=
  loc ← locate p; Some (compose ("/" :: loc)).

Definition has_dots (l : list string) : bool :=
  existsb (λ e, String.eqb e "." || String.eqb e "..") l.

(** [weakly_canonical]: the longest leading part that exists is made
    canonical, the rest is kept (and normalised when it has dots). *)
Fixpoint weakly_canonical_from (rev_head tail : list string) (p : path) : path :=
  match rev_head with
  | [] => lexically_normal p
  | e :: rev_head' =>
      match canonical (compose (rev rev_head)) with
      | Some head =>
          match tail with
          | [] => head
          | _ => if has_dots tail
                 then lexically_normal (append head (compose tail))
                 else append head (compose tail)
          end
      | None => weakly_canonical_from rev_head' (e :: tail) p
      end
  end.

Definition tree_weakly_canonical (p : path) : path :=
  weakly_canonical_from (rev (elements p)) [] p.

Definition file_system : FileSystem := {|
  current_path := Ok (compose ("/" :: cwd));
  weakly_canonical := λ p, Ok (tree_weakly_canonical p);
  fs_exists := λ p, Ok (bool_decide (is_Some (status p)));
  is_regular_file := λ p,
    Ok (match status p with Some (File _) => true | _ => false end);
  readFileAsString := λ p,
    match status p with
    | Some (File c) => Ok c
    | Some Dir => Throw (UtilException "Not a regular file.")
    | None => Throw (UtilException "File not found.")
    end;
  diagnostic_information := λ e,
    match e with
    | InternalCompilerError c | UtilException c | StdException c => c
    | UnknownException => ""
    end;
|}.

End WithTree.

(** The tree of the specification's scenarios; the compiler runs in
    [/project]. *)
Definition scenario_tree : tree :=
  [ (["project"], Dir);
    (["project"; "contracts"], Dir);
    (["project"; "contracts"; "A.sol"], File "contract A {}");
    (["libs"], Dir);
    (["libs"; "Token.sol"], File "contract Token {}");
    (["etc"], Dir);
    (["etc"; "passwd"], File "root:x:0:0") ].

Definition scenario_fs : FileSystem := file_system scenario_tree ["project"].

(** Base path [/project], nothing else configured. *)
Definition scenario_reader : FileReader.t :=
  FileReader.mk "/project" [] [] ∅.

(** Base path [/project] and the include path [/libs]. *)
Definition scenario_reader_libs : FileReader.t :=
  FileReader.mk "/project" ["/libs"] [] ∅.

End TreeFS.

(** * Specification-side definitions *)

Module UNC.
Import Boost FileReader.

(** The shape of a UNC root name, in the words of the rule. *)
Definition shape (win32 : bool) (rootName : string) : Prop :=
  2 ≤ String.length rootName
  ∧ ((char_at rootName 0 = Some "/"%char ∧ char_at rootName 1 = Some "/"%char)
     ∨ (win32 = true
        ∧ char_at rootName 0 = Some "\"%char ∧ char_at rootName 1 = Some "\"%char))
  ∧ (String.length rootName = 2 ∨ char_at rootName 2 ≠ char_at rootName 1).

End UNC.


(** The resolution of a source unit name and the derivation of a source
    unit name from a path, in the words of their descriptions. *)
Module Described.
Import Boost FileReader.

Section WithFileSystem.
Variable fs : FileSystem.

(** The candidate for a root: [normalize(root / strippedName, true)]. *)
Definition candidate (strippedName : string) (root : path) : result path :=
  normalizeCLIPathForVFS fs (append root strippedName) true.

Definition missing (strippedName : string) (root : path) : Prop :=
  ∃ c, candidate strippedName root = Ok c ∧ fs_exists fs c = Ok false.

(** The target is the first candidate, in the order of the roots, whose
    file system entry exists. *)
Definition first_existing (strippedName : string) (roots : list path)
    (target : path) : Prop :=
  ∃ (i : nat) (root : path),
    roots !! i = Some root
    ∧ candidate strippedName root = Ok target
    ∧ fs_exists fs target = Ok true
    ∧ ∀ (j : nat) (r : path), j < i → roots !! j = Some r → missing strippedName r.

(** No candidate exists and the target is the candidate of the last
    root ([start] when there is no root at all). *)
Definition last_candidate (strippedName : string) (roots : list path)
    (start target : path) : Prop :=
  (∀ r, r ∈ roots → missing strippedName r)
  ∧ match last roots with
    | Some root => candidate strippedName root = Ok target
    | None => target = start
    end.

(** The name is what is left of the path after the first root, in the
    order of the roots, that contains it. *)
Definition first_containing_root_stripped (roots : list path)
    (normalizedPath : path) (name : string) : Prop :=
  ∃ (i : nat) (root : path),
    roots !! i = Some root
    ∧ isPathPrefix root normalizedPath = Ok true
    ∧ (∀ (j : nat) (r : path), j < i → roots !! j = Some r →
         isPathPrefix r normalizedPath = Ok false)
    ∧ name = generic_string (lexically_relative normalizedPath (prefixBase root)).

(** No root contains the path: the name is the normalised path. *)
Definition unscoped (roots : list path) (normalizedPath : path)
    (name : string) : Prop :=
  (∀ r, r ∈ roots → isPathPrefix r normalizedPath = Ok false)
  ∧ name = generic_string normalizedPath.

End WithFileSystem.
End Described.

(** The shapes element sequences and normalised paths have. *)
Module Shape.

Fixpoint sep_free (s : string) : bool :=
  match s with
  | "" => true
  | String c s' => negb (is_directory_separator c) && sep_free s'
  end.

(** A name: a non-empty piece of text without a separator. *)
Definition name (x : string) : Prop := x ≠ "" ∧ sep_free x = true.

(** A root name proper: two separators and a name. *)
Definition net_name (r : string) : Prop := ∃ net, r = "//" +:+ net ∧ name net.

(** Names written one after the other, a separator in between. *)
Fixpoint join (l : list string) : string :=
  match l with
  | [] => ""
  | [x] => x
  | x :: l' => x +:+ "/" +:+ join l'
  end.

(** The elements of a root path. *)
Inductive root : list string → Prop :=
| root_dir : root ["/"]
| root_net (r : string) : net_name r → root [r; "/"].

(** The element sequences of paths. *)
Inductive wf : list string → Prop :=
| wf_slashes : wf ["//"]
| wf_relative (N : list string) : Forall name N → wf N
| wf_net (r : string) : net_name r → wf [r]
| wf_rooted (R N : list string) : root R → Forall name N → wf (R ++ N).

(** The element sequences of normalised paths: a root, then names none
    of which is [".."] and of which only the last may be ["."]; the
    root directory is never followed by a lone dot. *)
Inductive clean : list string → Prop :=
| clean_intro (R T : list string) :
    root R → Forall name T → ".." ∉ T → "." ∉ removelast T →
    R ++ T ≠ ["/"; "."] → clean (R ++ T).

(** The working directory of a POSIX process: an absolute path without
    a root name. *)
Definition posix_absolute (p : Boost.path) : Prop :=
  ∃ N, Boost.elements p = "/" :: N.

Definition is_dot_dot (x : string) : bool := String.eqb x "..".

End Shape.

(** Parts of the source functions, cut out so that the proofs can name
    them; each is shown below to be the part it stands for. *)
Module Cut.
Import Boost FileReader.

(** [normalizeCLIPathForVFS] from its first assertion on: what happens
    to the absolute, normalised or canonical path. *)
Definition portableForm (canonicalWorkDir normalizedPath : path) : result path :=
  _ ← solAssert (is_absolute normalizedPath
                 || path_eqb (root_path normalizedPath) "/") "";
  let normalizedRootPath := root_path normalizedPath in
  let normalizedRootPath :=
    if negb (isUNCPath normalizedPath) then
      let workingDirRootPath := root_path canonicalWorkDir in
      if path_eqb normalizedRootPath workingDirRootPath then "/"
      else normalizedRootPath
    else normalizedRootPath in
  dotDotPrefix ← absoluteDotDotPrefix normalizedPath;
  let normalizedPathNoDotDot :=
    if empty dotDotPrefix then
      append normalizedRootPath (relative_path normalizedPath)
    else
      append normalizedRootPath
        (lexically_relative normalizedPath
           (append (root_path normalizedPath) dotDotPrefix)) in
  _ ← solAssert (negb (hasDotDotSegments normalizedPathNoDotDot)) "";
  let normalizedPathNoDotDot := generic_string normalizedPathNoDotDot in
  if path_eqb normalizedPathNoDotDot "/." then Ok "/"
  else Ok normalizedPathNoDotDot.

(** The preconditions [isPathPrefix] asserts of each argument:
    not empty, absolute or rooted, normalised, free of [".."]. *)
Definition guarded (p : path) : bool :=
  negb (empty p)
  && (is_absolute p || isUNCPath p || path_eqb (root_path p) "/")
  && path_eqb p (lexically_normal p)
  && negb (hasDotDotSegments p).

End Cut.

(** Notions the further properties are stated with. *)
Module Notions.
Import Boost FileReader.

(** An element that counts as one step down in [lexically_relative]. *)
Definition plain (e : string) : Prop := e ≠ "" ∧ e ≠ "." ∧ e ≠ "..".

(** A normalised path as [normalizeCLIPathForVFS] produces it: composed
    of a clean sequence of elements. *)
Definition normalised (p : path) : Prop := ∃ L, Shape.clean L ∧ p = compose L.

(** The state the configuration functions keep a [FileReader] in: an
    empty base path goes with no include path, the base path and the
    include paths are normalised, and no allowed directory is empty. *)
Record well_formed (this : t) : Prop := {
  wf_base : m_basePath this = "" ∨ normalised (m_basePath this);
  wf_include : Forall normalised (m_includePaths this);
  wf_no_base_no_include : m_basePath this = "" → m_includePaths this = [];
  wf_allowed : Forall (λ d, d ≠ "") (m_allowedDirectories this);
}.

(** The [try] block of [readFile] up to the point where the cache is
    written: what is returned for a stripped name, whatever the cache
    holds. *)
Definition readOutcome (fs : FileSystem) (this : t)
    (_kind strippedSourceUnitName : string) : result Result :=
  _ ← (if negb (String.eqb _kind kindString_ReadFile) then
         Throw (InternalCompilerError
                  ("ReadFile callback used as callback kind " +:+ _kind))
       else Ok tt);
  canonicalPath ←
    resolveCandidates fs strippedSourceUnitName (readFilePrefixes this) "";
  isAllowed ← checkAllowed fs (effectiveAllowList this) canonicalPath;
  if negb isAllowed then Ok (mkResult false "File outside of allowed directories.")
  else
    found ← fs_exists fs canonicalPath;
    if negb found then Ok (mkResult false "File not found.")
    else
      regular ← is_regular_file fs canonicalPath;
      if negb regular then Ok (mkResult false "Not a valid file.")
      else
        contents ← readFileAsString fs canonicalPath;
        Ok (mkResult true contents).

(** The cache after a call that returned [r] for the name. *)
Definition cached (this : t) (_sourceUnitName : string) (r : Result) : t :=
  if success r then
    mk (m_basePath this) (m_includePaths this) (m_allowedDirectories this)
       (<[_sourceUnitName := responseOrErrorMessage r]> (m_sourceCodes this))
  else this.

End Notions.

(** The resolution rule of [readFile] in the words of its description,
    and a tree with the same file below two roots to run it on. *)
Module Resolved.
Import Boost FileReader Described.

(** The name without an optional literal [file://] prefix. *)
Definition without_scheme (sourceUnitName strippedName : string) : Prop :=
  (∃ rest, sourceUnitName = "file://" +:+ rest ∧ strippedName = rest)
  ∨ ((∀ rest, sourceUnitName ≠ "file://" +:+ rest)
     ∧ strippedName = sourceUnitName).

(** The target of the resolution: the first candidate, in the order of
    the roots, whose entry exists; the candidate of the last root when
    none exists. *)
Definition resolution_target (fs : FileSystem) (roots : list path)
    (strippedName : string) (target : path) : Prop :=
  first_existing fs strippedName roots target
  ∨ ((∀ r, r ∈ roots → missing fs strippedName r)
     ∧ candidate fs strippedName (List.last roots "") = Ok target).

Definition two_roots_tree : TreeFS.tree :=
  [ (["a"], TreeFS.Dir);
    (["a"; "x.sol"], TreeFS.File "first");
    (["b"], TreeFS.Dir);
    (["b"; "x.sol"], TreeFS.File "second");
    (["b"; "y.sol"], TreeFS.File "below b only") ].

(** The compiler runs in [/a]. *)
Definition two_roots_fs : FileSystem := TreeFS.file_system two_roots_tree ["a"].

End Resolved.
(** * Properties *)

(** ** The result monad *)

Section ResultLemmas.
Context {A B : Type}.

Lemma bind_Ok_inv (m : result A) (f : A → result B) (b : B) :
  m ≫= f = Ok b → ∃ a, m = Ok a ∧ f a = Ok b.
Proof. destruct m as [a|e]; simpl; intros H; [eauto | discriminate]. Qed.

Lemma bind_Ok (m : result A) (f : A → result B) (a : A) :
  m = Ok a → m ≫= f = f a.
Proof. intros ->. reflexivity. Qed.

Lemma bind_Throw (m : result A) (f : A → result B) (e : exception) :
  m = Throw e → m ≫= f = Throw e.
Proof. intros ->. reflexivity. Qed.

End ResultLemmas.

Lemma solAssert_Ok_inv (c : bool) (d : string) (u : unit) :
  solAssert c d = Ok u → c = true.
Proof. destruct c; [reflexivity | discriminate]. Qed.

(** Splits a hypothesis [x ← m; k = Ok r] into its steps. *)
Ltac bind_inv H :=
  let a := fresh "a" in
  let Ha := fresh "Ha" in
  apply bind_Ok_inv in H; destruct H as (a & Ha & H).

(** ** isUNCPath *)

(** Decides one case of the classification once every character test
    has been replaced by an equation. *)
Ltac unc_case :=
  eexists; split; [reflexivity|];
  split;
  [ first
      [ discriminate
      | intros _; split; [simpl; lia|];
        split;
        [ first [ left; split; reflexivity | right; repeat split; reflexivity ]
        | first [ left; reflexivity | right; simpl; congruence ] ] ]
  | first
      [ reflexivity
      | intros (Hl & Hc & H3); simpl in Hl, Hc, H3; exfalso;
        first
          [ lia
          | destruct Hc as [[Hc0 Hc1]|(Hw & Hc0 & Hc1)];
            first [ congruence | discriminate
                  | destruct H3 as [H3|H3]; [lia | congruence] ] ] ] ].

(** C10. [isUNCPath] never reads outside of the root name, and answers
    true exactly for root names of length at least two that start with
    two slashes (on Windows also two backslashes) and whose third
    character, when there is one, differs from the second; root names
    shorter than two characters are never UNC. *)
Theorem isUNCPath_classification (win32 : bool) (rootName : string) :
  (∃ b : bool,
      FileReader.isUNCRootName win32 rootName = Some b
      ∧ (b = true ↔ UNC.shape win32 rootName))
  ∧ (String.length rootName < 2 →
     FileReader.isUNCRootName win32 rootName = Some false)
  ∧ ∀ p : Boost.path,
      (FileReader.isUNCPath p = true ↔ UNC.shape false (Boost.root_name p))
      ∧ (String.length (Boost.root_name p) < 2 → FileReader.isUNCPath p = false).
Proof.
  assert (Hgen : ∀ w rn, ∃ b : bool,
             FileReader.isUNCRootName w rn = Some b
             ∧ (b = true ↔ UNC.shape w rn)).
  { intros w rn. unfold FileReader.isUNCRootName, UNC.shape.
    destruct rn as [|c0 [|c1 [|c2 r]]]; simpl.
    - unc_case.
    - unc_case.
    - destruct (Ascii.eqb c0 "/") eqn:E0, (Ascii.eqb c1 "/") eqn:E1,
        (Ascii.eqb c0 "\") eqn:F0, (Ascii.eqb c1 "\") eqn:F1, w; simpl;
        repeat match goal with
               | H : Ascii.eqb _ _ = true |- _ => apply Ascii.eqb_eq in H
               | H : Ascii.eqb _ _ = false |- _ => apply Ascii.eqb_neq in H
               end; subst; try discriminate; unc_case.
    - destruct (Ascii.eqb c2 c1) eqn:E21,
        (Ascii.eqb c0 "/") eqn:E0, (Ascii.eqb c1 "/") eqn:E1,
        (Ascii.eqb c0 "\") eqn:F0, (Ascii.eqb c1 "\") eqn:F1, w; simpl;
        repeat match goal with
               | H : Ascii.eqb _ _ = true |- _ => apply Ascii.eqb_eq in H
               | H : Ascii.eqb _ _ = false |- _ => apply Ascii.eqb_neq in H
               end; subst; try discriminate; unc_case. }
  assert (Hshort : ∀ w rn, String.length rn < 2 →
                           FileReader.isUNCRootName w rn = Some false).
  { intros w rn Hlen. unfold FileReader.isUNCRootName.
    destruct rn as [|c0 [|c1 r]]; simpl in *; [reflexivity..|lia]. }
  split; [apply Hgen|]. split; [apply Hshort|].
  intros p. unfold FileReader.isUNCPath. split.
  - destruct (Hgen false (Boost.root_name p)) as (b & -> & Hb). exact Hb.
  - intros Hlen. rewrite (Hshort false _ Hlen). reflexivity.
Qed.

(** ** The structure of [readFile] *)

Module ReadFileFacts.
Import Boost FileReader.

Section WithFileSystem.
Variable fs : FileSystem.

Local Abbreviation normalize := (normalizeCLIPathForVFS fs).

Lemma set_insert_elem (x y : path) (s : FileSystemPathSet) :
  x ∈ set_insert y s → x = y ∨ x ∈ s.
Proof.
  induction s as [|z s IH]; simpl.
  - intros H. apply list_elem_of_singleton in H. auto.
  - destruct (compare y z).
    + auto.
    + intros H. apply elem_of_cons in H. destruct H; auto.
    + intros H. apply elem_of_cons in H. destruct H as [->|H].
      * right. apply elem_of_cons. auto.
      * destruct (IH H); auto. right. apply elem_of_cons. auto.
Qed.

Lemma set_add_all_elem (x : path) (l : list path) (s : FileSystemPathSet) :
  x ∈ set_add_all s l → x ∈ s ∨ x ∈ l.
Proof.
  unfold set_add_all. revert s.
  induction l as [|y l IH]; simpl; intros s H; [auto|].
  apply IH in H. destruct H as [H|H].
  - apply set_insert_elem in H. destruct H as [->|H]; [right; left | auto].
  - right. right. exact H.
Qed.

(** The allow-list of a check holds nothing but the allowed directories,
    the base path (or ["."]) and the include paths. *)
Lemma effectiveAllowList_elem (this : t) (dir : path) :
  dir ∈ effectiveAllowList this →
  dir ∈ m_allowedDirectories this
  ∨ dir = (if empty (m_basePath this) then "." else m_basePath this)
  ∨ dir ∈ m_includePaths this.
Proof.
  unfold effectiveAllowList. intros H.
  apply set_add_all_elem in H. destruct H as [H|H]; [auto|].
  apply set_add_all_elem in H. destruct H as [H|H]; [|auto].
  apply list_elem_of_singleton in H. auto.
Qed.

Lemma compare_elements_eq (l1 l2 : list string) :
  compare_elements l1 l2 = Eq → l1 = l2.
Proof.
  revert l2. induction l1 as [|a l1 IH]; intros [|b l2]; simpl; try discriminate.
  - reflexivity.
  - destruct (String.compare a b) eqn:E; try discriminate.
    apply String.compare_eq_iff in E. subst b. intros H. f_equal. exact (IH _ H).
Qed.

Lemma set_insert_keeps (x y : path) (s : FileSystemPathSet) :
  y ∈ s → y ∈ set_insert x s.
Proof.
  induction s as [|z s IH]; simpl; intros H; [inversion H|].
  destruct (compare x z).
  - exact H.
  - by right.
  - apply elem_of_cons in H. destruct H as [->|H]; [left | right; exact (IH H)].
Qed.

(** An inserted path is in the set, or the equivalent path that was
    there before it is. *)
Lemma set_insert_represents (x : path) (s : FileSystemPathSet) :
  ∃ y, y ∈ set_insert x s ∧ elements y = elements x.
Proof.
  induction s as [|z s IH]; simpl.
  - exists x. split; [left | reflexivity].
  - destruct (compare x z) eqn:E.
    + exists z. split; [left|]. symmetry. exact (compare_elements_eq _ _ E).
    + exists x. split; [left | reflexivity].
    + destruct IH as (y & Hy & Ey). exists y. split; [by right | exact Ey].
Qed.

Lemma set_add_all_keeps (y : path) (l : list path) (s : FileSystemPathSet) :
  y ∈ s → y ∈ set_add_all s l.
Proof.
  unfold set_add_all. revert s. induction l as [|x l IH]; simpl; intros s H;
    [exact H|]. apply IH, set_insert_keeps, H.
Qed.

Lemma set_add_all_represents (x : path) (l : list path) (s : FileSystemPathSet) :
  x ∈ l → ∃ y, y ∈ set_add_all s l ∧ elements y = elements x.
Proof.
  unfold set_add_all. revert s. induction l as [|z l IH]; simpl; intros s H;
    [inversion H|].
  apply elem_of_cons in H. destruct H as [->|H]; [|exact (IH _ H)].
  destruct (set_insert_represents z s) as (y & Hy & Ey).
  exists y. split; [|exact Ey]. apply (set_add_all_keeps y l _ Hy).
Qed.

(** Conversely, each allowed directory, the base path (or ["."]) and
    each include path is in the allow-list of a check, itself or as an
    equivalent path. *)
Lemma effectiveAllowList_complete (this : t) (dir : path) :
  dir ∈ m_allowedDirectories this
  ∨ dir = (if empty (m_basePath this) then "." else m_basePath this)
  ∨ dir ∈ m_includePaths this →
  ∃ dir', dir' ∈ effectiveAllowList this ∧ elements dir' = elements dir.
Proof.
  unfold effectiveAllowList. intros [H|[->|H]].
  - exists dir. split; [|reflexivity]. apply set_add_all_keeps. exact H.
  - apply set_add_all_represents. apply set_add_all_keeps. left.
  - destruct (set_add_all_represents dir (m_includePaths this)
                [if empty (m_basePath this) then "." else m_basePath this] H)
      as (y & Hy & Ey).
    destruct (set_add_all_represents y _ (m_allowedDirectories this) Hy)
      as (y' & Hy' & Ey').
    exists y'. split; [exact Hy' | congruence].
Qed.

Lemma checkAllowed_true_inv (dirs : list path) (target : path) :
  checkAllowed fs dirs target = Ok true →
  ∃ dir ndir, dir ∈ dirs ∧ normalize dir true = Ok ndir
              ∧ isPathPrefix ndir target = Ok true.
Proof.
  induction dirs as [|d dirs IH]; simpl; [discriminate|].
  intros H. bind_inv H. bind_inv H. destruct a0.
  - exists d, a. split; [left|]. auto.
  - destruct (IH H) as (dir & ndir & Hin & Hn & Hp).
    exists dir, ndir. split; [right|]; auto.
Qed.

Lemma checkAllowed_all_outside (dirs : list path) (target : path) :
  (∀ dir, dir ∈ dirs →
     ∃ ndir, normalize dir true = Ok ndir ∧ isPathPrefix ndir target = Ok false) →
  checkAllowed fs dirs target = Ok false.
Proof.
  induction dirs as [|d dirs IH]; simpl; intros H; [reflexivity|].
  destruct (H d) as (ndir & Hn & Hp); [left|].
  rewrite Hn. simpl. rewrite Hp. simpl.
  apply IH. intros dir Hin. apply H. right. exact Hin.
Qed.

(** What a run of [readFile] went through when it reports success. *)
Lemma readFile_success_inv (this : t) (kind name : string) (r : Result) (this' : t) :
  readFile fs this kind name = (r, this') →
  success r = true →
  kind = kindString_ReadFile
  ∧ ∃ target contents,
      resolveCandidates fs (stripFileScheme name) (readFilePrefixes this) ""
        = Ok target
      ∧ checkAllowed fs (effectiveAllowList this) target = Ok true
      ∧ fs_exists fs target = Ok true
      ∧ is_regular_file fs target = Ok true
      ∧ readFileAsString fs target = Ok contents
      ∧ r = mkResult true contents
      ∧ this' = mk (m_basePath this) (m_includePaths this)
                   (m_allowedDirectories this)
                   (<[name := contents]> (m_sourceCodes this)).
Proof.
  unfold readFile. intros H Hs.
  destruct (readFileTry fs this kind name) as [[r0 t0]|e] eqn:E;
    [|inversion H; subst; discriminate].
  inversion H; subst r0 t0; clear H.
  unfold readFileTry in E.
  bind_inv E.
  destruct (String.eqb kind kindString_ReadFile) eqn:Ek; [|discriminate].
  apply String.eqb_eq in Ek. split; [exact Ek|].
  bind_inv E. bind_inv E.
  destruct a1; simpl in E; [|inversion E; subst; discriminate].
  bind_inv E.
  destruct a1; simpl in E; [|inversion E; subst; discriminate].
  bind_inv E.
  destruct a1; simpl in E; [|inversion E; subst; discriminate].
  bind_inv E. inversion E; subst.
  exists a0, a1. repeat split; assumption.
Qed.

(** A failed run leaves the object as it was. *)
Lemma readFile_failure_state (this : t) (kind name : string) :
  success (fst (readFile fs this kind name)) = false →
  snd (readFile fs this kind name) = this.
Proof.
  unfold readFile.
  destruct (readFileTry fs this kind name) as [[r0 t0]|e] eqn:E; [|reflexivity].
  simpl. intros Hs. unfold readFileTry in E.
  bind_inv E. bind_inv E. bind_inv E.
  destruct a1; simpl in E; [|inversion E; reflexivity].
  bind_inv E.
  destruct a1; simpl in E; [|inversion E; reflexivity].
  bind_inv E.
  destruct a1; simpl in E; [|inversion E; reflexivity].
  bind_inv E. inversion E; subst. discriminate.
Qed.

End WithFileSystem.
End ReadFileFacts.

(** ** Resolution order *)

Module ResolutionFacts.
Import Boost FileReader Described.

Section WithFileSystem.
Variable fs : FileSystem.

Lemma resolveCandidates_described (s : string) (roots : list path)
    (start target : path) :
  resolveCandidates fs s roots start = Ok target
  ↔ first_existing fs s roots target ∨ last_candidate fs s roots start target.
Proof.
  revert start. induction roots as [|r roots IH]; intros start; simpl.
  - split.
    + intros H. inversion H; subst. right. split; [|reflexivity].
      intros r Hr. inversion Hr.
    + intros [(i & root & Hi & _)|[_ H]]; [discriminate|]. simpl in H. by subst.
  - split.
    + intros H. bind_inv H. bind_inv H. destruct a0.
      * inversion H; subst. left. exists 0, r. repeat split; auto.
        intros j r' Hj. lia.
      * apply IH in H. destruct H as [(i & root & Hi & Hc & He & Hm)|[Hm Hl]].
        -- left. exists (S i), root. repeat split; auto.
           intros [|j] r' Hj Hr'; simpl in Hr'.
           ++ inversion Hr'; subst. exists a. auto.
           ++ apply (Hm j); [lia | exact Hr'].
        -- right. split.
           ++ intros r' Hr'. apply elem_of_cons in Hr'. destruct Hr' as [->|Hr'].
              ** exists a. auto.
              ** auto.
           ++ rewrite last_cons. destruct (last roots); [exact Hl|].
              subst. exact Ha.
    + intros [(i & root & Hi & Hc & He & Hm)|[Hm Hl]].
      * destruct i as [|i]; simpl in Hi.
        -- inversion Hi; subst. unfold candidate in Hc. rewrite Hc. simpl.
           rewrite He. reflexivity.
        -- destruct (Hm 0 r) as (c & Hc0 & He0); [lia | reflexivity |].
           unfold candidate in Hc0. rewrite Hc0. simpl. rewrite He0. simpl.
           apply IH. left. exists i, root. repeat split; auto.
           intros j r' Hj Hr'. apply (Hm (S j)); [lia | exact Hr'].
      * destruct (Hm r) as (c & Hc0 & He0); [left|].
        unfold candidate in Hc0. rewrite Hc0. simpl. rewrite He0. simpl.
        apply IH. right. split.
        -- intros r' Hr'. apply Hm. by right.
        -- rewrite last_cons in Hl. destruct (last roots); [exact Hl|].
           unfold candidate in Hl. congruence.
Qed.

Lemma isPathPrefix_true_strip (root np : path) :
  isPathPrefix root np = Ok true →
  stripPrefixIfPresent root np = Ok (lexically_relative np (prefixBase root)).
Proof.
  intros H. unfold stripPrefixIfPresent. rewrite H. simpl.
  unfold isPathPrefix in H. repeat bind_inv H. injection H as Hb.
  apply andb_true_iff in Hb. destruct Hb as [_ Hb].
  rewrite Hb.
  destruct (empty (lexically_relative np (prefixBase root))); reflexivity.
Qed.

Lemma stripFirstPrefix_described (roots : list path) (np : path) (name : string) :
  stripFirstPrefix roots np = Ok name
  ↔ first_containing_root_stripped roots np name ∨ unscoped roots np name.
Proof.
  induction roots as [|r roots IH]; simpl.
  - split.
    + intros H. inversion H; subst. right. split; [|reflexivity].
      intros r Hr. inversion Hr.
    + intros [(i & root & Hi & _)|[_ H]]; [discriminate|]. by subst.
  - split.
    + intros H. bind_inv H. destruct a.
      * rewrite (isPathPrefix_true_strip _ _ Ha) in H. inversion H; subst.
        left. exists 0, r. repeat split; auto. intros j r' Hj. lia.
      * apply IH in H. destruct H as [(i & root & Hi & Hc & Hm & Hn)|[Hm Hn]].
        -- left. exists (S i), root. repeat split; auto.
           intros [|j] r' Hj Hr'; simpl in Hr'.
           ++ inversion Hr'; subst. exact Ha.
           ++ apply (Hm j); [lia | exact Hr'].
        -- right. split; [|exact Hn].
           intros r' Hr'. apply elem_of_cons in Hr'. destruct Hr' as [->|Hr']; auto.
    + intros [(i & root & Hi & Hc & Hm & Hn)|[Hm Hn]].
      * destruct i as [|i]; simpl in Hi.
        -- inversion Hi; subst. rewrite Hc. simpl.
           apply isPathPrefix_true_strip. exact Hc.
        -- rewrite (Hm 0 r); [|lia|reflexivity]. simpl.
           apply IH. left. exists i, root. repeat split; auto.
           intros j r' Hj Hr'. apply (Hm (S j)); [lia | exact Hr'].
      * rewrite (Hm r); [|left]. simpl. apply IH. right. split; [|exact Hn].
        intros r' Hr'. apply Hm. by right.
Qed.

End WithFileSystem.
End ResolutionFacts.

(** ** Paths and their elements *)

Module PathFacts.
Import Boost Shape.

Lemma append_assoc (a b c : string) : (a +:+ b) +:+ c = a +:+ (b +:+ c).
Proof. induction a as [|x a IH]; simpl; [reflexivity | f_equal; exact IH]. Qed.

Lemma append_empty_r (a : string) : a +:+ "" = a.
Proof. induction a as [|x a IH]; simpl; [reflexivity | f_equal; exact IH]. Qed.

Lemma nonempty_true (s : string) : nonempty s = true ↔ s ≠ "".
Proof.
  unfold nonempty. rewrite negb_true_iff. apply String.eqb_neq.
Qed.

Lemma nonempty_false (s : string) : nonempty s = false ↔ s = "".
Proof.
  unfold nonempty. rewrite negb_false_iff. apply String.eqb_eq.
Qed.

Lemma name_cons (x : string) :
  name x → ∃ c x', x = String c x' ∧ is_directory_separator c = false
                   ∧ sep_free x' = true.
Proof.
  intros [Hne Hsf]. destruct x as [|c x']; [done|].
  simpl in Hsf. apply andb_true_iff in Hsf. destruct Hsf as [Hc Hx].
  apply negb_true_iff in Hc. eauto.
Qed.

Lemma name_dot : name ".".
Proof. split; [discriminate | reflexivity]. Qed.

Lemma name_dotdot : name "..".
Proof. split; [discriminate | reflexivity]. Qed.

(** *** split *)

Lemma split_sep_free_id (x : string) : sep_free x = true → split x = [x].
Proof.
  induction x as [|c x IH]; simpl; [reflexivity|].
  intros H. apply andb_true_iff in H. destruct H as [Hc Hx].
  apply negb_true_iff in Hc. rewrite Hc, (IH Hx). reflexivity.
Qed.

Lemma split_app_sep (x s : string) :
  sep_free x = true → split (x +:+ String "/" s) = x :: split s.
Proof.
  induction x as [|c x IH]; simpl; [reflexivity|].
  intros H. apply andb_true_iff in H. destruct H as [Hc Hx].
  apply negb_true_iff in Hc. rewrite Hc, (IH Hx). reflexivity.
Qed.

Lemma split_all_sep_free (s : string) : Forall (λ x, sep_free x = true) (split s).
Proof.
  induction s as [|c s IH]; simpl.
  - constructor; [reflexivity | constructor].
  - destruct (is_directory_separator c) eqn:Hc.
    + constructor; [reflexivity | exact IH].
    + destruct (split s) as [|h t].
      * constructor; [simpl; by rewrite Hc | constructor].
      * inversion IH; subst. constructor; [simpl; rewrite Hc; simpl; assumption | assumption].
Qed.

Lemma split_join (N : list string) :
  Forall name N → N ≠ [] → split (join N) = N.
Proof.
  induction N as [|x N IH]; [done|].
  intros HN _. inversion HN as [|? ? [_ Hx] HN']; subst.
  destruct N as [|y N].
  - simpl. apply split_sep_free_id. exact Hx.
  - change (join (x :: y :: N)) with (x +:+ String "/" (join (y :: N))).
    rewrite split_app_sep by exact Hx. rewrite IH; [reflexivity | assumption | done].
Qed.

(** *** body *)

Lemma filter_nonempty_names (N : list string) :
  Forall name N → List.filter nonempty N = N.
Proof.
  intros H. apply forallb_filter_id. apply forallb_forall.
  intros x Hx. rewrite Forall_forall in H.
  apply nonempty_true. apply H. apply list_elem_of_In. exact Hx.
Qed.

Lemma last_in (N : list string) (d : string) : N ≠ [] → List.last N d ∈ N.
Proof.
  intros H. rewrite (app_removelast_last d H) at 2.
  apply elem_of_app. right. left.
Qed.

Lemma body_names (N : list string) : Forall name N → body N = N.
Proof.
  intros H. unfold body. rewrite (filter_nonempty_names N H).
  destruct N as [|x N]; [reflexivity|].
  assert (Hl : name (List.last (x :: N) "")).
  { rewrite Forall_forall in H. apply H. apply last_in. done. }
  destruct Hl as [Hl _]. apply String.eqb_neq in Hl. rewrite Hl. reflexivity.
Qed.

Lemma body_all_names (pieces : list string) :
  Forall (λ x, sep_free x = true) pieces → Forall name (body pieces).
Proof.
  intros H. unfold body.
  assert (Hf : Forall name (List.filter nonempty pieces)).
  { rewrite Forall_forall in *. intros x Hx.
    apply list_elem_of_In, filter_In in Hx. destruct Hx as [Hx Hn].
    split; [by apply nonempty_true | apply H; by apply list_elem_of_In]. }
  destruct (List.filter nonempty pieces) as [|y ns] eqn:E; [constructor|].
  destruct (String.eqb (List.last pieces "") ""); [|exact Hf].
  apply Forall_app. split; [exact Hf|]. constructor; [apply name_dot | constructor].
Qed.

(** *** take_name and drop_name *)

Lemma take_name_sep_free (s : string) : sep_free (take_name s) = true.
Proof.
  induction s as [|c s IH]; simpl; [reflexivity|].
  destruct (is_directory_separator c) eqn:Hc; simpl; [reflexivity|].
  rewrite Hc. exact IH.
Qed.

Lemma take_name_app (x s : string) :
  sep_free x = true → take_name (x +:+ String "/" s) = x.
Proof.
  induction x as [|c x IH]; simpl; [reflexivity|].
  intros H. apply andb_true_iff in H. destruct H as [Hc Hx].
  apply negb_true_iff in Hc. rewrite Hc, (IH Hx). reflexivity.
Qed.

Lemma drop_name_app (x s : string) :
  sep_free x = true → drop_name (x +:+ String "/" s) = String "/" s.
Proof.
  induction x as [|c x IH]; simpl; [reflexivity|].
  intros H. apply andb_true_iff in H. destruct H as [Hc Hx].
  apply negb_true_iff in Hc. rewrite Hc. exact (IH Hx).
Qed.

Lemma take_name_id (x : string) : sep_free x = true → take_name x = x.
Proof.
  induction x as [|c x IH]; simpl; [reflexivity|].
  intros H. apply andb_true_iff in H. destruct H as [Hc Hx].
  apply negb_true_iff in Hc. rewrite Hc, (IH Hx). reflexivity.
Qed.

Lemma drop_name_id (x : string) : sep_free x = true → drop_name x = "".
Proof.
  induction x as [|c x IH]; simpl; [reflexivity|].
  intros H. apply andb_true_iff in H. destruct H as [Hc Hx].
  apply negb_true_iff in Hc. rewrite Hc. exact (IH Hx).
Qed.

(** *** append and compose *)

Lemma sep_free_no_trailing_separator (x : string) :
  sep_free x = true → ends_with_separator x = false.
Proof.
  induction x as [|c x IH]; [reflexivity|].
  intros H. simpl in H. apply andb_true_iff in H. destruct H as [Hc Hx].
  apply negb_true_iff in Hc. destruct x as [|c' x]; [exact Hc|].
  exact (IH Hx).
Qed.

Lemma ends_with_separator_app (p x : string) :
  x ≠ "" → ends_with_separator (p +:+ x) = ends_with_separator x.
Proof.
  intros Hx. induction p as [|c p IH]; [reflexivity|].
  simpl. destruct (p +:+ x) as [|c' s] eqn:E; [|exact IH].
  destruct p; simpl in E; [contradiction | discriminate].
Qed.

Lemma ends_with_separator_app_name (p x : string) :
  name x → ends_with_separator (p +:+ x) = false.
Proof.
  intros [Hne Hsf]. rewrite ends_with_separator_app by exact Hne.
  apply sep_free_no_trailing_separator. exact Hsf.
Qed.

Lemma app_name_nonempty (p x : string) : name x → nonempty (p +:+ x) = true.
Proof.
  intros [Hne _]. apply nonempty_true. destruct p; simpl; [exact Hne | discriminate].
Qed.

(** How [operator/=] attaches a name. *)
Lemma append_name (p x : string) :
  name x →
  append p x = if nonempty p && negb (ends_with_separator p)
               then p +:+ "/" +:+ x else p +:+ x.
Proof.
  intros Hx. destruct (name_cons x Hx) as (c & x' & -> & Hc & _).
  unfold append. rewrite Hc. reflexivity.
Qed.

Lemma append_name_open (p x : string) :
  name x → nonempty (append p x) && negb (ends_with_separator (append p x)) = true.
Proof.
  intros Hx. rewrite append_name by exact Hx.
  destruct (nonempty p && negb (ends_with_separator p)).
  - change (p +:+ "/" +:+ x) with (p +:+ (String "/" "" +:+ x)).
    rewrite <- append_assoc.
    rewrite app_name_nonempty, ends_with_separator_app_name by exact Hx. reflexivity.
  - rewrite app_name_nonempty, ends_with_separator_app_name by exact Hx. reflexivity.
Qed.

Lemma fold_append_names (N : list string) (acc : string) :
  Forall name N → N ≠ [] →
  fold_left append N acc
  = if nonempty acc && negb (ends_with_separator acc)
    then acc +:+ "/" +:+ join N else acc +:+ join N.
Proof.
  revert acc. induction N as [|x N IH]; [done|].
  intros acc HN _. inversion HN as [|? ? Hx HN']; subst.
  destruct N as [|y N].
  - simpl. apply append_name. exact Hx.
  - change (fold_left append (x :: y :: N) acc)
      with (fold_left append (y :: N) (append acc x)).
    rewrite IH; [|assumption|done].
    rewrite append_name_open by exact Hx.
    rewrite append_name by exact Hx.
    change (join (x :: y :: N)) with (x +:+ "/" +:+ join (y :: N)).
    destruct (nonempty acc && negb (ends_with_separator acc)).
    + rewrite !append_assoc. reflexivity.
    + rewrite !append_assoc. reflexivity.
Qed.

Lemma compose_names (N : list string) : Forall name N → compose N = join N.
Proof.
  intros HN. destruct N as [|x N]; [reflexivity|].
  unfold compose. rewrite fold_append_names; [reflexivity | assumption | done].
Qed.

Lemma compose_root_dir (N : list string) :
  Forall name N → compose ("/" :: N) = "/" +:+ join N.
Proof.
  intros HN. destruct N as [|x N]; [reflexivity|].
  unfold compose. change (fold_left append ("/" :: x :: N) "")
    with (fold_left append (x :: N) "/").
  rewrite fold_append_names; [reflexivity | assumption | done].
Qed.

Lemma ends_with_separator_snoc (p : string) :
  ends_with_separator (p +:+ "/") = true.
Proof. rewrite ends_with_separator_app by discriminate. reflexivity. Qed.

Lemma net_name_text (r : string) :
  net_name r →
  ∃ c net', r = String "/" (String "/" (String c net'))
            ∧ is_directory_separator c = false ∧ sep_free net' = true.
Proof.
  intros (net & -> & Hn). destruct (name_cons net Hn) as (c & net' & -> & Hc & Hs).
  exists c, net'. auto.
Qed.

Lemma compose_root_net (r : string) (N : list string) :
  net_name r → Forall name N → compose (r :: "/" :: N) = r +:+ "/" +:+ join N.
Proof.
  intros Hr HN. destruct (net_name_text r Hr) as (c & net' & -> & Hc & Hs).
  destruct N as [|x N]; [reflexivity|].
  unfold compose.
  change (fold_left append (String "/" (String "/" (String c net')) :: "/" :: x :: N) "")
    with (fold_left append (x :: N) (String "/" (String "/" (String c net')) +:+ "/")).
  rewrite fold_append_names; [|assumption|done].
  rewrite ends_with_separator_snoc, andb_false_r.
  rewrite append_assoc. reflexivity.
Qed.

Lemma compose_net (r : string) : net_name r → compose [r] = r.
Proof.
  intros Hr. destruct (net_name_text r Hr) as (c & net' & -> & _). reflexivity.
Qed.

Lemma compose_rooted (R N : list string) :
  root R → Forall name N → compose (R ++ N) = compose R +:+ join N.
Proof.
  intros HR HN. destruct HR as [|r Hr].
  - simpl. apply compose_root_dir. exact HN.
  - change ([r; "/"] ++ N) with (r :: "/" :: N).
    rewrite compose_root_net by assumption.
    rewrite (compose_root_net r []) by (auto || constructor).
    simpl. rewrite append_assoc. reflexivity.
Qed.

(** *** The elements of a composed path *)

Lemma join_cons_name (x : string) (N : list string) :
  name x → ∃ c s, join (x :: N) = String c s ∧ is_directory_separator c = false.
Proof.
  intros Hx. destruct (name_cons x Hx) as (c & x' & -> & Hc & _).
  destruct N as [|y N]; simpl; eauto.
Qed.

Lemma elements_relative_text (c : ascii) (s : string) :
  is_directory_separator c = false →
  elements (String c s) = body (split (String c s)).
Proof. intros H. unfold elements. rewrite H. reflexivity. Qed.

Lemma elements_root_text (c : ascii) (s : string) :
  is_directory_separator c = false →
  elements (String "/" (String c s)) = "/" :: body (split (String c s)).
Proof.
  intros H. unfold elements. change (is_directory_separator "/") with true.
  cbv iota. rewrite H. reflexivity.
Qed.

Lemma elements_join (N : list string) : Forall name N → elements (join N) = N.
Proof.
  intros HN. destruct N as [|x N]; [reflexivity|].
  inversion HN as [|? ? Hx _]; subst.
  destruct (join_cons_name x N Hx) as (c & s & E & Hc).
  assert (Hb : body (split (join (x :: N))) = x :: N).
  { rewrite split_join by (assumption || done). apply body_names. exact HN. }
  rewrite E in *. rewrite elements_relative_text by exact Hc. exact Hb.
Qed.

Lemma body_split_join (N : list string) : Forall name N → body (split (join N)) = N.
Proof.
  intros HN. destruct N as [|x N]; [reflexivity|].
  rewrite split_join by (assumption || done). apply body_names. exact HN.
Qed.

Lemma elements_root_dir_join (N : list string) :
  Forall name N → elements ("/" +:+ join N) = "/" :: N.
Proof.
  intros HN. pose proof (body_split_join N HN) as Hb.
  destruct N as [|x N]; [reflexivity|].
  inversion HN as [|? ? Hx _]; subst.
  destruct (join_cons_name x N Hx) as (c & s & E & Hc).
  change ("/" +:+ join (x :: N)) with (String "/" (join (x :: N))).
  rewrite E in *. rewrite elements_root_text by exact Hc. f_equal. exact Hb.
Qed.

Lemma elements_net_text (c : ascii) (s3 : string) :
  is_directory_separator c = false →
  elements (String "/" (String "/" (String c s3)))
  = match drop_name s3 with
    | "" => [String "/" (String "/" (String c (take_name s3)))]
    | String _ r =>
        String "/" (String "/" (String c (take_name s3))) :: "/" :: body (split r)
    end.
Proof.
  intros H. unfold elements. change (is_directory_separator "/") with true.
  cbv iota. rewrite H. cbv zeta. cbn [take_name drop_name]. rewrite H.
  reflexivity.
Qed.

Lemma elements_net (r : string) : net_name r → elements r = [r].
Proof.
  intros Hr. destruct (net_name_text r Hr) as (c & net' & -> & Hc & Hs).
  rewrite elements_net_text by exact Hc.
  rewrite (drop_name_id net' Hs), (take_name_id net' Hs). reflexivity.
Qed.

Lemma elements_root_net_join (r : string) (N : list string) :
  net_name r → Forall name N → elements (r +:+ "/" +:+ join N) = r :: "/" :: N.
Proof.
  intros Hr HN. destruct (net_name_text r Hr) as (c & net' & -> & Hc & Hs).
  pose proof (body_split_join N HN) as Hb.
  change (String "/" (String "/" (String c net')) +:+ "/" +:+ join N)
    with (String "/" (String "/" (String c (net' +:+ String "/" (join N))))).
  rewrite elements_net_text by exact Hc.
  rewrite (drop_name_app net' _ Hs), (take_name_app net' _ Hs).
  rewrite Hb. reflexivity.
Qed.

(** Composing the elements of a path and reading the elements of the
    result gives the elements back. *)
Lemma elements_compose (L : list string) : wf L → elements (compose L) = L.
Proof.
  intros [|N HN|r Hr|R N HR HN].
  - reflexivity.
  - rewrite compose_names by exact HN. apply elements_join. exact HN.
  - rewrite compose_net by exact Hr. apply elements_net. exact Hr.
  - destruct HR as [|r Hr].
    + simpl app. rewrite compose_root_dir by exact HN.
      apply elements_root_dir_join. exact HN.
    + change ([r; "/"] ++ N) with (r :: "/" :: N).
      rewrite compose_root_net by assumption.
      apply elements_root_net_join; assumption.
Qed.

(** The elements of any path are well formed. *)
Lemma elements_wf (s : path) : wf (elements s).
Proof.
  assert (Hbody : ∀ t, Forall name (body (split t))).
  { intros t. apply body_all_names, split_all_sep_free. }
  destruct s as [|c1 s1]; [apply wf_relative; constructor|].
  unfold elements.
  destruct (is_directory_separator c1) eqn:H1; [|apply wf_relative, Hbody].
  destruct s1 as [|c2 s2]; [apply (wf_rooted ["/"] []); constructor|].
  destruct (is_directory_separator c2) eqn:H2;
    [|apply (wf_rooted ["/"]); [constructor | apply Hbody]].
  destruct s2 as [|c3 s3]; [apply Ascii.eqb_eq in H1, H2; subst; apply wf_slashes|].
  destruct (is_directory_separator c3) eqn:H3;
    [apply (wf_rooted ["/"]); [constructor | apply Hbody]|].
  apply Ascii.eqb_eq in H1, H2. subst c1 c2.
  assert (Hr : net_name (String "/" (String "/" (take_name (String c3 s3))))).
  { exists (take_name (String c3 s3)). split; [reflexivity|].
    split; [simpl; rewrite H3; discriminate | apply take_name_sep_free]. }
  cbv zeta.
  destruct (drop_name (String c3 s3)) as [|c r].
  - apply wf_net. exact Hr.
  - apply (wf_rooted [_; "/"]); [constructor; exact Hr | apply Hbody].
Qed.

End PathFacts.

(** ** Lexical operations on element sequences *)

Module LexicalFacts.
Import Boost Shape PathFacts.

Lemma elem_of_removelast (x : string) (l : list string) :
  x ∈ removelast l → x ∈ l.
Proof.
  intros H. destruct l as [|y l]; [exact H|].
  rewrite (app_removelast_last "" (l := y :: l)) by done.
  apply elem_of_app. left. exact H.
Qed.

Lemma Forall_removelast (P : string → Prop) (l : list string) :
  Forall P l → Forall P (removelast l).
Proof.
  rewrite !Forall_forall. intros H x Hx. apply H, elem_of_removelast, Hx.
Qed.

Lemma root_nonempty (R : list string) : root R → R ≠ [].
Proof. intros []; discriminate. Qed.

Lemma root_last (R : list string) : root R → List.last R "" = "/".
Proof. intros []; reflexivity. Qed.

Lemma net_name_not_dot (r : string) : net_name r → String.eqb r "." = false.
Proof.
  intros Hr. destruct (net_name_text r Hr) as (c & net' & -> & _). reflexivity.
Qed.

Lemma name_not_slash (x : string) : name x → String.eqb x "/" = false.
Proof.
  intros Hx. destruct (name_cons x Hx) as (c & x' & -> & Hc & _).
  apply String.eqb_neq. intros E. injection E as -> _. discriminate.
Qed.

Lemma name_not_empty (x : string) : name x → String.eqb x "" = false.
Proof. intros [Hx _]. apply String.eqb_neq. exact Hx. Qed.

Lemma name_not_root_name (x : string) : name x → is_root_name x = false.
Proof.
  intros Hx. destruct (name_cons x Hx) as (c & x' & -> & Hc & _).
  unfold is_root_name. destruct x'; [reflexivity|]. rewrite Hc. reflexivity.
Qed.

(** *** mismatch *)

Lemma mismatch_common (l1 l2 : list string) :
  ∃ common, l1 = common ++ (mismatch l1 l2).1 ∧ l2 = common ++ (mismatch l1 l2).2.
Proof.
  revert l2. induction l1 as [|a l1 IH]; intros l2.
  - exists []. destruct l2; auto.
  - destruct l2 as [|b l2]; [exists []; auto|].
    simpl. destruct (String.eqb a b) eqn:E.
    + apply String.eqb_eq in E. subst b.
      destruct (IH l2) as (common & H1 & H2).
      exists (a :: common). simpl. split; f_equal; assumption.
    + exists []. auto.
Qed.

Lemma mismatch_app (l k1 k2 : list string) :
  mismatch (l ++ k1) (l ++ k2) = mismatch k1 k2.
Proof.
  induction l as [|a l IH]; [reflexivity|].
  simpl. rewrite String.eqb_refl. exact IH.
Qed.

Lemma mismatch_nil_r (l : list string) : mismatch l [] = (l, []).
Proof. destruct l; reflexivity. Qed.

Lemma base_depth_dot_dots (l : list string) (n : Z) :
  Forall (λ x, is_dot_dot x = true) l →
  base_depth l n = (n - Z.of_nat (length l))%Z.
Proof.
  revert n. induction l as [|x l IH]; intros n H.
  - simpl. lia.
  - inversion H as [|? ? Hx Hl]; subst. simpl.
    unfold is_dot_dot in Hx. rewrite Hx. rewrite IH by exact Hl. lia.
Qed.

(** *** lexically_normal *)

(** Without [".."] and with a dot at the end at most, the loop keeps
    every element. *)
Lemma normal_loop_keeps (first : bool) (temp l : list string) :
  ".." ∉ l → "." ∉ removelast l → normal_loop first temp l = temp ++ l.
Proof.
  revert first temp. induction l as [|e rest IH]; intros first temp Hdd Hd.
  - simpl. by rewrite app_nil_r.
  - assert (Hne : String.eqb e ".." = false).
    { apply String.eqb_neq. intros ->. apply Hdd. left. }
    assert (Hrest : normal_loop false (temp ++ [e]) rest = temp ++ e :: rest).
    { rewrite IH.
      - by rewrite <- app_assoc.
      - intros H. apply Hdd. by right.
      - intros H. apply Hd. destruct rest as [|y rest]; [inversion H|].
        right. exact H. }
    simpl. rewrite Hne, andb_false_r. simpl.
    destruct (String.eqb e ".") eqn:Ed; [|exact Hrest].
    apply String.eqb_eq in Ed. subst e.
    destruct rest as [|y rest].
    + rewrite andb_false_r. exact Hrest.
    + exfalso. apply Hd. left.
Qed.

Lemma normal_loop_names (first : bool) (temp l : list string) :
  Forall name temp → Forall name l → Forall name (normal_loop first temp l).
Proof.
  revert first temp. induction l as [|e rest IH]; intros first temp Ht Hl.
  - exact Ht.
  - inversion Hl as [|? ? He Hrest]; subst. simpl.
    destruct (String.eqb e "." && negb first
              && negb match rest with [] => true | _ :: _ => false end);
      [apply IH; assumption|].
    destruct (negb (bool_decide (temp = [])) && String.eqb e ".."
              && cancellable (List.last temp "")).
    + apply IH; [|assumption].
      destruct (bool_decide (removelast temp = []) && bool_decide (rest = ["."])).
      * constructor; [apply name_dot | constructor].
      * apply Forall_removelast. exact Ht.
    + apply IH; [|assumption].
      apply Forall_app. split; [assumption|]. constructor; [assumption | constructor].
Qed.

(** Below a root the loop leaves the root alone and no dot but a last
    one. *)
Lemma normal_loop_rooted (R T0 l : list string) :
  root R → Forall name T0 → "." ∉ T0 → Forall name l →
  ∃ T1, normal_loop false (R ++ T0) l = R ++ T1
        ∧ Forall name T1 ∧ "." ∉ removelast T1.
Proof.
  intros HR. revert T0. induction l as [|e rest IH]; intros T0 HT0 Hd Hl.
  - exists T0. split; [reflexivity|]. split; [assumption|].
    intros H. apply Hd, elem_of_removelast, H.
  - inversion Hl as [|? ? He Hrest]; subst. simpl.
    destruct (String.eqb e ".") eqn:Ed.
    + apply String.eqb_eq in Ed. subst e. simpl.
      destruct rest as [|y rest].
      * simpl. rewrite andb_false_r. simpl.
        exists (T0 ++ ["."]). rewrite <- app_assoc.
        split; [reflexivity|]. split.
        -- apply Forall_app. split; [assumption|]. constructor; [apply name_dot | constructor].
        -- rewrite removelast_last. exact Hd.
      * simpl. apply IH; assumption.
    + simpl.
      destruct (negb (bool_decide (R ++ T0 = [])) && String.eqb e ".."
                && cancellable (List.last (R ++ T0) "")) eqn:Ec.
      * apply andb_true_iff in Ec. destruct Ec as [_ Ec].
        assert (HT0ne : T0 ≠ []).
        { intros ->. rewrite app_nil_r, (root_last R HR) in Ec. discriminate. }
        rewrite removelast_app by exact HT0ne.
        assert (Hb : bool_decide (R ++ removelast T0 = []) = false).
        { apply bool_decide_eq_false. intros H. apply app_eq_nil in H.
          destruct H as [H _]. exact (root_nonempty R HR H). }
        rewrite Hb. simpl. apply IH; [|  |assumption].
        -- apply Forall_removelast. exact HT0.
        -- intros H. apply Hd, elem_of_removelast, H.
      * rewrite <- app_assoc. apply IH; [| |assumption].
        -- apply Forall_app. split; [assumption|]. constructor; [assumption | constructor].
        -- intros H. apply elem_of_app in H. destruct H as [H|H]; [exact (Hd H)|].
           apply list_elem_of_singleton in H. subst e. discriminate.
Qed.

(** Below a root, [normal_elements] keeps the root and leaves no dot
    but a last one. *)
Lemma normal_elements_rooted (R N : list string) :
  root R → Forall name N →
  ∃ T, normal_elements (R ++ N) = R ++ T ∧ Forall name T ∧ "." ∉ removelast T.
Proof.
  intros HR HN.
  assert (Hstart : normal_loop true [] (R ++ N) = normal_loop false (R ++ []) N).
  { destruct HR as [|r Hr].
    - reflexivity.
    - simpl. rewrite (net_name_not_dot r Hr). reflexivity. }
  destruct (normal_loop_rooted R [] N HR (List.Forall_nil _)) as (T & HT & HTn & HTd);
    [intros H; inversion H | exact HN |].
  exists T. split; [|auto].
  unfold normal_elements. rewrite Hstart, HT.
  destruct (R ++ T) eqn:Enil; [|reflexivity].
  apply app_eq_nil in Enil. destruct Enil as [Enil _].
  destruct (root_nonempty R HR Enil).
Qed.

(** The four shapes [normal_elements] produces. *)
Lemma normal_elements_cases (E : list string) :
  wf E →
  (∃ R N T, E = R ++ N ∧ normal_elements E = R ++ T ∧ root R
            ∧ Forall name T ∧ "." ∉ removelast T)
  ∨ normal_elements E = ["//"]
  ∨ (∃ r, net_name r ∧ normal_elements E = [r])
  ∨ Forall name (normal_elements E).
Proof.
  intros [|N HN|r Hr|R N HR HN].
  - right. left. reflexivity.
  - right. right. right. unfold normal_elements.
    pose proof (normal_loop_names true [] N (List.Forall_nil _) HN) as H.
    destruct (normal_loop true [] N); [|exact H].
    constructor; [apply name_dot | constructor].
  - right. right. left. exists r. split; [exact Hr|].
    unfold normal_elements. simpl. rewrite (net_name_not_dot r Hr). reflexivity.
  - left. destruct (normal_elements_rooted R N HR HN) as (T & HT & HTn & HTd).
    exists R, N, T. auto.
Qed.

(** A root followed by names without [".."], of which only the last may
    be a dot, is normal. *)
Lemma normal_elements_fixed (R T : list string) :
  root R → ".." ∉ T → "." ∉ removelast T → normal_elements (R ++ T) = R ++ T.
Proof.
  intros HR Hdd Hd.
  assert (Hroot : ∀ x, x ∈ R → x ≠ "." ∧ x ≠ "..").
  { intros x Hx. destruct HR as [|r Hr].
    - apply list_elem_of_singleton in Hx. subst x. split; discriminate.
    - apply elem_of_cons in Hx. destruct Hx as [->|Hx].
      + destruct (net_name_text r Hr) as (c & net' & -> & _). split; discriminate.
      + apply list_elem_of_singleton in Hx. subst x. split; discriminate. }
  unfold normal_elements. rewrite normal_loop_keeps.
  - simpl. destruct (R ++ T) eqn:E; [|reflexivity].
    apply app_eq_nil in E. destruct E as [E _]. destruct (root_nonempty R HR E).
  - intros H. apply elem_of_app in H. destruct H as [H|H]; [|exact (Hdd H)].
    destruct (Hroot _ H) as [_ Hx]. apply Hx. reflexivity.
  - destruct T as [|x T'].
    + rewrite app_nil_r. intros H. apply elem_of_removelast in H.
      destruct (Hroot _ H) as [Hx _]. apply Hx. reflexivity.
    + rewrite removelast_app by discriminate.
      intros H. apply elem_of_app in H. destruct H as [H|H]; [|exact (Hd H)].
      destruct (Hroot _ H) as [Hx _]. apply Hx. reflexivity.
Qed.

Lemma normal_elements_wf (E : list string) : wf E → wf (normal_elements E).
Proof.
  intros H. destruct (normal_elements_cases E H)
    as [(R & N & T & _ & -> & HR & HT & _)|[->|[(r & Hr & ->)|HN]]].
  - apply wf_rooted; assumption.
  - apply wf_slashes.
  - apply wf_net. exact Hr.
  - apply wf_relative. exact HN.
Qed.

End LexicalFacts.

(** ** Normalisation *)

Module NormalizeFacts.
Import Boost Shape PathFacts LexicalFacts FileReader Cut.

(** *** Paths below a root *)

Section Rooted.
Variables (R T : list string).
Hypothesis HR : root R.
Hypothesis HT : Forall name T.

Lemma elements_rooted : elements (compose (R ++ T)) = R ++ T.
Proof. apply elements_compose, wf_rooted; assumption. Qed.

Lemma root_name_rooted :
  root_name (compose (R ++ T)) = match R with [r; _] => r | _ => "" end.
Proof.
  unfold root_name. rewrite elements_rooted.
  destruct HR as [|r Hr]; [reflexivity|].
  destruct (net_name_text r Hr) as (c & net' & -> & _). reflexivity.
Qed.

Lemma has_root_directory_rooted : has_root_directory (compose (R ++ T)) = true.
Proof.
  unfold has_root_directory. rewrite elements_rooted.
  destruct HR as [|r Hr]; [reflexivity|].
  destruct (net_name_text r Hr) as (c & net' & -> & _). reflexivity.
Qed.

Lemma root_path_rooted : root_path (compose (R ++ T)) = compose R.
Proof.
  unfold root_path, root_directory.
  rewrite root_name_rooted, has_root_directory_rooted.
  destruct HR as [|r Hr]; [reflexivity|].
  destruct (net_name_text r Hr) as (c & net' & -> & _). reflexivity.
Qed.

Lemma skip_separators_join : skip_separators (join T) = join T.
Proof.
  destruct T as [|x N]; [reflexivity|].
  inversion HT as [|? ? Hx _]; subst.
  destruct (join_cons_name x N Hx) as (c & s & -> & Hc).
  simpl. rewrite Hc. reflexivity.
Qed.

Lemma relative_path_rooted : relative_path (compose (R ++ T)) = join T.
Proof.
  unfold relative_path. rewrite root_name_rooted.
  rewrite compose_rooted by assumption.
  destruct HR as [|r Hr].
  - simpl. exact skip_separators_join.
  - destruct (net_name_text r Hr) as (c & net' & -> & Hc & Hs).
    rewrite (compose_root_net _ []) by (assumption || constructor).
    change (nonempty (String "/" (String "/" (String c net')))) with true.
    cbv iota.
    change (erase_front 2
              ((String "/" (String "/" (String c net')) +:+ "/" +:+ join [])
               +:+ join T))
      with (String c ((net' +:+ "/" +:+ "") +:+ join T)).
    cbn [drop_name]. rewrite Hc.
    replace ((net' +:+ "/" +:+ "") +:+ join T) with (net' +:+ String "/" (join T)).
    + rewrite (drop_name_app net' _ Hs). simpl. exact skip_separators_join.
    + rewrite append_assoc. reflexivity.
Qed.

Lemma append_root_join : append (compose R) (join T) = compose (R ++ T).
Proof.
  rewrite compose_rooted by assumption.
  destruct T as [|x N]; [simpl; by rewrite append_empty_r|].
  inversion HT as [|? ? Hx _]; subst.
  destruct (join_cons_name x N Hx) as (c & s & -> & Hc).
  unfold append. rewrite Hc.
  assert (He : ends_with_separator (compose R) = true).
  { destruct HR as [|r Hr]; [reflexivity|].
    rewrite (compose_root_net r []) by (assumption || constructor).
    simpl join. rewrite <- append_assoc, append_empty_r.
    apply ends_with_separator_snoc. }
  rewrite He, andb_false_r. reflexivity.
Qed.

End Rooted.

Lemma isUNCPath_net (r : string) (T : list string) :
  net_name r → Forall name T → isUNCPath (compose ([r; "/"] ++ T)) = true.
Proof.
  intros Hr HT. unfold isUNCPath.
  rewrite root_name_rooted by (assumption || by constructor).
  destruct (net_name_text r Hr) as (c & net' & -> & Hc & _).
  unfold isUNCRootName. simpl. unfold is_directory_separator in Hc.
  rewrite Hc. reflexivity.
Qed.

(** The root the result gets: on POSIX the root of the path itself. *)
Lemma normalizedRootPath_rooted (R T : list string) (canonicalWorkDir : path) :
  root R → Forall name T →
  (if negb (isUNCPath (compose (R ++ T))) then
     if path_eqb (root_path (compose (R ++ T))) (root_path canonicalWorkDir)
     then "/" else root_path (compose (R ++ T))
   else root_path (compose (R ++ T))) = compose R.
Proof.
  intros HR HT. rewrite root_path_rooted by assumption. destruct HR as [|r Hr].
  - destruct (negb _); [destruct (path_eqb _ _)|]; reflexivity.
  - rewrite isUNCPath_net by assumption. reflexivity.
Qed.


Lemma elements_name (x : string) : name x → elements x = [x].
Proof.
  intros Hx. apply (elements_join [x]). constructor; [exact Hx | constructor].
Qed.

Lemma filename_is_dot_dot_name (x : string) :
  name x → filename_is_dot_dot x = is_dot_dot x.
Proof.
  intros Hx. unfold filename_is_dot_dot, filename.
  rewrite (elements_name x Hx). reflexivity.
Qed.

Lemma filename_is_dot_dot_root (R : list string) :
  root R → existsb filename_is_dot_dot R = false.
Proof.
  intros [|r Hr]; [reflexivity|].
  simpl. unfold filename_is_dot_dot at 1. unfold filename.
  rewrite (elements_net r Hr).
  destruct (net_name_text r Hr) as (c & net' & -> & _). reflexivity.
Qed.

Lemma existsb_dot_dot_names (T : list string) :
  Forall name T → existsb filename_is_dot_dot T = existsb is_dot_dot T.
Proof.
  induction 1 as [|x T Hx _ IH]; [reflexivity|].
  simpl. rewrite IH, (filename_is_dot_dot_name x Hx). reflexivity.
Qed.

Lemma hasDotDotSegments_rooted (R T : list string) :
  root R → Forall name T →
  hasDotDotSegments (compose (R ++ T)) = existsb is_dot_dot T.
Proof.
  intros HR HT. unfold hasDotDotSegments.
  rewrite elements_rooted by assumption.
  rewrite existsb_app, (filename_is_dot_dot_root R HR). simpl.
  apply existsb_dot_dot_names. exact HT.
Qed.

Lemma existsb_dot_dot_false (T : list string) :
  existsb is_dot_dot T = false ↔ ".." ∉ T.
Proof.
  split.
  - intros H Hin. apply not_true_iff_false in H. apply H.
    apply existsb_exists. exists "..". split; [by apply list_elem_of_In | reflexivity].
  - intros H. apply not_true_iff_false. intros He.
    apply existsb_exists in He. destruct He as (x & Hx & Hd).
    apply String.eqb_eq in Hd. subst x. apply H. by apply list_elem_of_In.
Qed.

Lemma filter_dot_dot_nil (T : list string) :
  List.filter is_dot_dot T = [] ↔ ".." ∉ T.
Proof.
  split.
  - intros H Hin. apply list_elem_of_In in Hin.
    assert (Hf : In ".." (List.filter is_dot_dot T)).
    { apply filter_In. split; [exact Hin | reflexivity]. }
    rewrite H in Hf. destruct Hf.
  - intros H. destruct (List.filter is_dot_dot T) as [|x l] eqn:E; [reflexivity|].
    assert (Hx : In x (List.filter is_dot_dot T)) by (rewrite E; left; reflexivity).
    apply filter_In in Hx. destruct Hx as [Hx Hd].
    apply String.eqb_eq in Hd. subst x. destruct H. by apply list_elem_of_In.
Qed.

Lemma filter_dot_dot_all (T : list string) :
  Forall (λ x, is_dot_dot x = true) (List.filter is_dot_dot T).
Proof.
  apply Forall_forall. intros x Hx. apply list_elem_of_In, filter_In in Hx. tauto.
Qed.

Lemma filter_dot_dot_names (T : list string) :
  Forall name T → Forall name (List.filter is_dot_dot T).
Proof.
  rewrite !Forall_forall. intros H x Hx. apply list_elem_of_In, filter_In in Hx.
  apply H, list_elem_of_In. tauto.
Qed.

Lemma fold_dot_dot (T : list string) (acc : path) :
  Forall name T →
  fold_left (λ prefix segment,
               if filename_is_dot_dot segment then append prefix segment
               else prefix) T acc
  = fold_left append (List.filter is_dot_dot T) acc.
Proof.
  intros HT. revert acc. induction HT as [|x T Hx _ IH]; intros acc; [reflexivity|].
  simpl. rewrite (filename_is_dot_dot_name x Hx).
  destruct (is_dot_dot x); simpl; apply IH.
Qed.

Lemma absoluteDotDotPrefix_rooted (R T : list string) :
  root R → Forall name T →
  absoluteDotDotPrefix (compose (R ++ T))
  = Ok (compose (List.filter is_dot_dot T)).
Proof.
  intros HR HT. unfold absoluteDotDotPrefix, is_absolute.
  rewrite has_root_directory_rooted by assumption. simpl.
  rewrite relative_path_rooted by assumption.
  rewrite (elements_join T HT). rewrite fold_dot_dot by exact HT. reflexivity.
Qed.

Lemma empty_compose_names (N : list string) :
  Forall name N → empty (compose N) = bool_decide (N = []).
Proof.
  intros HN. destruct N as [|x N]; [reflexivity|].
  rewrite compose_names by exact HN.
  inversion HN as [|? ? Hx _]; subst.
  destruct (join_cons_name x N Hx) as (c & s & -> & _). reflexivity.
Qed.

(** What is left of a path below the root and its [".."] elements. *)
Lemma relative_to_dot_dots (R T : list string) :
  root R → Forall name T → "." ∉ removelast T →
  List.filter is_dot_dot T ≠ [] →
  ∃ T',
    append (compose R)
      (lexically_relative (compose (R ++ T))
         (append (compose R) (compose (List.filter is_dot_dot T))))
    = compose (R ++ T')
    ∧ Forall name T' ∧ (".." ∉ T') ∧ ("." ∉ removelast T').
Proof.
  intros HR HT Hdot Hdd.
  pose proof (filter_dot_dot_all T) as Hall.
  remember (List.filter is_dot_dot T) as DD eqn:EDD.
  assert (HDD : Forall name DD) by (subst DD; apply filter_dot_dot_names; exact HT).
  rewrite (compose_names DD HDD), (append_root_join R DD HR HDD).
  unfold lexically_relative.
  rewrite !elements_rooted by assumption.
  rewrite mismatch_app.
  destruct (mismatch T DD) as [rp rb] eqn:Em.
  destruct (mismatch_common T DD) as (common & HTc & HDc).
  rewrite Em in HTc, HDc. simpl in HTc, HDc.
  assert (Hfirst : bool_decide (rp = R ++ T) = false).
  { apply bool_decide_eq_false. intros E. apply (f_equal length) in E.
    rewrite HTc, !length_app in E.
    pose proof (root_nonempty R HR) as Hne. destruct R; [done|]. simpl in E. lia. }
  rewrite Hfirst. cbn [andb].
  assert (Hrb : Forall (λ x, is_dot_dot x = true) rb).
  { rewrite HDc in Hall. apply Forall_app in Hall. tauto. }
  destruct rb as [|b rb].
  - rewrite app_nil_r in HDc. subst common.
    assert (Hrp : ".." ∉ rp).
    { apply filter_dot_dot_nil.
      assert (E : List.filter is_dot_dot T = DD) by (symmetry; exact EDD).
      rewrite HTc, List.filter_app in E.
      rewrite (forallb_filter_id is_dot_dot DD) in E.
      - apply (f_equal length) in E. rewrite length_app in E.
        destruct (List.filter is_dot_dot rp); [reflexivity | simpl in E; lia].
      - apply forallb_forall. intros x Hx. rewrite Forall_forall in Hall.
        apply Hall. by apply list_elem_of_In. }
    assert (Hrpn : Forall name rp).
    { rewrite HTc in HT. apply Forall_app in HT. tauto. }
    destruct rp as [|e rp].
    + simpl. exists ["."].
      rewrite <- (append_root_join R ["."] HR)
        by (constructor; [apply name_dot | constructor]).
      split; [reflexivity|]. split; [constructor; [apply name_dot | constructor]|].
      split; [|simpl; apply not_elem_of_nil].
      intros H. apply list_elem_of_singleton in H. discriminate.
    + inversion Hrpn as [|? ? He _]; subst.
      simpl. rewrite (name_not_empty e He). simpl.
      change (fold_left append rp (append "" e)) with (compose (e :: rp)).
      rewrite (compose_names (e :: rp) Hrpn).
      rewrite (append_root_join R (e :: rp) HR Hrpn).
      exists (e :: rp). split; [reflexivity|]. split; [exact Hrpn|].
      split; [exact Hrp|].
      intros H. apply Hdot. rewrite HTc, removelast_app by done.
      apply elem_of_app. right. exact H.
  - assert (Hneg : (base_depth (b :: rb) 0 <? 0)%Z = true).
    { rewrite (base_depth_dot_dots _ 0 Hrb). simpl length. apply Z.ltb_lt. lia. }
    rewrite andb_false_r. cbv zeta. rewrite Hneg.
    exists []. rewrite app_nil_r. split; [reflexivity|].
    split; [constructor|]. split; apply not_elem_of_nil.
Qed.

Lemma empty_rooted (R T : list string) :
  root R → Forall name T → empty (compose (R ++ T)) = false.
Proof.
  intros HR HT. rewrite compose_rooted by assumption.
  destruct HR as [|r Hr]; [reflexivity|].
  destruct (net_name_text r Hr) as (c & net' & -> & _). reflexivity.
Qed.

Lemma lexically_normal_fixed (R T : list string) :
  root R → Forall name T → ".." ∉ T → "." ∉ removelast T →
  lexically_normal (compose (R ++ T)) = compose (R ++ T).
Proof.
  intros HR HT Hdd Hd. unfold lexically_normal.
  rewrite empty_rooted, elements_rooted by assumption.
  rewrite normal_elements_fixed by assumption. reflexivity.
Qed.

Lemma path_eqb_root_dot (R T : list string) :
  root R → Forall name T →
  path_eqb (compose (R ++ T)) "/." = bool_decide (R ++ T = ["/"; "."]).
Proof.
  intros HR HT. unfold path_eqb. rewrite elements_rooted by assumption.
  reflexivity.
Qed.

(** *** The last part of the normalisation *)

(** From a path below a root, whose dots other than a last one are
    gone, the last part of the normalisation removes the [".."]
    elements and nothing else (but the dot of ["/."]). *)
Lemma portableForm_rooted (cwd : path) (R T : list string) :
  root R → Forall name T → "." ∉ removelast T →
  ∃ T',
    portableForm cwd (compose (R ++ T))
    = Ok (if bool_decide (R ++ T' = ["/"; "."]) then "/" else compose (R ++ T'))
    ∧ Forall name T' ∧ (".." ∉ T') ∧ ("." ∉ removelast T')
    ∧ (".." ∉ T → T' = T).
Proof.
  intros HR HT Hdot. unfold portableForm, is_absolute.
  rewrite has_root_directory_rooted by assumption.
  cbn [orb solAssert mbind result_bind]. cbv zeta.
  rewrite normalizedRootPath_rooted by assumption.
  rewrite absoluteDotDotPrefix_rooted by assumption.
  cbn [mbind result_bind].
  rewrite empty_compose_names by (apply filter_dot_dot_names; exact HT).
  rewrite root_path_rooted, relative_path_rooted by assumption.
  unfold generic_string.
  destruct (List.filter is_dot_dot T) as [|d DD] eqn:EDD.
  - rewrite bool_decide_eq_true_2 by reflexivity.
    apply filter_dot_dot_nil in EDD.
    rewrite append_root_join by assumption.
    rewrite hasDotDotSegments_rooted by assumption.
    rewrite (proj2 (existsb_dot_dot_false T) EDD).
    cbn [negb solAssert mbind result_bind].
    rewrite path_eqb_root_dot by assumption.
    exists T. split; [destruct (bool_decide _); reflexivity|]. auto.
  - rewrite bool_decide_eq_false_2 by discriminate.
    rewrite <- EDD.
    destruct (relative_to_dot_dots R T HR HT Hdot) as (T' & E & HT' & Hdd' & Hdot');
      [rewrite EDD; discriminate|].
    rewrite E.
    rewrite hasDotDotSegments_rooted by assumption.
    rewrite (proj2 (existsb_dot_dot_false T') Hdd').
    cbn [negb solAssert mbind result_bind].
    rewrite path_eqb_root_dot by assumption.
    exists T'. split; [destruct (bool_decide _); reflexivity|].
    split; [assumption|]. split; [assumption|]. split; [assumption|].
    intros Hno. apply filter_dot_dot_nil in Hno. rewrite Hno in EDD. discriminate.
Qed.

(** Without a root directory the first assertion fails. *)
Lemma portableForm_unrooted (cwd : path) (M : list string) :
  M = ["//"] ∨ (∃ r, net_name r ∧ M = [r]) ∨ Forall name M →
  portableForm cwd (compose M) = Throw (InternalCompilerError "").
Proof.
  intros H.
  assert (Ha : is_absolute (compose M) || path_eqb (root_path (compose M)) "/"
               = false).
  { destruct H as [->|[(r & Hr & ->)|HN]].
    - reflexivity.
    - rewrite compose_net by exact Hr.
      assert (Hrn : root_name r = r).
      { unfold root_name. rewrite (elements_net r Hr).
        destruct (net_name_text r Hr) as (c & net' & -> & _). reflexivity. }
      assert (Hrd : has_root_directory r = false).
      { unfold has_root_directory. rewrite (elements_net r Hr).
        destruct (net_name_text r Hr) as (c & net' & -> & _). reflexivity. }
      unfold is_absolute, root_path, root_directory. rewrite Hrd, Hrn.
      unfold append, path_eqb. rewrite (elements_net r Hr).
      apply bool_decide_eq_false. intros E. injection E as ->.
      destruct (net_name_text "/" Hr) as (c & net' & E & _). discriminate.
    - rewrite compose_names by exact HN.
      unfold is_absolute, has_root_directory, root_path, root_directory,
        has_root_directory, root_name, path_eqb.
      rewrite (elements_join M HN).
      destruct HN as [|x N Hx HN]; [reflexivity|].
      rewrite (name_not_slash x Hx), (name_not_root_name x Hx). reflexivity. }
  unfold portableForm. rewrite Ha. reflexivity.
Qed.

(** *** The lexical normalisation always returns *)

Lemma append_extends (p q : path) : ∃ s, append p q = p +:+ s.
Proof.
  unfold append. destruct q as [|c q]; [exists ""; by rewrite append_empty_r|].
  destruct (is_directory_separator c); [eauto|].
  destruct (nonempty p && negb (ends_with_separator p)); eauto.
Qed.

Lemma rooted_of_has_root_directory (t : path) :
  has_root_directory t = true →
  ∃ R N, elements t = R ++ N ∧ root R ∧ Forall name N.
Proof.
  intros H. unfold has_root_directory in H.
  destruct (elements_wf t) as [|N HN|r Hr|R N HR HN].
  - discriminate.
  - destruct HN as [|x N Hx HN]; [discriminate|].
    rewrite (name_not_slash x Hx), (name_not_root_name x Hx) in H. discriminate.
  - destruct (net_name_text r Hr) as (c & net' & -> & _). discriminate.
  - eauto.
Qed.

Lemma root_name_cases (p : path) :
  root_name p = "" ∨ root_name p = "//" ∨ net_name (root_name p).
Proof.
  unfold root_name.
  destruct (elements_wf p) as [|N HN|r Hr|R N HR HN].
  - right. left. reflexivity.
  - destruct HN as [|x N Hx HN]; [left; reflexivity|].
    rewrite (name_not_root_name x Hx). left. reflexivity.
  - destruct (net_name_text r Hr) as (c & net' & E & _).
    right. right. rewrite E in *. exact Hr.
  - destruct HR as [|r Hr]; [left; reflexivity|].
    destruct (net_name_text r Hr) as (c & net' & E & _).
    right. right. rewrite E in *. exact Hr.
Qed.

Lemma has_root_directory_net_slash (r s : string) :
  net_name r → has_root_directory (r +:+ String "/" s) = true.
Proof.
  intros Hr. destruct (net_name_text r Hr) as (c & net' & -> & Hc & Hs).
  change (String "/" (String "/" (String c net')) +:+ String "/" s)
    with (String "/" (String "/" (String c (net' +:+ String "/" s)))).
  unfold has_root_directory. rewrite elements_net_text by exact Hc.
  rewrite (drop_name_app net' s Hs). reflexivity.
Qed.

Lemma posix_absolute_text (cwd : path) :
  posix_absolute cwd →
  cwd = "/"
  ∨ (∃ c s, cwd = String "/" (String c s) ∧ is_directory_separator c = false)
  ∨ (∃ s, cwd = String "/" (String "/" (String "/" s))).
Proof.
  intros [N HN]. destruct cwd as [|c1 s1]; [discriminate|].
  unfold elements in HN.
  destruct (is_directory_separator c1) eqn:H1.
  - apply Ascii.eqb_eq in H1. subst c1.
    destruct s1 as [|c2 s2]; [left; reflexivity|].
    destruct (is_directory_separator c2) eqn:H2; [|right; left; eauto].
    apply Ascii.eqb_eq in H2. subst c2.
    destruct s2 as [|c3 s3]; [discriminate|].
    destruct (is_directory_separator c3) eqn:H3.
    + apply Ascii.eqb_eq in H3. subst c3. right. right. eauto.
    + cbv zeta in HN. destruct (drop_name (String c3 s3)); discriminate.
  - pose proof (body_all_names _ (split_all_sep_free (String c1 s1))) as Hb.
    rewrite HN in Hb. inversion Hb as [|? ? [_ Hx] _]. discriminate.
Qed.

Lemma has_root_directory_posix (cwd : path) :
  posix_absolute cwd → has_root_directory cwd = true.
Proof. intros [N HN]. unfold has_root_directory. rewrite HN. reflexivity. Qed.

Lemma root_name_posix (cwd : path) : posix_absolute cwd → root_name cwd = "".
Proof. intros [N HN]. unfold root_name. rewrite HN. reflexivity. Qed.

Lemma has_root_directory_posix_append (cwd : path) (c : ascii) (s : string) :
  posix_absolute cwd → is_directory_separator c = false →
  has_root_directory (append cwd (String c s)) = true.
Proof.
  intros Hcwd Hc. unfold append. rewrite Hc.
  destruct (posix_absolute_text cwd Hcwd) as [->|[(c2 & s2 & -> & H2)|(s3 & ->)]].
  - simpl. unfold has_root_directory.
    rewrite elements_root_text by exact Hc. reflexivity.
  - destruct (nonempty _ && negb _); simpl; unfold has_root_directory;
      rewrite elements_root_text by exact H2; reflexivity.
  - destruct (nonempty _ && negb _); reflexivity.
Qed.

(** A relative path: not empty, without root name or root directory. *)
Lemma relative_text (p : path) :
  empty p = false → nonempty (root_name p) = false →
  has_root_directory p = false →
  ∃ c s, p = String c s ∧ is_directory_separator c = false.
Proof.
  intros He Hrn Hrd. destruct p as [|c1 s1]; [discriminate|].
  destruct (is_directory_separator c1) eqn:H1; [|eauto].
  exfalso. apply Ascii.eqb_eq in H1. subst c1.
  unfold root_name in Hrn. unfold has_root_directory in Hrd.
  destruct s1 as [|c2 s2]; [discriminate|].
  destruct (is_directory_separator c2) eqn:H2.
  - apply Ascii.eqb_eq in H2. subst c2.
    destruct s2 as [|c3 s3]; [discriminate|].
    destruct (is_directory_separator c3) eqn:H3.
    + apply Ascii.eqb_eq in H3. subst c3. discriminate.
    + rewrite elements_net_text in Hrn by exact H3.
      destruct (drop_name s3); discriminate.
  - rewrite elements_root_text in Hrd by exact H2. discriminate.
Qed.

Lemma has_root_directory_absolute (cwd p : path) :
  posix_absolute cwd → has_root_directory (absolute p cwd) = true.
Proof.
  intros Hcwd. unfold absolute.
  destruct (empty p) eqn:He; [exact (has_root_directory_posix cwd Hcwd)|].
  unfold root_directory at 1 3. unfold root_directory.
  rewrite (has_root_directory_posix cwd Hcwd), (root_name_posix cwd Hcwd).
  destruct (nonempty (root_name p)) eqn:Hrn.
  - destruct (has_root_directory p) eqn:Hrd; [exact Hrd|].
    cbn [empty String.eqb].
    assert (E1 : append (root_name p) "/" = root_name p +:+ "/") by reflexivity.
    rewrite E1.
    destruct (append_extends (root_name p +:+ "/") (relative_path cwd)) as (s1 & ->).
    destruct (append_extends ((root_name p +:+ "/") +:+ s1) (relative_path p))
      as (s2 & ->).
    rewrite !append_assoc.
    change ("/" +:+ s1 +:+ s2) with (String "/" (s1 +:+ s2)).
    destruct (root_name_cases p) as [E|[E|Hr]].
    + rewrite E in Hrn. discriminate.
    + rewrite E. reflexivity.
    + apply has_root_directory_net_slash. exact Hr.
  - destruct (has_root_directory p) eqn:Hrd; [exact Hrd|].
    cbn [nonempty empty String.eqb negb].
    destruct (relative_text p He Hrn Hrd) as (c & s & -> & Hc).
    apply has_root_directory_posix_append; assumption.
Qed.


Section WithFileSystem.
Variable fs : FileSystem.

Lemma normalize_unfold (p : path) (resolveSymlinks : bool) :
  normalizeCLIPathForVFS fs p resolveSymlinks
  = (cur ← current_path fs;
     canonicalWorkDir ← weakly_canonical fs cur;
     absolutePath ← fs_absolute fs p canonicalWorkDir;
     normalizedPath ←
       (if resolveSymlinks then
          normalizedPath ← weakly_canonical fs absolutePath;
          if (path_eqb p "." || path_eqb p "./" || path_eqb p "../")
             && negb (ends_with_separator (generic_string normalizedPath))
          then Ok (append (parent_path normalizedPath)
                          (filename normalizedPath +:+ "/"))
          else Ok normalizedPath
        else Ok (lexically_normal absolutePath));
     portableForm canonicalWorkDir normalizedPath).
Proof. reflexivity. Qed.

(** The result of a lexical normalisation is composed of a clean
    sequence of elements. *)
Lemma normalize_lexical_clean (p q : path) :
  normalizeCLIPathForVFS fs p false = Ok q → ∃ L, clean L ∧ q = compose L.
Proof.
  rewrite normalize_unfold. intros H.
  bind_inv H. bind_inv H. bind_inv H. bind_inv H.
  injection Ha2 as <-.
  assert (Hshape :
            (∃ R T, lexically_normal a1 = compose (R ++ T) ∧ root R
                    ∧ Forall name T ∧ "." ∉ removelast T)
            ∨ ∃ M, lexically_normal a1 = compose M
                   ∧ (M = ["//"] ∨ (∃ r, net_name r ∧ M = [r]) ∨ Forall name M)).
  { unfold lexically_normal. destruct (empty a1) eqn:Ee.
    - apply String.eqb_eq in Ee. subst a1. right. exists []. split; [reflexivity|].
      right. right. constructor.
    - destruct (normal_elements_cases (elements a1) (elements_wf a1))
        as [(R & N & T & _ & -> & HR & HT & Hd)|[->|[(r & Hr & ->)|HN]]].
      + left. exists R, T. auto.
      + right. exists ["//"]. auto.
      + right. exists [r]. split; [reflexivity|]. right. left. eauto.
      + right. exists (normal_elements (elements a1)). auto. }
  destruct Hshape as [(R & T & E & HR & HT & Hd)|(M & E & HM)].
  - rewrite E in H.
    destruct (portableForm_rooted a0 R T HR HT Hd) as (T' & Hp & HT' & Hdd' & Hd' & _).
    rewrite Hp in H. injection H as <-.
    destruct (bool_decide (R ++ T' = ["/"; "."])) eqn:Eb.
    + exists (["/"] ++ []). split; [|reflexivity].
      constructor; [constructor | constructor | apply not_elem_of_nil
                   | apply not_elem_of_nil | discriminate].
    + exists (R ++ T'). split; [|reflexivity].
      apply bool_decide_eq_false in Eb. by constructor.
  - rewrite E, (portableForm_unrooted a0 M HM) in H. discriminate.
Qed.

(** A path composed of a clean sequence of elements is left as it is. *)
Lemma normalize_lexical_fixed (cur cwd : path) (L : list string) :
  current_path fs = Ok cur → weakly_canonical fs cur = Ok cwd →
  posix_absolute cwd → clean L →
  normalizeCLIPathForVFS fs (compose L) false = Ok (compose L).
Proof.
  intros Hcur Hcwd [N HN] HL. destruct HL as [R T HR HT Hdd Hd Hnd].
  rewrite normalize_unfold, Hcur. cbn [mbind result_bind]. rewrite Hcwd.
  cbn [mbind result_bind].
  assert (Habs : fs_absolute fs (compose (R ++ T)) cwd = Ok (compose (R ++ T))).
  { unfold fs_absolute, is_absolute, has_root_directory. rewrite HN.
    cbn [String.eqb Ascii.eqb Bool.eqb andb]. f_equal.
    unfold absolute.
    rewrite empty_rooted by assumption. unfold root_directory.
    rewrite has_root_directory_rooted, root_name_rooted by assumption.
    destruct HR as [|r Hr].
    - cbn [nonempty String.eqb negb empty]. unfold root_name. rewrite HN. reflexivity.
    - destruct (net_name_text r Hr) as (c & net' & -> & _). reflexivity. }
  rewrite Habs. cbn [mbind result_bind].
  assert (Hne : empty (compose (R ++ T)) = false)
    by (apply empty_rooted; assumption).
  pose proof (lexically_normal_fixed R T HR HT Hdd Hd) as Hln.
  rewrite Hln.
  destruct (portableForm_rooted cwd R T HR HT Hd) as (T' & Hp & _ & _ & _ & Hsame).
  rewrite (Hsame Hdd) in Hp. rewrite Hp.
  rewrite bool_decide_eq_false_2 by exact Hnd. reflexivity.
Qed.



End WithFileSystem.

Section Total.
Variable fs : FileSystem.

(** In a POSIX working directory the lexical normalisation returns a
    path for every input: none of its assertions fails. *)
Lemma normalize_lexical_total (cur cwd p : path) :
  current_path fs = Ok cur → weakly_canonical fs cur = Ok cwd →
  posix_absolute cwd →
  ∃ q, normalizeCLIPathForVFS fs p false = Ok q.
Proof.
  intros Hcur Hcwd Hposix.
  rewrite normalize_unfold, Hcur. cbn [mbind result_bind].
  rewrite Hcwd. cbn [mbind result_bind].
  unfold fs_absolute, is_absolute.
  rewrite (has_root_directory_posix cwd Hposix). cbn [mbind result_bind].
  pose proof (has_root_directory_absolute cwd p Hposix) as Habs.
  destruct (rooted_of_has_root_directory _ Habs) as (R & N & E & HR & HN).
  assert (Hne : empty (absolute p cwd) = false).
  { destruct (absolute p cwd); [discriminate | reflexivity]. }
  destruct (normal_elements_rooted R N HR HN) as (T & HT & HTn & HTd).
  assert (Hln : lexically_normal (absolute p cwd) = compose (R ++ T)).
  { unfold lexically_normal. rewrite Hne, E, HT. reflexivity. }
  rewrite Hln.
  destruct (portableForm_rooted cwd R T HR HTn HTd) as (T' & Hp & _).
  rewrite Hp. eauto.
Qed.

End Total.

Lemma hasDotDotSegments_elem (q : path) :
  hasDotDotSegments q = false → ".." ∉ elements q.
Proof.
  unfold hasDotDotSegments. intros H Hin.
  apply not_true_iff_false in H. apply H.
  apply existsb_exists. exists "..". split; [by apply list_elem_of_In | reflexivity].
Qed.


Lemma clean_wf (L : list string) : clean L → wf L.
Proof. intros [R T HR HT _ _ _]. by apply wf_rooted. Qed.

End NormalizeFacts.

(** ** The prefix guard *)

Module PrefixFacts.
Import Boost Shape PathFacts LexicalFacts NormalizeFacts FileReader Cut.

(** [isPathPrefix] runs its comparison exactly when both arguments
    pass the assertions. *)
Lemma isPathPrefix_guarded (a b : path) :
  isPathPrefix a b
  = if guarded a && guarded b
    then Ok (negb (empty (lexically_relative b (prefixBase a)))
             && negb (path_eqb
                        (List.hd "" (elements (lexically_relative b (prefixBase a))))
                        ".."))
    else Throw (InternalCompilerError "").
Proof.
  unfold isPathPrefix, guarded, solAssert.
  destruct (empty a), (empty b),
    (is_absolute a || isUNCPath a || path_eqb (root_path a) "/"),
    (is_absolute b || isUNCPath b || path_eqb (root_path b) "/"),
    (path_eqb a (lexically_normal a)), (path_eqb b (lexically_normal b)),
    (hasDotDotSegments a), (hasDotDotSegments b); reflexivity.
Qed.

Lemma split_head (c : ascii) (s : string) :
  is_directory_separator c = false → ∃ h t, split (String c s) = String c h :: t.
Proof.
  intros Hc. simpl. rewrite Hc. destruct (split s); eauto.
Qed.

Lemma body_split_nonempty (c : ascii) (s : string) :
  is_directory_separator c = false → body (split (String c s)) ≠ [].
Proof.
  intros Hc. destruct (split_head c s Hc) as (h & t & ->).
  unfold body. cbn [List.filter nonempty String.eqb negb].
  destruct (String.eqb _ ""); discriminate.
Qed.

Lemma elements_nonempty (p : path) : p ≠ "" → elements p ≠ [].
Proof.
  intros Hp. destruct p as [|c1 s1]; [done|]. unfold elements.
  destruct (is_directory_separator c1) eqn:H1; [|apply body_split_nonempty, H1].
  destruct s1 as [|c2 s2]; [discriminate|].
  destruct (is_directory_separator c2); [|discriminate].
  destruct s2 as [|c3 s3]; [discriminate|].
  destruct (is_directory_separator c3); [discriminate|].
  cbv zeta. destruct (drop_name (String c3 s3)); discriminate.
Qed.

Lemma wf_removelast (L : list string) : wf L → wf (removelast L).
Proof.
  intros [|N HN|r Hr|R N HR HN].
  - apply wf_relative. constructor.
  - apply wf_relative, Forall_removelast, HN.
  - apply wf_relative. constructor.
  - destruct N as [|x N].
    + rewrite app_nil_r. destruct HR as [|r Hr].
      * apply wf_relative. constructor.
      * apply wf_net. exact Hr.
    + rewrite removelast_app by discriminate.
      apply wf_rooted; [exact HR | apply Forall_removelast, HN].
Qed.

Lemma mismatch_same (l : list string) : mismatch l l = ([], []).
Proof.
  rewrite <- (app_nil_r l) at 1 2. rewrite mismatch_app. reflexivity.
Qed.

(** The first element decides about the root. *)
Lemma unrooted_single (x : string) :
  name x →
  ∀ p, elements p = [x] →
       is_absolute p || isUNCPath p || path_eqb (root_path p) "/" = false.
Proof.
  intros Hx p Hp.
  unfold is_absolute, isUNCPath, root_path, root_directory, has_root_directory,
    root_name. rewrite Hp.
  rewrite (name_not_slash x Hx), (name_not_root_name x Hx). reflexivity.
Qed.

(** A guarded path is contained in itself: what is left of it is a dot. *)
Lemma lexically_relative_self (p : path) :
  guarded p = true → lexically_relative p (prefixBase p) = ".".
Proof.
  unfold guarded. intros Hg.
  apply andb_true_iff in Hg. destruct Hg as [Hg _].
  apply andb_true_iff in Hg. destruct Hg as [Hg _].
  apply andb_true_iff in Hg. destruct Hg as [Hne Hroot].
  apply negb_true_iff, String.eqb_neq in Hne.
  pose proof (elements_nonempty p Hne) as HE.
  unfold prefixBase, filename_is_dot, filename.
  destruct (String.eqb (List.last (elements p) "") ".") eqn:Ed.
  - apply String.eqb_eq in Ed.
    pose proof (app_removelast_last "" HE) as Hsplit. rewrite Ed in Hsplit.
    assert (HE' : removelast (elements p) ≠ []).
    { intros Hnil. rewrite Hnil in Hsplit. simpl in Hsplit.
      rewrite (unrooted_single "." name_dot p Hsplit) in Hroot. discriminate. }
    unfold lexically_relative, parent_path.
    rewrite (elements_compose _ (wf_removelast _ (elements_wf p))).
    rewrite Hsplit at 1. rewrite <- (app_nil_r (removelast (elements p))) at 2.
    rewrite mismatch_app. cbn [mismatch].
    assert (Hf : bool_decide (["."] = elements p) = false).
    { apply bool_decide_eq_false. intros E. rewrite <- E in HE'. apply HE'.
      reflexivity. }
    rewrite Hf. reflexivity.
  - unfold lexically_relative. rewrite mismatch_same.
    assert (Hf : bool_decide ([] = elements p) = false).
    { apply bool_decide_eq_false. intros E. apply HE. symmetry. exact E. }
    rewrite Hf. reflexivity.
Qed.

Lemma isPathPrefix_self (p : path) : guarded p = true → isPathPrefix p p = Ok true.
Proof.
  intros Hg. rewrite isPathPrefix_guarded, Hg.
  rewrite (lexically_relative_self p Hg). reflexivity.
Qed.

Lemma last_app_nonempty (l k : list string) (d : string) :
  k ≠ [] → List.last (l ++ k) d = List.last k d.
Proof.
  intros Hk. induction l as [|a l IH]; [reflexivity|].
  simpl. destruct (l ++ k) eqn:E; [|exact IH].
  apply app_eq_nil in E. destruct E as [_ E]. contradiction.
Qed.

Lemma elem_of_removelast_keep (x : string) (l : list string) :
  List.last (x :: l) "" ∈ x :: l.
Proof. apply last_in. discriminate. Qed.

Lemma unrooted_names (p : path) :
  Forall name (elements p) →
  is_absolute p || isUNCPath p || path_eqb (root_path p) "/" = false.
Proof.
  intros HN.
  unfold is_absolute, isUNCPath, root_path, root_directory, has_root_directory,
    root_name.
  destruct HN as [|x N Hx HN]; [reflexivity|].
  rewrite (name_not_slash x Hx), (name_not_root_name x Hx). reflexivity.
Qed.

(** The element sequences of guarded paths. *)
Lemma guarded_cases (p : path) :
  guarded p = true →
  elements p = ["//"]
  ∨ (∃ r, net_name r ∧ elements p = [r])
  ∨ (∃ R T, elements p = R ++ T ∧ root R ∧ Forall name T
            ∧ (".." ∉ T) ∧ ("." ∉ removelast T)).
Proof.
  unfold guarded. intros Hg.
  apply andb_true_iff in Hg. destruct Hg as [Hg Hdd].
  apply andb_true_iff in Hg. destruct Hg as [Hg Hnormal].
  apply andb_true_iff in Hg. destruct Hg as [Hne Hroot].
  apply negb_true_iff in Hne, Hdd.
  pose proof (elements_wf p) as Hwf.
  remember (elements p) as E eqn:HE.
  destruct Hwf as [|N HN|r Hr|R N HR HN].
  - left. reflexivity.
  - rewrite unrooted_names in Hroot by (rewrite <- HE; exact HN). discriminate.
  - right. left. eauto.
  - right. right. exists R, N. split; [reflexivity|]. split; [exact HR|].
    split; [exact HN|]. split.
    + pose proof (hasDotDotSegments_elem p Hdd) as H. rewrite <- HE in H.
      intros Hin. apply H. apply elem_of_app. right. exact Hin.
    + unfold path_eqb, lexically_normal in Hnormal. rewrite Hne in Hnormal.
      apply bool_decide_eq_true in Hnormal. rewrite <- HE in Hnormal.
      destruct (normal_elements_rooted R N HR HN) as (T & HT & HTn & HTd).
      rewrite HT in Hnormal.
      rewrite (elements_compose (R ++ T)) in Hnormal by (by apply wf_rooted).
      apply app_inv_head in Hnormal. subst T. exact HTd.
Qed.

Lemma guarded_rooted (R T : list string) :
  root R → Forall name T → ".." ∉ T → "." ∉ removelast T →
  guarded (compose (R ++ T)) = true.
Proof.
  intros HR HT Hdd Hd. unfold guarded, is_absolute.
  rewrite empty_rooted, has_root_directory_rooted by assumption.
  rewrite lexically_normal_fixed by assumption.
  rewrite hasDotDotSegments_rooted by assumption.
  rewrite (proj2 (existsb_dot_dot_false T) Hdd).
  cbn [negb orb andb].
  unfold path_eqb. rewrite bool_decide_eq_true_2 by reflexivity. reflexivity.
Qed.

(** A prefix that ends in a dot element stands for its parent: the
    parent passes the assertions as well, and gives the same answer. *)
Lemma isPathPrefix_dot_prefix (prefix path : path) :
  guarded prefix = true → filename_is_dot prefix = true →
  guarded (parent_path prefix) = true
  ∧ filename_is_dot (parent_path prefix) = false
  ∧ isPathPrefix prefix path = isPathPrefix (parent_path prefix) path.
Proof.
  intros Hg Hdot.
  unfold filename_is_dot, filename in Hdot. apply String.eqb_eq in Hdot.
  destruct (guarded_cases prefix Hg)
    as [E|[(r & Hr & E)|(R & T & E & HR & HT & Hdd & Hd)]].
  - rewrite E in Hdot. discriminate.
  - rewrite E in Hdot. simpl in Hdot. subst r.
    destruct (net_name_text "." Hr) as (c & net' & E' & _). discriminate.
  - rewrite E in Hdot.
    assert (HTne : T ≠ []).
    { intros ->. rewrite app_nil_r, (root_last R HR) in Hdot. discriminate. }
    assert (Hparent : parent_path prefix = compose (R ++ removelast T)).
    { unfold parent_path. rewrite E, removelast_app by exact HTne. reflexivity. }
    assert (HT' : Forall name (removelast T)) by (apply Forall_removelast, HT).
    assert (Hdd' : ".." ∉ removelast T).
    { intros H. apply Hdd, elem_of_removelast, H. }
    assert (Hd' : "." ∉ removelast (removelast T)).
    { intros H. apply Hd, elem_of_removelast, H. }
    assert (Hg' : guarded (parent_path prefix) = true).
    { rewrite Hparent. by apply guarded_rooted. }
    assert (Hf : filename_is_dot (parent_path prefix) = false).
    { unfold filename_is_dot, filename. rewrite Hparent.
      rewrite elements_rooted by assumption.
      apply String.eqb_neq. intros Hl.
      destruct (removelast T) as [|x T'] eqn:ET.
      - rewrite app_nil_r, (root_last R HR) in Hl. discriminate.
      - apply Hd. rewrite <- Hl.
        rewrite last_app_nonempty by discriminate.
        apply elem_of_removelast_keep. }
    split; [exact Hg'|]. split; [exact Hf|].
    rewrite !isPathPrefix_guarded, Hg, Hg'.
    unfold prefixBase. rewrite Hf.
    unfold filename_is_dot, filename. rewrite E, Hdot. reflexivity.
Qed.

End PrefixFacts.

(** * Containment is a matter of leading elements *)

Module ContainmentFacts.
Import Boost Shape Notions PathFacts LexicalFacts NormalizeFacts PrefixFacts
  FileReader Cut.

Lemma mismatch_prefix (l1 l2 : list string) :
  (mismatch l1 l2).2 = [] ↔ l2 `prefix_of` l1.
Proof.
  revert l2. induction l1 as [|a l1 IH]; intros [|b l2]; simpl.
  - split; [intros _; by exists [] | reflexivity].
  - split; [discriminate|]. intros [k Hk]. discriminate.
  - split; [intros _; by exists (a :: l1) | reflexivity].
  - destruct (String.eqb a b) eqn:E.
    + apply String.eqb_eq in E. subst b. rewrite IH. split.
      * intros [k ->]. by exists k.
      * intros [k Hk]. injection Hk as ->. by exists k.
    + apply String.eqb_neq in E. simpl. split; [discriminate|].
      intros [k Hk]. injection Hk as -> _. contradiction.
Qed.

Lemma base_depth_plain (l : list string) (n : Z) :
  Forall plain l → base_depth l n = (n + Z.of_nat (length l))%Z.
Proof.
  revert n. induction l as [|x l IH]; intros n H.
  - simpl. lia.
  - inversion H as [|? ? (Hx & Hd & Hdd) Hl]; subst. simpl.
    apply String.eqb_neq in Hdd, Hd. rewrite Hdd, Hd.
    apply nonempty_true in Hx. rewrite Hx. simpl.
    rewrite IH by exact Hl. lia.
Qed.

(** A path composed after [".."] starts with the element [".."]. *)
Lemma fold_append_dot_dot (l : list string) (s : string) :
  s = "" ∨ starts_with_separator s = true →
  ∃ s', fold_left append l (".." +:+ s) = ".." +:+ s'
        ∧ (s' = "" ∨ starts_with_separator s' = true).
Proof.
  revert s. induction l as [|q l IH]; intros s Hs; [eauto|].
  cbn [fold_left].
  assert (Hstep : ∃ s1, append (".." +:+ s) q = ".." +:+ s1
                        ∧ (s1 = "" ∨ starts_with_separator s1 = true)).
  { unfold append. destruct q as [|c q]; [eauto|].
    destruct (is_directory_separator c) eqn:Hc.
    - exists (s +:+ String c q). rewrite append_assoc. split; [reflexivity|].
      right. destruct Hs as [->|Hs]; [exact Hc|]. destruct s; [discriminate | exact Hs].
    - destruct (nonempty (".." +:+ s) && negb (ends_with_separator (".." +:+ s)))
        eqn:E.
      + exists (s +:+ "/" +:+ String c q). rewrite !append_assoc.
        split; [reflexivity|]. right.
        destruct Hs as [->|Hs]; [reflexivity|]. destruct s; [discriminate | exact Hs].
      + exists (s +:+ String c q). rewrite append_assoc. split; [reflexivity|].
        right. destruct Hs as [->|Hs]; [discriminate|].
        destruct s; [discriminate | exact Hs]. }
  destruct Hstep as (s1 & -> & Hs1). exact (IH s1 Hs1).
Qed.

Lemma elements_dot_dot_head (s : string) :
  s = "" ∨ starts_with_separator s = true →
  List.hd "" (elements (".." +:+ s)) = "..".
Proof.
  intros [->|Hs]; [reflexivity|].
  destruct s as [|c s]; [discriminate|]. simpl in Hs.
  apply Ascii.eqb_eq in Hs. subst c.
  change (".." +:+ String "/" s) with (String "." (String "." (String "/" s))).
  rewrite elements_relative_text by reflexivity.
  change (String "." (String "." (String "/" s))) with (".." +:+ String "/" s).
  rewrite split_app_sep by reflexivity.
  unfold body. cbn [List.filter nonempty String.eqb negb Ascii.eqb Bool.eqb andb].
  destruct (String.eqb _ ""); reflexivity.
Qed.

Lemma compose_dot_dots (n : nat) (rp : list string) :
  empty (compose (replicate (S n) ".." ++ rp)) = false
  ∧ List.hd "" (elements (compose (replicate (S n) ".." ++ rp))) = "..".
Proof.
  unfold compose.
  change (fold_left append (replicate (S n) ".." ++ rp) "")
    with (fold_left append (replicate n ".." ++ rp) (".." +:+ "")).
  destruct (fold_append_dot_dot (replicate n ".." ++ rp) "" (or_introl eq_refl))
    as (s' & -> & Hs').
  split; [reflexivity | exact (elements_dot_dot_head s' Hs')].
Qed.

(** The elements of a path are their own single element. *)
Lemma wf_element (L : list string) (e : string) :
  wf L → e ∈ L → elements e = [e] ∧ e ≠ "".
Proof.
  assert (Hname : ∀ N x, Forall name N → x ∈ N → elements x = [x] ∧ x ≠ "").
  { intros N x HN Hx. rewrite Forall_forall in HN. specialize (HN x Hx).
    split; [exact (elements_name x HN) | exact (proj1 HN)]. }
  assert (Hnet : ∀ r, net_name r → elements r = [r] ∧ r ≠ "").
  { intros r Hr. split; [exact (elements_net r Hr)|].
    destruct (net_name_text r Hr) as (c & net' & -> & _). discriminate. }
  intros [|N HN|r Hr|R N HR HN] He.
  - apply list_elem_of_singleton in He. subst e. split; [reflexivity | discriminate].
  - exact (Hname N e HN He).
  - apply list_elem_of_singleton in He. subst e. exact (Hnet r Hr).
  - apply elem_of_app in He. destruct He as [He|He]; [|exact (Hname N e HN He)].
    destruct HR as [|r Hr].
    + apply list_elem_of_singleton in He. subst e. split; [reflexivity | discriminate].
    + apply elem_of_cons in He. destruct He as [->|He]; [exact (Hnet r Hr)|].
      apply list_elem_of_singleton in He. subst e. split; [reflexivity | discriminate].
Qed.

(** What follows a non-empty leading part of a path is a path. *)
Lemma wf_suffix (c rp : list string) : wf (c ++ rp) → c ≠ [] → wf rp.
Proof.
  intros H Hc. remember (c ++ rp) as L eqn:E.
  destruct H as [|N HN|r Hr|R N HR HN].
  - destruct c as [|x [|y c]]; [done| |discriminate].
    injection E as _ <-. apply wf_relative. constructor.
  - subst N. apply Forall_app in HN. apply wf_relative. tauto.
  - destruct c as [|x [|y c]]; [done| |discriminate].
    injection E as _ <-. apply wf_relative. constructor.
  - destruct HR as [|r Hr].
    + destruct c as [|x c]; [done|]. injection E as _ E. subst N.
      apply Forall_app in HN. apply wf_relative. tauto.
    + destruct c as [|x [|y c]]; [done| |].
      * injection E as _ <-. apply (wf_rooted ["/"] N); [constructor | exact HN].
      * injection E as _ _ E. subst N.
        apply Forall_app in HN. apply wf_relative. tauto.
Qed.

(** The test of [isPathPrefix] on what [lexically_relative] returns
    holds exactly when the elements of the base lead the elements of
    the path. *)
Lemma relative_test (p base : path) :
  ".." ∉ elements p →
  elements base ≠ [] → Forall plain (elements base) →
  negb (empty (lexically_relative p base))
  && negb (path_eqb (List.hd "" (elements (lexically_relative p base))) "..")
  = bool_decide (elements base `prefix_of` elements p).
Proof.
  intros Hdd HB Hplain.
  pose proof (elements_wf p) as Hwf.
  unfold lexically_relative.
  destruct (mismatch (elements p) (elements base)) as [rp rb] eqn:Em.
  destruct (mismatch_common (elements p) (elements base)) as (c & HPc & HBc).
  pose proof (mismatch_prefix (elements p) (elements base)) as Hpre.
  rewrite Em in HPc, HBc, Hpre. simpl in HPc, HBc, Hpre.
  destruct (bool_decide (rp = elements p) && bool_decide (rb = elements base))
    eqn:Efirst.
  - apply andb_true_iff in Efirst. destruct Efirst as [_ E2].
    apply bool_decide_eq_true in E2. simpl.
    symmetry. apply bool_decide_eq_false. intros H. apply Hpre in H.
    rewrite H in E2. apply HB. symmetry. exact E2.
  - assert (Hc : c ≠ []).
    { intros ->. simpl in HPc, HBc. rewrite <- HPc, <- HBc in Efirst.
      rewrite !bool_decide_eq_true_2 in Efirst by reflexivity. discriminate. }
    destruct rb as [|x rb].
    + rewrite (bool_decide_eq_true_2 (elements base `prefix_of` elements p))
        by (apply Hpre; reflexivity).
      destruct rp as [|e rp]; [reflexivity|].
      rewrite bool_decide_eq_false_2 by discriminate. cbn [andb base_depth].
      assert (Hwfrp : wf (e :: rp)).
      { apply (wf_suffix c); [rewrite <- HPc; exact Hwf | exact Hc]. }
      assert (He : e ∈ elements p).
      { rewrite HPc. apply elem_of_app. right. left. }
      destruct (wf_element _ e Hwf He) as [Hee Hne].
      apply String.eqb_neq in Hne. rewrite Hne. cbn [andb Z.ltb Z.compare Z.eqb].
      change (replicate (Z.to_nat 0) ".." ++ e :: rp) with (e :: rp).
      rewrite (elements_compose _ Hwfrp). cbn [List.hd].
      assert (Hempty : empty (compose (e :: rp)) = false).
      { apply String.eqb_neq. intros E. pose proof (elements_compose _ Hwfrp) as H.
        rewrite E in H. discriminate. }
      rewrite Hempty. unfold path_eqb. rewrite Hee.
      rewrite bool_decide_eq_false_2; [reflexivity|].
      intros E. injection E as ->. exact (Hdd He).
    + rewrite (bool_decide_eq_false_2 (x :: rb = [])) by discriminate.
      rewrite andb_false_r.
      assert (Hrb : Forall plain (x :: rb)).
      { rewrite HBc in Hplain. apply Forall_app in Hplain. tauto. }
      rewrite (base_depth_plain _ 0 Hrb).
      replace (0 + Z.of_nat (length (x :: rb)))%Z
        with (Z.of_nat (S (length rb))) by (simpl length; lia).
      assert (Hlt : (Z.of_nat (S (length rb)) <? 0)%Z = false)
        by (apply Z.ltb_ge; lia).
      assert (Heq : (Z.of_nat (S (length rb)) =? 0)%Z = false)
        by (apply Z.eqb_neq; lia).
      rewrite Hlt, Heq, Nat2Z.id. cbn [andb].
      destruct (compose_dot_dots (length rb) rp) as [-> ->].
      symmetry. apply bool_decide_eq_false. intros H. apply Hpre in H. discriminate.
Qed.

(** What [lexically_relative] returns for a path led by the base. *)
Lemma relative_contained (p base : path) :
  elements base ≠ [] → elements base `prefix_of` elements p →
  (lexically_relative p base = "." ∧ elements p = elements base)
  ∨ (elements p = elements base ++ elements (lexically_relative p base)
     ∧ elements (lexically_relative p base) ≠ []
     ∧ compose (elements (lexically_relative p base)) = lexically_relative p base).
Proof.
  intros HB Hpre.
  pose proof (elements_wf p) as Hwf.
  unfold lexically_relative.
  destruct (mismatch (elements p) (elements base)) as [rp rb] eqn:Em.
  destruct (mismatch_common (elements p) (elements base)) as (c & HPc & HBc).
  apply mismatch_prefix in Hpre.
  rewrite Em in HPc, HBc, Hpre. simpl in HPc, HBc, Hpre. subst rb.
  rewrite app_nil_r in HBc. subst c.
  rewrite (bool_decide_eq_false_2 ([] = elements base)), andb_false_r
    by (intros E; apply HB; symmetry; exact E).
  destruct rp as [|e rp].
  - left. split; [reflexivity|]. rewrite HPc. apply app_nil_r.
  - right. rewrite bool_decide_eq_false_2 by discriminate. cbn [andb base_depth].
    assert (Hwfrp : wf (e :: rp)).
    { apply (wf_suffix (elements base)); [rewrite <- HPc; exact Hwf | exact HB]. }
    assert (He : e ∈ elements p).
    { rewrite HPc. apply elem_of_app. right. left. }
    destruct (wf_element _ e Hwf He) as [_ Hne].
    apply String.eqb_neq in Hne. rewrite Hne. cbn [andb Z.ltb Z.compare Z.eqb].
    change (replicate (Z.to_nat 0) ".." ++ e :: rp) with (e :: rp).
    rewrite (elements_compose _ Hwfrp).
    split; [exact HPc|]. split; [discriminate | reflexivity].
Qed.

Lemma guarded_no_dot_dot (p : path) : guarded p = true → ".." ∉ elements p.
Proof.
  unfold guarded. intros Hg. apply andb_true_iff in Hg. destruct Hg as [_ Hdd].
  apply negb_true_iff in Hdd. exact (hasDotDotSegments_elem p Hdd).
Qed.

Lemma guarded_nonempty (p : path) : guarded p = true → elements p ≠ [].
Proof.
  unfold guarded. intros Hg.
  apply andb_true_iff in Hg. destruct Hg as [Hg _].
  apply andb_true_iff in Hg. destruct Hg as [Hg _].
  apply andb_true_iff in Hg. destruct Hg as [Hne _].
  apply negb_true_iff, String.eqb_neq in Hne. exact (elements_nonempty p Hne).
Qed.

(** Without a final dot, every element of a path that passes the
    assertions counts as one step. *)
Lemma guarded_plain (p : path) :
  guarded p = true → filename_is_dot p = false → Forall plain (elements p).
Proof.
  intros Hg Hdot. pose proof (guarded_no_dot_dot p Hg) as Hdd.
  pose proof (guarded_nonempty p Hg) as Hne.
  pose proof (elements_wf p) as Hwf.
  unfold filename_is_dot, filename in Hdot. apply String.eqb_neq in Hdot.
  assert (Hd : "." ∉ elements p).
  { intros Hin.
    destruct (guarded_cases p Hg)
      as [E|[(r & Hr & E)|(R & T & E & HR & HT & _ & Hd)]].
    - rewrite E in Hin. apply list_elem_of_singleton in Hin. discriminate.
    - rewrite E in Hin. apply list_elem_of_singleton in Hin. subst r.
      pose proof (net_name_not_dot "." Hr). discriminate.
    - rewrite E in Hin, Hdot. apply elem_of_app in Hin. destruct Hin as [Hin|Hin].
      + destruct HR as [|r Hr].
        * apply list_elem_of_singleton in Hin. discriminate.
        * apply elem_of_cons in Hin. destruct Hin as [Hin|Hin].
          -- subst r. pose proof (net_name_not_dot "." Hr). discriminate.
          -- apply list_elem_of_singleton in Hin. discriminate.
      + assert (HT' : T ≠ []) by (intros ->; inversion Hin).
        rewrite last_app_nonempty in Hdot by exact HT'.
        rewrite (app_removelast_last "" HT') in Hin.
        apply elem_of_app in Hin. destruct Hin as [Hin|Hin]; [exact (Hd Hin)|].
        apply list_elem_of_singleton in Hin. apply Hdot. symmetry. exact Hin. }
  apply Forall_forall. intros e He.
  destruct (wf_element _ e Hwf He) as [_ Hne'].
  split; [exact Hne'|]. split; intros ->; [exact (Hd He) | exact (Hdd He)].
Qed.

(** The base a prefix stands for passes the assertions, is not empty
    and has plain elements only. *)
Lemma prefixBase_guarded (prefix : path) :
  guarded prefix = true →
  guarded (prefixBase prefix) = true
  ∧ elements (prefixBase prefix) ≠ []
  ∧ Forall plain (elements (prefixBase prefix)).
Proof.
  intros Hg. unfold prefixBase. destruct (filename_is_dot prefix) eqn:Hdot.
  - destruct (isPathPrefix_dot_prefix prefix "" Hg Hdot) as (Hg' & Hdot' & _).
    split; [exact Hg'|].
    split; [exact (guarded_nonempty _ Hg') | exact (guarded_plain _ Hg' Hdot')].
  - split; [exact Hg|].
    split; [exact (guarded_nonempty _ Hg) | exact (guarded_plain _ Hg Hdot)].
Qed.

Lemma isPathPrefix_elements (prefix path : path) :
  guarded prefix = true → guarded path = true →
  isPathPrefix prefix path
  = Ok (bool_decide (elements (prefixBase prefix) `prefix_of` elements path)).
Proof.
  intros Hg Hg'. rewrite isPathPrefix_guarded, Hg, Hg'. cbn [andb]. f_equal.
  destruct (prefixBase_guarded prefix Hg) as (_ & Hne & Hplain).
  exact (relative_test path (prefixBase prefix) (guarded_no_dot_dot path Hg')
           Hne Hplain).
Qed.

Lemma prefix_of_before_dot (A B : list string) :
  Forall plain A → A `prefix_of` B ++ ["."] → A `prefix_of` B.
Proof.
  intros HA [k Hk]. destruct (decide (k = [])) as [->|Hne].
  - rewrite app_nil_r in Hk. subst A. apply Forall_app in HA.
    destruct HA as [_ HA]. inversion HA as [|? ? (_ & Hd & _) _]. done.
  - rewrite (app_removelast_last "" Hne), app_assoc in Hk.
    apply app_inj_tail in Hk. destruct Hk as [-> _]. by eexists.
Qed.

(** The elements of a path whose base leads them: the base itself,
    then possibly a dot. *)
Lemma prefixBase_elements (p : path) :
  guarded p = true →
  elements p = elements (prefixBase p)
  ∨ elements p = elements (prefixBase p) ++ ["."].
Proof.
  intros Hg. unfold prefixBase. destruct (filename_is_dot p) eqn:Hdot; [|by left].
  right. unfold filename_is_dot, filename in Hdot. apply String.eqb_eq in Hdot.
  unfold parent_path.
  rewrite (elements_compose _ (wf_removelast _ (elements_wf p))).
  pose proof (app_removelast_last "" (guarded_nonempty p Hg)) as E.
  rewrite Hdot in E. exact E.
Qed.

End ContainmentFacts.

(** * Normalised paths and the state of the reader *)

Module ReaderFacts.
Import Boost Shape Notions PathFacts LexicalFacts NormalizeFacts PrefixFacts
  ContainmentFacts FileReader Cut.

Lemma normalised_guarded (p : path) : normalised p → guarded p = true.
Proof.
  intros (L & [R T HR HT Hdd Hd _] & ->). by apply guarded_rooted.
Qed.

Lemma normalised_nonempty (p : path) : normalised p → p ≠ "".
Proof.
  intros (L & [R T HR HT _ _ _] & ->) E.
  pose proof (empty_rooted R T HR HT) as H. rewrite E in H. discriminate.
Qed.

(** A normalised path is the composition of its own elements, which are
    a root and names. *)
Lemma normalised_elements (p : path) :
  normalised p →
  compose (elements p) = p
  ∧ ∃ R T, elements p = R ++ T ∧ root R ∧ Forall name T.
Proof.
  intros (L & HL & ->). pose proof (clean_wf L HL) as Hwf.
  rewrite (elements_compose L Hwf). split; [reflexivity|].
  destruct HL as [R T HR HT _ _ _]. eauto.
Qed.

Lemma stripFirstPrefix_total (prefixes : list path) (np : path) :
  Forall (λ p, guarded p = true) prefixes → guarded np = true →
  ∃ s, stripFirstPrefix prefixes np = Ok s.
Proof.
  intros Hps Hnp. induction Hps as [|p ps Hp _ IH]; simpl; [eauto|].
  rewrite (isPathPrefix_elements p np Hp Hnp). cbn [mbind result_bind].
  destruct (bool_decide _) eqn:E; [|exact IH].
  rewrite (ResolutionFacts.isPathPrefix_true_strip p np); [eauto|].
  rewrite (isPathPrefix_elements p np Hp Hnp), E. reflexivity.
Qed.

(** ** What is stripped can be put back *)

Lemma append_names_compose (B N : list string) :
  Forall name N → N ≠ [] → append (compose B) (compose N) = compose (B ++ N).
Proof.
  intros HN Hne. unfold compose at 3. rewrite fold_left_app.
  change (fold_left append B "") with (compose B).
  rewrite (compose_names N), (fold_append_names N) by assumption.
  destruct N as [|x N]; [done|]. inversion HN as [|? ? Hx _]; subst.
  destruct (join_cons_name x N Hx) as (c & s & -> & Hc).
  unfold append. rewrite Hc. reflexivity.
Qed.

(** What follows a rooted leading part of a rooted path are names. *)
Lemma suffix_names (R1 T1 R2 T2 rest : list string) :
  root R1 → root R2 → Forall name T2 →
  R2 ++ T2 = (R1 ++ T1) ++ rest → Forall name rest.
Proof.
  intros H1 H2 HT E. rewrite <- app_assoc in E.
  assert (HT' : Forall name (T1 ++ rest)).
  { destruct H1 as [|r1 Hr1], H2 as [|r2 Hr2]; simpl in E.
    - injection E as <-. exact HT.
    - injection E as -> _. destruct (net_name_text _ Hr2) as (? & ? & ? & _).
      discriminate.
    - injection E as <- _. destruct (net_name_text _ Hr1) as (? & ? & ? & _).
      discriminate.
    - injection E as _ <-. exact HT. }
  apply Forall_app in HT'. tauto.
Qed.

Lemma prefixBase_rooted (prefix : path) :
  normalised prefix →
  compose (elements (prefixBase prefix)) = prefixBase prefix
  ∧ ∃ R T, elements (prefixBase prefix) = R ++ T ∧ root R ∧ Forall name T.
Proof.
  intros Hn. destruct (normalised_elements prefix Hn) as (Hc & R & T & E & HR & HT).
  unfold prefixBase. destruct (filename_is_dot prefix) eqn:Hdot; [|eauto 7].
  unfold parent_path.
  rewrite (elements_compose _ (wf_removelast _ (elements_wf prefix))).
  split; [reflexivity|].
  unfold filename_is_dot, filename in Hdot. apply String.eqb_eq in Hdot.
  rewrite E in Hdot |- *.
  assert (HTne : T ≠ []).
  { intros ->. rewrite app_nil_r, (root_last R HR) in Hdot. discriminate. }
  rewrite removelast_app by exact HTne.
  exists R, (removelast T). split; [reflexivity|].
  split; [exact HR | exact (Forall_removelast _ _ HT)].
Qed.

Lemma stripped_round_trip (prefix np : path) :
  normalised prefix → normalised np →
  isPathPrefix prefix np = Ok true →
  (lexically_relative np (prefixBase prefix) = "." ∧ np = prefixBase prefix)
  ∨ (append (prefixBase prefix) (lexically_relative np (prefixBase prefix)) = np
     ∧ Forall name (elements (lexically_relative np (prefixBase prefix)))
     ∧ elements (lexically_relative np (prefixBase prefix)) ≠ []).
Proof.
  intros Hp Hnp H.
  pose proof (normalised_guarded _ Hp) as Hg.
  pose proof (normalised_guarded _ Hnp) as Hg'.
  rewrite (isPathPrefix_elements prefix np Hg Hg') in H. injection H as H.
  apply bool_decide_eq_true in H.
  destruct (prefixBase_guarded prefix Hg) as (_ & Hne & _).
  destruct (prefixBase_rooted prefix Hp) as (Hcb & R1 & T1 & E1 & HR1 & HT1).
  destruct (normalised_elements np Hnp) as (Hcn & R2 & T2 & E2 & HR2 & HT2).
  destruct (relative_contained np (prefixBase prefix) Hne H)
    as [[Hd He]|(He & Hrest & Hc)].
  - left. split; [exact Hd|]. rewrite <- Hcn, He. exact Hcb.
  - right.
    assert (Hnames : Forall name (elements (lexically_relative np (prefixBase prefix)))).
    { apply (suffix_names R1 T1 R2 T2); [assumption..|].
      rewrite <- E1, <- E2. exact He. }
    split; [|split; assumption].
    rewrite <- Hcb at 1. rewrite <- Hc at 1.
    rewrite append_names_compose by assumption.
    rewrite <- He. exact Hcn.
Qed.

Section WithFileSystem.
Variable fs : FileSystem.

Lemma normalize_normalised (p q : path) :
  normalizeCLIPathForVFS fs p false = Ok q → normalised q.
Proof. exact (normalize_lexical_clean fs p q). Qed.

(** The first root [cliPathToSourceUnitName] and [readFile] go by. *)
Lemma first_root_normalised (this : t) (first : path) :
  well_formed this →
  (if empty (m_basePath this) then normalizeCLIPathForVFS fs "." false
   else Ok (m_basePath this)) = Ok first →
  normalised first.
Proof.
  intros Hwf. destruct (empty (m_basePath this)) eqn:E.
  - apply normalize_normalised.
  - intros H. injection H as <-. destruct (wf_base _ Hwf) as [Hb|Hb]; [|exact Hb].
    rewrite Hb in E. discriminate.
Qed.

Lemma cliPathToSourceUnitName_returns (this : t) (cur cwd cliPath : path) :
  well_formed this →
  current_path fs = Ok cur → weakly_canonical fs cur = Ok cwd →
  posix_absolute cwd →
  ∃ name, cliPathToSourceUnitName fs this cliPath = Ok name.
Proof.
  intros Hwf Hcur Hcwd Hposix. unfold cliPathToSourceUnitName, resolveSymlinksDefault.
  assert (Hfirst : ∃ first,
            (if empty (m_basePath this) then normalizeCLIPathForVFS fs "." false
             else Ok (m_basePath this)) = Ok first).
  { destruct (empty (m_basePath this)); [|eauto].
    exact (normalize_lexical_total fs cur cwd "." Hcur Hcwd Hposix). }
  destruct Hfirst as [first Hfirst].
  pose proof (first_root_normalised this first Hwf Hfirst) as Hnf.
  rewrite Hfirst. cbn [mbind result_bind].
  destruct (normalize_lexical_total fs cur cwd cliPath Hcur Hcwd Hposix) as [np Hnp].
  rewrite Hnp. cbn [mbind result_bind].
  destruct (stripFirstPrefix_total (first :: m_includePaths this) np) as [s Hs].
  - constructor; [exact (normalised_guarded _ Hnf)|].
    eapply Forall_impl; [exact (wf_include _ Hwf)|]. exact normalised_guarded.
  - exact (normalised_guarded _ (normalize_normalised _ _ Hnp)).
  - rewrite Hs. cbn [mbind result_bind]. eauto.
Qed.

(** ** The configuration functions *)

Lemma setBasePath_Ok (this : t) (p : path) (this' : t) :
  setBasePath fs this p = Ok this' →
  this' = mk (m_basePath this') (m_includePaths this) (m_allowedDirectories this)
             (m_sourceCodes this)
  ∧ ((p = "" ∧ m_includePaths this = [] ∧ m_basePath this' = "")
     ∨ (p ≠ "" ∧ normalizeCLIPathForVFS fs p false = Ok (m_basePath this'))).
Proof.
  unfold setBasePath, resolveSymlinksDefault. destruct (empty p) eqn:E.
  - apply String.eqb_eq in E. intros H. bind_inv H.
    apply solAssert_Ok_inv, bool_decide_eq_true in Ha. injection H as <-.
    split; [reflexivity|]. left. auto.
  - apply String.eqb_neq in E. intros H. bind_inv H. injection H as <-.
    split; [reflexivity|]. right. auto.
Qed.

Lemma addIncludePath_Ok (this : t) (p : path) (this' : t) :
  addIncludePath fs this p = Ok this' →
  m_basePath this ≠ "" ∧ p ≠ ""
  ∧ ∃ q, normalizeCLIPathForVFS fs p false = Ok q
         ∧ this' = mk (m_basePath this) (m_includePaths this ++ [q])
                      (m_allowedDirectories this) (m_sourceCodes this).
Proof.
  unfold addIncludePath, resolveSymlinksDefault. intros H.
  bind_inv H. bind_inv H. bind_inv H. injection H as <-.
  apply solAssert_Ok_inv, negb_true_iff, String.eqb_neq in Ha, Ha0. eauto.
Qed.

Lemma allowDirectory_Ok (this : t) (p : path) (this' : t) :
  allowDirectory this p = Ok this' →
  p ≠ ""
  ∧ this' = mk (m_basePath this) (m_includePaths this)
               (set_insert p (m_allowedDirectories this)) (m_sourceCodes this).
Proof.
  unfold allowDirectory. intros H. bind_inv H. injection H as <-.
  apply solAssert_Ok_inv, negb_true_iff, String.eqb_neq in Ha. auto.
Qed.

Lemma setBasePath_well_formed (this : t) (p : path) (this' : t) :
  well_formed this → setBasePath fs this p = Ok this' → well_formed this'.
Proof.
  intros [Hb Hi Hn Ha] H. apply setBasePath_Ok in H. destruct H as [E H].
  rewrite E. clear E.
  split; cbn [m_basePath m_includePaths m_allowedDirectories]; [| exact Hi | | exact Ha].
  - destruct H as [(_ & _ & E)|[_ E]]; [by left|].
    right. exact (normalize_normalised _ _ E).
  - intros E. destruct H as [(_ & E' & _)|[_ E']]; [exact E'|].
    apply normalize_normalised, normalised_nonempty in E'. contradiction.
Qed.

Lemma addIncludePath_well_formed (this : t) (p : path) (this' : t) :
  well_formed this → addIncludePath fs this p = Ok this' → well_formed this'.
Proof.
  intros [Hb Hi Hn Ha] H. apply addIncludePath_Ok in H.
  destruct H as (Hbase & _ & q & Hq & ->).
  split; cbn [m_basePath m_includePaths m_allowedDirectories];
    [exact Hb | | contradiction | exact Ha].
  apply Forall_app. split; [exact Hi|].
  constructor; [exact (normalize_normalised _ _ Hq) | constructor].
Qed.

Lemma allowDirectory_well_formed (this : t) (p : path) (this' : t) :
  well_formed this → allowDirectory this p = Ok this' → well_formed this'.
Proof.
  intros [Hb Hi Hn Ha] H. apply allowDirectory_Ok in H. destruct H as (Hp & ->).
  split; cbn [m_basePath m_includePaths m_allowedDirectories];
    [exact Hb | exact Hi | exact Hn |].
  apply Forall_forall. intros d Hd.
  apply ReadFileFacts.set_insert_elem in Hd. destruct Hd as [->|Hd]; [exact Hp|].
  rewrite Forall_forall in Ha. exact (Ha d Hd).
Qed.

(** The loop of the constructor. *)
Lemma addIncludePaths_Ok (l : list path) (this this' : t) :
  foldl (λ acc includePath, this ← acc; addIncludePath fs this includePath)
        (Ok this) l = Ok this' →
  (l ≠ [] → m_basePath this ≠ "")
  ∧ ∃ qs, Forall2 (λ p q, normalizeCLIPathForVFS fs p false = Ok q) l qs
          ∧ this' = mk (m_basePath this) (m_includePaths this ++ qs)
                       (m_allowedDirectories this) (m_sourceCodes this).
Proof.
  revert this. induction l as [|p l IH]; intros this H.
  - simpl in H. injection H as <-. split; [done|]. exists [].
    split; [constructor|]. rewrite app_nil_r. by destruct this.
  - cbn [foldl] in H. cbn [mbind result_bind] in H.
    destruct (addIncludePath fs this p) as [this1|e] eqn:E.
    + apply addIncludePath_Ok in E. destruct E as (Hb & _ & q & Hq & ->).
      apply IH in H. destruct H as (_ & qs & Hqs & ->).
      cbn [m_basePath m_includePaths m_allowedDirectories m_sourceCodes].
      split; [intros _; exact Hb|]. exists (q :: qs).
      split; [by constructor|]. by rewrite <- app_assoc.
    + exfalso. clear - H. induction l as [|x l IHl]; [discriminate|].
      exact (IHl H).
Qed.

Lemma create_Ok (base : path) (includes : list path) (allowed : FileSystemPathSet)
    (this : t) :
  create fs base includes allowed = Ok this →
  well_formed this
  ∧ m_allowedDirectories this = allowed
  ∧ m_sourceCodes this = ∅
  ∧ (if empty base then m_basePath this = "" ∧ includes = []
     else normalizeCLIPathForVFS fs base false = Ok (m_basePath this))
  ∧ Forall2 (λ p q, normalizeCLIPathForVFS fs p false = Ok q)
      includes (m_includePaths this).
Proof.
  unfold create. intros H. bind_inv H. bind_inv H. bind_inv H. injection H as <-.
  apply setBasePath_Ok in Ha. destruct Ha as [Ea Hbase].
  destruct a as [b i al sc].
  cbn [m_basePath m_includePaths m_allowedDirectories m_sourceCodes] in Ea, Hbase.
  injection Ea as -> -> ->.
  apply addIncludePaths_Ok in Ha0. destruct Ha0 as (Hne & qs & Hqs & ->).
  cbn [m_basePath m_includePaths m_allowedDirectories m_sourceCodes] in *.
  apply solAssert_Ok_inv in Ha1.
  assert (Hqn : Forall normalised qs).
  { clear - Hqs. induction Hqs as [|p q l qs Hq _ IH]; constructor; [|exact IH].
    exact (normalize_normalised _ _ Hq). }
  split; [split; cbn [m_basePath m_includePaths m_allowedDirectories]|].
  - destruct Hbase as [(_ & _ & E)|[_ E]]; [by left|].
    right. exact (normalize_normalised _ _ E).
  - exact Hqn.
  - intros E. destruct includes as [|p l]; [by inversion Hqs|].
    exfalso. apply Hne; [discriminate | exact E].
  - apply Forall_forall. intros d Hd E. subst d.
    rewrite forallb_forall in Ha1. apply list_elem_of_In in Hd.
    specialize (Ha1 "" Hd). discriminate.
  - split; [reflexivity|]. split; [reflexivity|]. split; [|exact Hqs].
    destruct Hbase as [(-> & _ & E)|[Hb E]].
    + cbn [empty String.eqb]. split; [exact E|].
      destruct includes as [|p l]; [reflexivity|].
      exfalso. apply Hne; [discriminate | exact E].
    + apply String.eqb_neq in Hb. unfold empty. rewrite Hb. exact E.
Qed.

Lemma addIncludePaths_throw (l : list path) (e : exception) :
  foldl (λ acc includePath, this ← acc; addIncludePath fs this includePath)
        (Throw e) l = Throw e.
Proof. induction l as [|p l IH]; [reflexivity | exact IH]. Qed.

(** The name [cliPathToSourceUnitName] gives to a path under one of the
    roots, put after that root, is the normalised path again. *)
Lemma source_unit_name_put_back (this : t) (cliPath : path) (name : string) :
  well_formed this →
  cliPathToSourceUnitName fs this cliPath = Ok name →
  ∃ first np,
    (if empty (m_basePath this) then normalizeCLIPathForVFS fs "." false
     else Ok (m_basePath this)) = Ok first
    ∧ normalizeCLIPathForVFS fs cliPath false = Ok np
    ∧ (name = np
       ∨ ∃ root, root ∈ first :: m_includePaths this
           ∧ isPathPrefix root np = Ok true
           ∧ ((name = "." ∧ np = prefixBase root)
              ∨ (append (prefixBase root) name = np
                 ∧ Forall Shape.name (elements name)))).
Proof.
  intros Hwf H. unfold cliPathToSourceUnitName, resolveSymlinksDefault in H.
  bind_inv H. bind_inv H. bind_inv H. injection H as <-.
  rename a into first, a0 into np, a1 into stripped.
  exists first, np. split; [exact Ha|]. split; [exact Ha0|].
  apply ResolutionFacts.stripFirstPrefix_described in Ha1.
  destruct Ha1 as [(i & root & Hi & Hin & _ & ->)|[_ ->]]; [|by left].
  right. exists root. apply list_elem_of_lookup_2 in Hi.
  split; [exact Hi|]. split; [exact Hin|].
  assert (Hroot : normalised root).
  { apply elem_of_cons in Hi. destruct Hi as [->|Hi].
    - exact (first_root_normalised this first Hwf Ha).
    - pose proof (wf_include _ Hwf) as Hinc. rewrite Forall_forall in Hinc.
      exact (Hinc root Hi). }
  unfold generic_string.
  destruct (stripped_round_trip root np Hroot (normalize_normalised _ _ Ha0) Hin)
    as [H|(H1 & H2 & _)]; [left; exact H | right; split; assumption].
Qed.

End WithFileSystem.
End ReaderFacts.

(** * Reading and the cache *)

Module CacheFacts.
Import Boost Notions FileReader.

Section WithFileSystem.
Variable fs : FileSystem.

(** [readFile] is [readOutcome] on the stripped name, followed by the
    write to the cache. *)
Lemma readFileTry_outcome (this : t) (kind name : string) :
  readFileTry fs this kind name
  = (r ← readOutcome fs this kind (stripFileScheme name); Ok (r, cached this name r)).
Proof.
  unfold readFileTry, readOutcome, cached.
  destruct (negb (String.eqb kind kindString_ReadFile)); [reflexivity|].
  cbn [mbind result_bind].
  destruct (resolveCandidates fs (stripFileScheme name) (readFilePrefixes this) "")
    as [target|e]; [|reflexivity].
  cbn [mbind result_bind].
  destruct (checkAllowed fs (effectiveAllowList this) target) as [[|]|e];
    [|reflexivity..].
  cbn [mbind result_bind negb].
  destruct (fs_exists fs target) as [[|]|e]; [|reflexivity..].
  cbn [mbind result_bind negb].
  destruct (is_regular_file fs target) as [[|]|e]; [|reflexivity..].
  cbn [mbind result_bind negb].
  destruct (readFileAsString fs target) as [contents|e]; reflexivity.
Qed.

Lemma readFile_outcome (this : t) (kind name : string) :
  readFile fs this kind name
  = match readOutcome fs this kind (stripFileScheme name) with
    | Ok r => (r, cached this name r)
    | Throw e => (mkResult false (catchMessage fs e), this)
    end.
Proof.
  unfold readFile. rewrite readFileTry_outcome.
  destruct (readOutcome fs this kind (stripFileScheme name)); reflexivity.
Qed.

(** The outcome does not look at the cache. *)
Lemma readOutcome_sources (this : t) (sources : gmap string string)
    (kind stripped : string) :
  readOutcome fs (setSources this sources) kind stripped
  = readOutcome fs this kind stripped.
Proof. reflexivity. Qed.

Lemma stripFileScheme_scheme (name : string) :
  stripFileScheme ("file://" +:+ name) = name.
Proof. reflexivity. Qed.

End WithFileSystem.
End CacheFacts.

(** * Dot-dot segments, the working directory and the set of allowed
      directories *)

Module MiscFacts.
Import Boost Shape Notions PathFacts LexicalFacts NormalizeFacts PrefixFacts
  ContainmentFacts FileReader Cut.

Lemma filename_element (p : path) (e : string) :
  e ∈ elements p → filename e = e.
Proof.
  intros He. unfold filename.
  destruct (wf_element _ e (elements_wf p) He) as [-> _]. reflexivity.
Qed.

Lemma hasDotDotSegments_spec (p : path) :
  hasDotDotSegments p = true ↔ ".." ∈ elements p.
Proof.
  unfold hasDotDotSegments. rewrite existsb_exists. split.
  - intros (e & He & Hdd). apply list_elem_of_In in He.
    unfold filename_is_dot_dot in Hdd. rewrite (filename_element p e He) in Hdd.
    apply String.eqb_eq in Hdd. subst e. exact He.
  - intros He. exists "..". split; [by apply list_elem_of_In|].
    unfold filename_is_dot_dot. rewrite (filename_element p ".." He). reflexivity.
Qed.

(** Without a root directory the root path is no more than a root
    name, which is not the slash. *)
Lemma absoluteDotDotPrefix_unrooted (p : path) :
  has_root_directory p = false →
  absoluteDotDotPrefix p = Throw (InternalCompilerError "").
Proof.
  intros H. unfold absoluteDotDotPrefix, is_absolute, root_path, root_directory.
  rewrite H. cbn [orb].
  assert (E : path_eqb (append (root_name p) "") "/" = false).
  { cbn [append]. unfold path_eqb. apply bool_decide_eq_false.
    destruct (root_name_cases p) as [->|[->|Hr]]; [discriminate..|].
    rewrite (elements_net _ Hr). intros E. injection E as E.
    destruct (net_name_text _ Hr) as (c & s & E' & _). rewrite E' in E.
    discriminate. }
  rewrite E. reflexivity.
Qed.

Lemma compare_elements_refl (l : list string) : compare_elements l l = Eq.
Proof.
  induction l as [|a l IH]; [reflexivity|]. simpl.
  assert (E : String.compare a a = Eq).
  { pose proof (String.compare_antisym a a) as H.
    destruct (String.compare a a); [reflexivity | discriminate..]. }
  rewrite E. exact IH.
Qed.

(** A path equivalent to one just inserted is already in the set. *)
Lemma set_insert_again (p q : path) (s : FileSystemPathSet) :
  elements q = elements p → set_insert q (set_insert p s) = set_insert p s.
Proof.
  intros E. induction s as [|y s IH]; simpl.
  - unfold compare. rewrite E, compare_elements_refl. reflexivity.
  - assert (Hc : compare q y = compare p y) by (unfold compare; by rewrite E).
    destruct (compare p y) eqn:Ep; simpl.
    + rewrite Hc. reflexivity.
    + unfold compare at 1. rewrite E, compare_elements_refl. reflexivity.
    + rewrite Hc, IH. reflexivity.
Qed.

Section WithFileSystem.
Variable fs : FileSystem.

(** A path without root is taken below the working directory. *)
Lemma normalize_relative (cur cwd p : path) :
  current_path fs = Ok cur → weakly_canonical fs cur = Ok cwd →
  posix_absolute cwd →
  has_root_directory p = false → root_name p = "" →
  normalizeCLIPathForVFS fs p false
  = normalizeCLIPathForVFS fs (append cwd p) false.
Proof.
  intros Hcur Hcwd Hposix Hrd Hrn.
  rewrite !normalize_unfold, Hcur. cbn [mbind result_bind]. rewrite Hcwd.
  cbn [mbind result_bind]. unfold fs_absolute, is_absolute.
  rewrite (has_root_directory_posix cwd Hposix). cbn [mbind result_bind].
  assert (E : absolute (append cwd p) cwd = absolute p cwd).
  { unfold absolute at 2. unfold root_directory. rewrite Hrd, Hrn.
    cbn [nonempty empty String.eqb negb].
    destruct (empty p) eqn:Ep.
    - apply String.eqb_eq in Ep. subst p. cbn [append]. unfold absolute.
      rewrite (root_name_posix cwd Hposix). unfold root_directory.
      rewrite (has_root_directory_posix cwd Hposix).
      cbn [nonempty empty String.eqb negb].
      destruct (empty cwd); reflexivity.
    - destruct (relative_text p Ep) as (c & s & -> & Hc);
        [by rewrite Hrn | exact Hrd |].
      pose proof (has_root_directory_posix_append cwd c s Hposix Hc) as Hroot.
      unfold absolute.
      destruct (empty (append cwd (String c s))) eqn:Ee.
      { apply String.eqb_eq in Ee. rewrite Ee in Hroot. discriminate. }
      assert (Hn : root_name (append cwd (String c s)) = "").
      { unfold append. rewrite Hc.
        destruct (posix_absolute_text cwd Hposix)
          as [->|[(c2 & s2 & -> & H2)|(s3 & ->)]].
        - simpl. unfold root_name.
          rewrite elements_root_text by exact Hc. reflexivity.
        - destruct (nonempty _ && negb _); simpl; unfold root_name;
            rewrite elements_root_text by exact H2; reflexivity.
        - destruct (nonempty _ && negb _); reflexivity. }
      rewrite Hn. unfold root_directory. rewrite Hroot.
      cbn [nonempty empty String.eqb negb].
      rewrite (root_name_posix cwd Hposix). reflexivity. }
  rewrite E. reflexivity.
Qed.


End WithFileSystem.
End MiscFacts.

(** * The target of the resolution and what [readFile] does with it *)

Module TargetFacts.
Import Boost Notions FileReader Described Resolved.

Lemma starts_with_app (pre s : string) :
  starts_with pre s = true ↔ ∃ rest, s = pre +:+ rest.
Proof.
  revert s. induction pre as [|a pre IH]; intros s.
  - split; [intros _; by exists s | reflexivity].
  - destruct s as [|b s]; simpl.
    + split; [discriminate | intros [rest H]; discriminate].
    + rewrite andb_true_iff, IH. split.
      * intros [Hab [rest ->]]. apply Ascii.eqb_eq in Hab. subst b. by exists rest.
      * intros [rest H]. injection H as -> ->.
        split; [apply Ascii.eqb_refl | by exists rest].
Qed.

Lemma erase_front_app (pre rest : string) :
  erase_front (String.length pre) (pre +:+ rest) = rest.
Proof. induction pre as [|a pre IH]; [by destruct rest | exact IH]. Qed.

(** [stripFileScheme] strips the literal prefix, once, and nothing
    else. *)
Lemma without_scheme_spec (name strippedName : string) :
  without_scheme name strippedName ↔ strippedName = stripFileScheme name.
Proof.
  unfold without_scheme, stripFileScheme.
  destruct (starts_with "file://" name) eqn:E.
  - apply starts_with_app in E. destruct E as [rest ->].
    change 7 with (String.length "file://"). rewrite erase_front_app. split.
    + intros [(rest' & E & ->)|[H _]].
      * apply (f_equal (erase_front (String.length "file://"))) in E.
        rewrite !erase_front_app in E. symmetry. exact E.
      * destruct (H rest eq_refl).
    + intros ->. left. by exists rest.
  - split.
    + intros [(rest & -> & _)|[_ H]]; [|exact H].
      assert (Hs : starts_with "file://" ("file://" +:+ rest) = true)
        by (apply starts_with_app; by exists rest).
      rewrite Hs in E. discriminate.
    + intros ->. right. split; [|reflexivity].
      intros rest ->.
      assert (Hs : starts_with "file://" ("file://" +:+ rest) = true)
        by (apply starts_with_app; by exists rest).
      rewrite Hs in E. discriminate.
Qed.

Section WithFileSystem.
Variable fs : FileSystem.

Lemma last_roots (b : path) (l : list path) :
  last (b :: l) = Some (List.last (b :: l) "").
Proof.
  revert b. induction l as [|x l IH]; intros b; [reflexivity|].
  rewrite last_cons_cons. exact (IH x).
Qed.

(** The described target is the one the loop of [readFile] ends with. *)
Lemma resolution_target_loop (b : path) (l : list path) (s : string) (target : path) :
  resolution_target fs (b :: l) s target
  ↔ resolveCandidates fs s (b :: l) "" = Ok target.
Proof.
  rewrite ResolutionFacts.resolveCandidates_described.
  unfold resolution_target, last_candidate. rewrite last_roots. reflexivity.
Qed.

(** What [readFile] answers once the loop has ended with a target. *)
Lemma readFile_on_target (this : t) (name : string) (target : path) :
  resolveCandidates fs (stripFileScheme name) (readFilePrefixes this) ""
    = Ok target →
  (checkAllowed fs (effectiveAllowList this) target = Ok false →
   readFile fs this kindString_ReadFile name
   = (mkResult false "File outside of allowed directories.", this))
  ∧ (checkAllowed fs (effectiveAllowList this) target = Ok true →
     fs_exists fs target = Ok false →
     readFile fs this kindString_ReadFile name
     = (mkResult false "File not found.", this))
  ∧ (checkAllowed fs (effectiveAllowList this) target = Ok true →
     fs_exists fs target = Ok true →
     is_regular_file fs target = Ok false →
     readFile fs this kindString_ReadFile name
     = (mkResult false "Not a valid file.", this))
  ∧ (∀ contents,
       checkAllowed fs (effectiveAllowList this) target = Ok true →
       fs_exists fs target = Ok true →
       is_regular_file fs target = Ok true →
       readFileAsString fs target = Ok contents →
       readFile fs this kindString_ReadFile name
       = (mkResult true contents,
          mk (m_basePath this) (m_includePaths this) (m_allowedDirectories this)
             (<[name := contents]> (m_sourceCodes this)))).
Proof.
  intros Hres. rewrite CacheFacts.readFile_outcome. unfold readOutcome.
  rewrite String.eqb_refl. cbn [negb mbind result_bind]. rewrite Hres.
  cbn [mbind result_bind].
  split; [|split; [|split]].
  - intros ->. reflexivity.
  - intros -> ->. reflexivity.
  - intros -> -> ->. reflexivity.
  - intros contents -> -> -> ->. reflexivity.
Qed.

(** Whether the target exists tells which way the loop ended. *)
Lemma target_exists_cases (b : path) (l : list path) (s : string) (target : path) :
  resolveCandidates fs s (b :: l) "" = Ok target →
  (fs_exists fs target = Ok true → first_existing fs s (b :: l) target)
  ∧ (fs_exists fs target = Ok false →
     (∀ r, r ∈ b :: l → missing fs s r)
     ∧ candidate fs s (List.last (b :: l) "") = Ok target).
Proof.
  intros H. apply resolution_target_loop in H.
  destruct H as [Hfirst|[Hmiss Hlast]]; split.
  - intros _. exact Hfirst.
  - intros He. destruct Hfirst as (i & root & _ & _ & He' & _).
    rewrite He in He'. discriminate.
  - intros He.
    destruct (Hmiss (List.last (b :: l) "")) as (c & Hc & Hce).
    { apply PathFacts.last_in. discriminate. }
    rewrite Hlast in Hc. injection Hc as <-. rewrite He in Hce. discriminate.
  - intros _. split; assumption.
Qed.

(** The not-found answer is about a target inside the allowed
    directories that does not exist. *)
Lemma readFile_not_found_inv (this : t) (kind name : string) :
  fst (readFile fs this kind name) = mkResult false "File not found." →
  ∃ target,
    resolveCandidates fs (stripFileScheme name) (readFilePrefixes this) ""
      = Ok target
    ∧ checkAllowed fs (effectiveAllowList this) target = Ok true
    ∧ fs_exists fs target = Ok false.
Proof.
  rewrite CacheFacts.readFile_outcome. unfold readOutcome.
  destruct (negb (String.eqb kind kindString_ReadFile));
    cbn [mbind result_bind fst]; [intros H; injection H as H; discriminate|].
  destruct (resolveCandidates fs (stripFileScheme name) (readFilePrefixes this) "")
    as [target|e] eqn:E1; cbn [mbind result_bind fst];
    [|intros H; destruct e; injection H as H; discriminate].
  destruct (checkAllowed fs (effectiveAllowList this) target) as [[|]|e] eqn:E2;
    cbn [mbind result_bind fst negb];
    [| intros H; discriminate
     | intros H; destruct e; injection H as H; discriminate].
  destruct (fs_exists fs target) as [[|]|e] eqn:E3;
    cbn [mbind result_bind fst negb];
    [| intros _; exists target; auto
     | intros H; destruct e; injection H as H; discriminate].
  destruct (is_regular_file fs target) as [[|]|e] eqn:E4;
    cbn [mbind result_bind fst negb];
    [| intros H; discriminate
     | intros H; destruct e; injection H as H; discriminate].
  destruct (readFileAsString fs target) as [contents|e];
    cbn [mbind result_bind fst negb];
    [intros H; discriminate | intros H; destruct e; injection H as H; discriminate].
Qed.

End WithFileSystem.
End TargetFacts.

(** * [readFile] and [cliPathToSourceUnitName] *)

Section ReadFileProperties.
Import Boost FileReader Described TreeFS.
Variable fs : FileSystem.

(** C1. [readFile] reports success only when the resolved target lies,
    for [isPathPrefix], below an entry of the allow-list of the check
    (an allowed directory, the base path or ["."] when it is empty, or
    an include path), each normalised with symbolic links resolved; and
    when the check is reached and no entry contains the target, the
    answer is the access-denied failure.  The allow-list holds these
    paths and no others, equivalent paths once. *)
Theorem readFile_only_inside_allow_list (this : t) (kind name : string) :
  (success (fst (readFile fs this kind name)) = true →
   ∃ target dir ndir,
     resolveCandidates fs (stripFileScheme name) (readFilePrefixes this) ""
       = Ok target
     ∧ dir ∈ effectiveAllowList this
     ∧ (dir ∈ m_allowedDirectories this
        ∨ dir = (if empty (m_basePath this) then "." else m_basePath this)
        ∨ dir ∈ m_includePaths this)
     ∧ normalizeCLIPathForVFS fs dir true = Ok ndir
     ∧ isPathPrefix ndir target = Ok true)
  ∧ (∀ target,
       kind = kindString_ReadFile →
       resolveCandidates fs (stripFileScheme name) (readFilePrefixes this) ""
         = Ok target →
       (∀ dir, dir ∈ effectiveAllowList this →
          ∃ ndir, normalizeCLIPathForVFS fs dir true = Ok ndir
                  ∧ isPathPrefix ndir target = Ok false) →
       fst (readFile fs this kind name)
         = mkResult false "File outside of allowed directories.")
  ∧ (∀ dir,
       dir ∈ m_allowedDirectories this
       ∨ dir = (if empty (m_basePath this) then "." else m_basePath this)
       ∨ dir ∈ m_includePaths this →
       ∃ dir', dir' ∈ effectiveAllowList this ∧ elements dir' = elements dir).
Proof.
  split; [|split; [|exact (ReadFileFacts.effectiveAllowList_complete this)]].
  - intros Hs.
    destruct (readFile fs this kind name) as [r this'] eqn:E. simpl in Hs.
    destruct (ReadFileFacts.readFile_success_inv fs _ _ _ _ _ E Hs)
      as (_ & target & contents & Hres & Hall & _).
    destruct (ReadFileFacts.checkAllowed_true_inv fs _ _ Hall)
      as (dir & ndir & Hin & Hn & Hp).
    exists target, dir, ndir. repeat split; auto.
    apply ReadFileFacts.effectiveAllowList_elem. exact Hin.
  - intros target -> Hres Hout.
    unfold readFile, readFileTry. rewrite String.eqb_refl.
    cbn -[resolveCandidates stripFileScheme readFilePrefixes checkAllowed
          effectiveAllowList].
    rewrite Hres.
    cbn -[resolveCandidates stripFileScheme readFilePrefixes checkAllowed
          effectiveAllowList].
    rewrite (ReadFileFacts.checkAllowed_all_outside fs _ _ Hout). reflexivity.
Qed.

(** C4. A kind other than the file-read tag makes [readFile] fail with
    the message of the internal error, which is none of the three
    messages about files; and whatever the [try] block throws becomes a
    failure result with a message, the object left as it was. *)
Theorem readFile_wrong_kind (this : t) (kind name : string) :
  kind ≠ kindString_ReadFile →
  readFile fs this kind name
    = (mkResult false
         ("Exception in read callback: "
          +:+ diagnostic_information fs
                (InternalCompilerError
                   ("ReadFile callback used as callback kind " +:+ kind))),
       this)
  ∧ responseOrErrorMessage (fst (readFile fs this kind name))
      ≠ "File outside of allowed directories."
  ∧ responseOrErrorMessage (fst (readFile fs this kind name)) ≠ "File not found."
  ∧ responseOrErrorMessage (fst (readFile fs this kind name)) ≠ "Not a valid file."
  ∧ ∀ (this' : t) (kind' name' : string) (e : exception),
      readFileTry fs this' kind' name' = Throw e →
      readFile fs this' kind' name' = (mkResult false (catchMessage fs e), this')
      ∧ catchMessage fs e ≠ "".
Proof.
  intros Hk.
  assert (E : readFile fs this kind name
              = (mkResult false
                   ("Exception in read callback: "
                    +:+ diagnostic_information fs
                          (InternalCompilerError
                             ("ReadFile callback used as callback kind " +:+ kind))),
                 this)).
  { unfold readFile, readFileTry.
    apply String.eqb_neq in Hk. rewrite Hk. reflexivity. }
  rewrite E. simpl.
  split; [reflexivity|]. split; [discriminate|]. split; [discriminate|].
  split; [discriminate|].
  intros this' kind' name' e Ht. split.
  - unfold readFile. rewrite Ht. reflexivity.
  - destruct e; discriminate.
Qed.

(** C5. [readFile] works on the target of the resolution: the name
    without a literal [file://] prefix, the roots
    [BasePath :: IncludePaths] in this order, for each the candidate
    [normalize(root / strippedName, true)], and of these the first one
    whose entry exists, or the candidate of the last root when none
    exists. Whatever this target is, the answer of [readFile] is the
    answer about it: outside of the allowed directories, not found,
    not a regular file, or its content. A not-found answer is about the
    candidate of the last root and a success about the first existing
    candidate. With the same file below two roots the first root wins;
    a file below the second root only is read from there; a name below
    neither is not found. *)
Theorem readFile_resolution_order (this : t) (name : string) :
  (∀ (strippedName : string) (target : path),
     Resolved.without_scheme name strippedName →
     Resolved.resolution_target fs (m_basePath this :: m_includePaths this)
       strippedName target →
     (checkAllowed fs (effectiveAllowList this) target = Ok false →
      readFile fs this kindString_ReadFile name
      = (mkResult false "File outside of allowed directories.", this))
     ∧ (checkAllowed fs (effectiveAllowList this) target = Ok true →
        fs_exists fs target = Ok false →
        readFile fs this kindString_ReadFile name
        = (mkResult false "File not found.", this))
     ∧ (checkAllowed fs (effectiveAllowList this) target = Ok true →
        fs_exists fs target = Ok true →
        is_regular_file fs target = Ok false →
        readFile fs this kindString_ReadFile name
        = (mkResult false "Not a valid file.", this))
     ∧ (∀ contents,
          checkAllowed fs (effectiveAllowList this) target = Ok true →
          fs_exists fs target = Ok true →
          is_regular_file fs target = Ok true →
          readFileAsString fs target = Ok contents →
          readFile fs this kindString_ReadFile name
          = (mkResult true contents,
             mk (m_basePath this) (m_includePaths this)
                (m_allowedDirectories this)
                (<[name := contents]> (m_sourceCodes this)))))
  ∧ (∀ kind,
       fst (readFile fs this kind name) = mkResult false "File not found." →
       ∃ strippedName target,
         Resolved.without_scheme name strippedName
         ∧ (∀ r, r ∈ m_basePath this :: m_includePaths this →
              missing fs strippedName r)
         ∧ candidate fs strippedName
             (List.last (m_basePath this :: m_includePaths this) "") = Ok target
         ∧ fs_exists fs target = Ok false)
  ∧ (∀ kind,
       success (fst (readFile fs this kind name)) = true →
       ∃ strippedName target,
         Resolved.without_scheme name strippedName
         ∧ first_existing fs strippedName
             (m_basePath this :: m_includePaths this) target
         ∧ readFileAsString fs target
           = Ok (responseOrErrorMessage (fst (readFile fs this kind name))))
  ∧ (fst (readFile Resolved.two_roots_fs (mk "/a" ["/b"] [] ∅) "source" "x.sol")
     = mkResult true "first"
     ∧ fst (readFile Resolved.two_roots_fs (mk "/b" ["/a"] [] ∅) "source" "file://x.sol")
       = mkResult true "second"
     ∧ fst (readFile Resolved.two_roots_fs (mk "/a" ["/b"] [] ∅) "source" "y.sol")
       = mkResult true "below b only"
     ∧ fst (readFile Resolved.two_roots_fs (mk "/a" ["/b"] [] ∅) "source" "z.sol")
       = mkResult false "File not found."
     ∧ candidate Resolved.two_roots_fs "z.sol" "/b" = Ok "/b/z.sol").
Proof.
  split; [|split; [|split]].
  - intros strippedName target Hs Ht.
    apply TargetFacts.without_scheme_spec in Hs. subst strippedName.
    apply TargetFacts.resolution_target_loop in Ht.
    exact (TargetFacts.readFile_on_target fs this name target Ht).
  - intros kind H.
    destruct (TargetFacts.readFile_not_found_inv fs this kind name H)
      as (target & Hres & _ & He).
    destruct (TargetFacts.target_exists_cases fs _ _ _ _ Hres) as [_ Hlast].
    destruct (Hlast He) as [Hmiss Hc].
    exists (stripFileScheme name), target.
    split; [by apply TargetFacts.without_scheme_spec|]. auto.
  - intros kind Hs.
    destruct (readFile fs this kind name) as [r this'] eqn:E. simpl in Hs |- *.
    destruct (ReadFileFacts.readFile_success_inv fs _ _ _ _ _ E Hs)
      as (_ & target & contents & Hres & _ & He & _ & Hread & -> & _).
    destruct (TargetFacts.target_exists_cases fs _ _ _ _ Hres) as [Hfirst _].
    exists (stripFileScheme name), target.
    split; [by apply TargetFacts.without_scheme_spec|].
    split; [exact (Hfirst He) | exact Hread].
  - repeat split; vm_compute; reflexivity.
Qed.

(** C6. [cliPathToSourceUnitName] normalises the path without resolving
    symbolic links and goes through the roots [BasePath] (the normalised
    ["."] when it is empty) and [IncludePaths] in this order: the first
    root that [isPathPrefix] reports as containing the path is stripped
    and what is left is the name; when no root contains the path the
    name is the normalised path. *)
Theorem cliPathToSourceUnitName_described (this : t) (cliPath : path) (name : string) :
  cliPathToSourceUnitName fs this cliPath = Ok name
  ↔ ∃ first normalizedPath,
      (if empty (m_basePath this) then normalizeCLIPathForVFS fs "." false
       else Ok (m_basePath this)) = Ok first
      ∧ normalizeCLIPathForVFS fs cliPath false = Ok normalizedPath
      ∧ (first_containing_root_stripped (first :: m_includePaths this)
           normalizedPath name
         ∨ unscoped (first :: m_includePaths this) normalizedPath name).
Proof.
  unfold cliPathToSourceUnitName, resolveSymlinksDefault. split.
  - intros H. bind_inv H. bind_inv H. bind_inv H.
    injection H as <-.
    exists a, a0. repeat split; auto.
    apply ResolutionFacts.stripFirstPrefix_described. exact Ha1.
  - intros (first & np & Hf & Hn & Hs).
    apply ResolutionFacts.stripFirstPrefix_described in Hs.
    rewrite Hf.
    cbn -[normalizeCLIPathForVFS stripFirstPrefix].
    rewrite Hn.
    cbn -[normalizeCLIPathForVFS stripFirstPrefix].
    rewrite Hs. reflexivity.
Qed.

(** What a successful [readFile] returns and stores: the content read
    from the resolved target, under the name it was called with. *)
Lemma readFile_success_caches (this : t) (kind name : string) (r : Result) (this' : t) :
  readFile fs this kind name = (r, this') →
  success r = true →
  ∃ target,
    resolveCandidates fs (stripFileScheme name) (readFilePrefixes this) ""
      = Ok target
    ∧ readFileAsString fs target = Ok (responseOrErrorMessage r)
    ∧ m_sourceCodes this'
      = <[name := responseOrErrorMessage r]> (m_sourceCodes this)
    ∧ m_sourceCodes this' !! name = Some (responseOrErrorMessage r).
Proof.
  intros E Hs.
  destruct (ReadFileFacts.readFile_success_inv fs _ _ _ _ _ E Hs)
    as (_ & target & contents & Hres & _ & _ & _ & Hread & -> & ->).
  exists target. simpl. repeat split; auto.
  apply lookup_insert_eq.
Qed.

(** C9. A failing [readFile] changes nothing; no call changes the
    configuration; and the cache differs afterwards only when the call
    succeeded, by the one entry written after the content was read. *)
Theorem readFile_failure_atomic (this : t) (kind name : string) :
  (success (fst (readFile fs this kind name)) = false →
   snd (readFile fs this kind name) = this)
  ∧ (m_basePath (snd (readFile fs this kind name)) = m_basePath this
     ∧ m_includePaths (snd (readFile fs this kind name)) = m_includePaths this
     ∧ m_allowedDirectories (snd (readFile fs this kind name))
       = m_allowedDirectories this)
  ∧ (m_sourceCodes (snd (readFile fs this kind name)) ≠ m_sourceCodes this →
     success (fst (readFile fs this kind name)) = true
     ∧ ∃ target contents,
         readFileAsString fs target = Ok contents
         ∧ m_sourceCodes (snd (readFile fs this kind name))
           = <[name := contents]> (m_sourceCodes this)).
Proof.
  pose proof (ReadFileFacts.readFile_failure_state fs this kind name) as Hf.
  destruct (readFile fs this kind name) as [r this'] eqn:E. simpl in *.
  destruct (success r) eqn:Hs.
  - destruct (ReadFileFacts.readFile_success_inv fs _ _ _ _ _ E Hs)
      as (_ & target & contents & _ & _ & _ & _ & Hread & -> & ->).
    simpl. split; [discriminate|]. split; [auto|].
    intros _. split; [reflexivity|]. exists target, contents. auto.
  - rewrite (Hf eq_refl). split; [reflexivity|]. split; [auto|].
    intros H. contradiction.
Qed.

End ReadFileProperties.

(** * Normalisation, the prefix guard and the cache *)

Section PathProperties.
Import Boost Shape FileReader Cut TreeFS.

(** C2. With symbolic links resolved the normalisation is not
    idempotent. ["."] gives the working directory with the trailing
    slash the code forces for the inputs ["."], ["./"] and ["../"];
    that path, normalised again, loses the slash, as does every path
    to a directory that exists: the canonical form of the existing
    part has none, and the code puts it back for those three inputs
    only. Without resolving symbolic links, and for a directory that
    does not exist, the slash is kept (as the dot element). *)
Lemma normalize_resolving_not_idempotent :
  normalizeCLIPathForVFS scenario_fs "." true = Ok "/project/"
  ∧ normalizeCLIPathForVFS scenario_fs "/project/" true = Ok "/project"
  ∧ normalizeCLIPathForVFS scenario_fs "/project/" true ≠ Ok "/project/"
  ∧ path_eqb "/project" "/project/" = false
  ∧ normalizeCLIPathForVFS scenario_fs "/project/" false = Ok "/project/."
  ∧ path_eqb "/project/." "/project/" = true
  ∧ normalizeCLIPathForVFS scenario_fs "contracts/" true = Ok "/project/contracts"
  ∧ normalizeCLIPathForVFS scenario_fs "contracts/" false
    = Ok "/project/contracts/."
  ∧ normalizeCLIPathForVFS scenario_fs "/nowhere/" true = Ok "/nowhere/.".
Proof. repeat split; (vm_compute; (reflexivity || discriminate)). Qed.

(** X19. Without resolving symbolic links the normalisation is
    idempotent: in a working directory that is an absolute path without
    a root name, every path has a normal form, and normalising that
    again gives the same path. *)
Theorem normalize_lexical_idempotent (fs : FileSystem) (cur cwd p : path) :
  current_path fs = Ok cur →
  weakly_canonical fs cur = Ok cwd →
  posix_absolute cwd →
  ∃ q, normalizeCLIPathForVFS fs p false = Ok q
       ∧ normalizeCLIPathForVFS fs q false = Ok q.
Proof.
  intros Hcur Hcwd Hposix.
  destruct (NormalizeFacts.normalize_lexical_total fs cur cwd p Hcur Hcwd Hposix)
    as (q & Hq).
  exists q. split; [exact Hq|].
  destruct (NormalizeFacts.normalize_lexical_clean fs p q Hq) as (L & HL & ->).
  exact (NormalizeFacts.normalize_lexical_fixed fs cur cwd L Hcur Hcwd Hposix HL).
Qed.

Lemma normalize_lexical_idempotent_witness :
  ∃ q, normalizeCLIPathForVFS scenario_fs "contracts//../lib/./x.sol/" false = Ok q
       ∧ normalizeCLIPathForVFS scenario_fs q false = Ok q.
Proof.
  apply (normalize_lexical_idempotent scenario_fs "/project" "/project"
           "contracts//../lib/./x.sol/").
  - reflexivity.
  - vm_compute; reflexivity.
  - exists ["project"]. vm_compute; reflexivity.
Defined.




(** C7. For arguments that pass the assertions (not empty, absolute or
    rooted, normalised, without [".."]), [isPathPrefix] takes a prefix
    whose last element is a dot for its parent directory (which gives
    the same answer), and answers that the path is contained exactly
    when what is left of it relative to that prefix is not empty and
    does not start with [".."]; what is left of a path relative to
    itself is the dot, so that every such path contains itself. *)
Theorem isPathPrefix_contract (prefix path : path) :
  guarded prefix = true →
  guarded path = true →
  isPathPrefix prefix path
  = Ok (negb (empty (lexically_relative path
                       (if filename_is_dot prefix then parent_path prefix
                        else prefix)))
        && negb (path_eqb
                   (List.hd ""
                      (elements
                         (lexically_relative path
                            (if filename_is_dot prefix then parent_path prefix
                             else prefix))))
                   ".."))
  ∧ (filename_is_dot prefix = true →
     isPathPrefix prefix path = isPathPrefix (parent_path prefix) path)
  ∧ lexically_relative path
      (if filename_is_dot path then parent_path path else path) = "."
  ∧ isPathPrefix path path = Ok true.
Proof.
  intros Hprefix Hpath. split; [|split; [|split]].
  - rewrite PrefixFacts.isPathPrefix_guarded, Hprefix, Hpath. reflexivity.
  - intros Hdot.
    exact (proj2 (proj2 (PrefixFacts.isPathPrefix_dot_prefix prefix path
                           Hprefix Hdot))).
  - exact (PrefixFacts.lexically_relative_self path Hpath).
  - exact (PrefixFacts.isPathPrefix_self path Hpath).
Qed.

Lemma isPathPrefix_contract_witness :
  isPathPrefix "/project/." "/project/contracts/A.sol" = Ok true
  ∧ isPathPrefix "/project/." "/project/contracts/A.sol"
    = isPathPrefix "/project" "/project/contracts/A.sol"
  ∧ lexically_relative "/project/contracts/A.sol" "/project"
    = "contracts/A.sol"
  ∧ isPathPrefix "/project/contracts/A.sol" "/project/contracts/A.sol" = Ok true.
Proof.
  destruct (isPathPrefix_contract "/project/." "/project/contracts/A.sol")
    as (H1 & H2 & _ & H4); [vm_compute; reflexivity | vm_compute; reflexivity |].
  split; [rewrite H1; vm_compute; reflexivity|].
  split; [exact (H2 eq_refl)|].
  split; [vm_compute; reflexivity | exact H4].
Defined.

(** C8. A successful [readFile] returns the content read from the
    resolved target and stores it in the cache under the name it was
    called with, a [file://] prefix included; with base path [/project]
    and the regular file [/project/contracts/A.sol],
    [readFile("source", "contracts/A.sol")] succeeds with the content
    of the file, which the cache then holds under
    ["contracts/A.sol"]. *)
Theorem readFile_success_returns_and_caches :
  (∀ (fs : FileSystem) (this : t) (kind name : string) (r : Result) (this' : t),
     readFile fs this kind name = (r, this') →
     success r = true →
     ∃ target,
       resolveCandidates fs (stripFileScheme name) (readFilePrefixes this) ""
         = Ok target
       ∧ readFileAsString fs target = Ok (responseOrErrorMessage r)
       ∧ m_sourceCodes this'
         = <[name := responseOrErrorMessage r]> (m_sourceCodes this)
       ∧ m_sourceCodes this' !! name = Some (responseOrErrorMessage r))
  ∧ (fst (readFile scenario_fs scenario_reader "source" "contracts/A.sol")
     = mkResult true "contract A {}"
     ∧ readFileAsString scenario_fs "/project/contracts/A.sol"
       = Ok "contract A {}"
     ∧ m_sourceCodes
         (snd (readFile scenario_fs scenario_reader "source" "contracts/A.sol"))
       !! "contracts/A.sol" = Some "contract A {}")
  ∧ (fst (readFile scenario_fs scenario_reader "source" "file://contracts/A.sol")
     = mkResult true "contract A {}"
     ∧ m_sourceCodes
         (snd (readFile scenario_fs scenario_reader "source"
                 "file://contracts/A.sol"))
       !! "file://contracts/A.sol" = Some "contract A {}"
     ∧ m_sourceCodes
         (snd (readFile scenario_fs scenario_reader "source"
                 "file://contracts/A.sol"))
       !! "contracts/A.sol" = None).
Proof.
  split; [|split].
  - intros fs this kind name r this' E Hs.
    exact (readFile_success_caches fs this kind name r this' E Hs).
  - repeat split; vm_compute; reflexivity.
  - repeat split; vm_compute; reflexivity.
Qed.

End PathProperties.

(** * The scenarios of the specification, run on the concrete tree *)

Section Scenarios.
Import Boost FileReader TreeFS.

Lemma readFile_wrong_kind_witness :
  readFile scenario_fs scenario_reader "not-a-real-kind" "anything"
  = (mkResult false
       "Exception in read callback: ReadFile callback used as callback kind not-a-real-kind",
     scenario_reader).
Proof.
  destruct (readFile_wrong_kind scenario_fs scenario_reader
              "not-a-real-kind" "anything") as [E _]; [discriminate|].
  rewrite E. reflexivity.
Defined.

(** Scenario B: a name that climbs out of the base path is refused. *)
Example scenario_outside_base_path :
  fst (readFile scenario_fs scenario_reader "source" "../../etc/passwd")
  = mkResult false "File outside of allowed directories."
  ∧ fst (readFile scenario_fs scenario_reader "source" "../etc/passwd")
    = mkResult false "File outside of allowed directories."
  ∧ resolveCandidates scenario_fs "../etc/passwd" ["/project"] ""
    = Ok "/etc/passwd".
Proof. repeat split; vm_compute; reflexivity. Qed.

(** Scenario C: the file is found below the include path. *)
Example scenario_include_path :
  fst (readFile scenario_fs scenario_reader_libs "source" "Token.sol")
  = mkResult true "contract Token {}"
  ∧ resolveCandidates scenario_fs "Token.sol" ["/project"; "/libs"] ""
    = Ok "/libs/Token.sol".
Proof. repeat split; vm_compute; reflexivity. Qed.

(** Scenario E: a directory is not a valid file; a missing file is not
    found, and the path reported missing is the candidate of the last
    root. *)
Example scenario_directory_and_missing :
  fst (readFile scenario_fs scenario_reader "source" "contracts")
  = mkResult false "Not a valid file."
  ∧ fst (readFile scenario_fs scenario_reader_libs "source" "Missing.sol")
    = mkResult false "File not found."
  ∧ resolveCandidates scenario_fs "Missing.sol" ["/project"; "/libs"] ""
    = Ok "/libs/Missing.sol".
Proof. repeat split; vm_compute; reflexivity. Qed.

(** Source unit names of the scenario tree. *)
Example scenario_source_unit_names :
  cliPathToSourceUnitName scenario_fs scenario_reader_libs "contracts/A.sol"
  = Ok "contracts/A.sol"
  ∧ cliPathToSourceUnitName scenario_fs scenario_reader_libs "/libs/Token.sol"
    = Ok "Token.sol"
  ∧ cliPathToSourceUnitName scenario_fs scenario_reader_libs "/etc/passwd"
    = Ok "/etc/passwd".
Proof. repeat split; vm_compute; reflexivity. Qed.

End Scenarios.

(** * Further properties of the path functions *)

Section ContainmentProperties.
Import Boost Shape Notions FileReader Cut.

(** X1. For a prefix and a path that pass the assertions of
    [isPathPrefix], the answer is that the path is contained exactly
    when the elements of the prefix, a final dot element left out, are
    the leading elements of the path: containment goes by whole
    elements, never by characters. *)
Theorem isPathPrefix_leading_elements (prefix path : path) :
  guarded prefix = true →
  guarded path = true →
  isPathPrefix prefix path
  = Ok (bool_decide
          (elements (if filename_is_dot prefix then parent_path prefix else prefix)
           `prefix_of` elements path)).
Proof. exact (ContainmentFacts.isPathPrefix_elements prefix path). Qed.

Lemma isPathPrefix_leading_elements_witness :
  isPathPrefix "/project/." "/project/contracts/A.sol" = Ok true
  ∧ isPathPrefix "/project/con" "/project/contracts/A.sol" = Ok false.
Proof.
  split.
  - rewrite (isPathPrefix_leading_elements "/project/." "/project/contracts/A.sol");
      vm_compute; reflexivity.
  - rewrite (isPathPrefix_leading_elements "/project/con" "/project/contracts/A.sol");
      vm_compute; reflexivity.
Defined.

(** X2. Containment is transitive: for three paths that pass the
    assertions, a path inside a directory that is inside another
    directory is inside that other directory. *)
Theorem isPathPrefix_transitive (a b c : path) :
  guarded a = true → guarded b = true → guarded c = true →
  isPathPrefix a b = Ok true →
  isPathPrefix b c = Ok true →
  isPathPrefix a c = Ok true.
Proof.
  intros Ha Hb Hc.
  rewrite !ContainmentFacts.isPathPrefix_elements by assumption.
  intros Hab Hbc. injection Hab as Hab. injection Hbc as Hbc.
  apply bool_decide_eq_true in Hab, Hbc.
  f_equal. apply bool_decide_eq_true.
  destruct (ContainmentFacts.prefixBase_guarded a Ha) as (_ & _ & Hplain).
  transitivity (elements (prefixBase b)); [|exact Hbc].
  destruct (ContainmentFacts.prefixBase_elements b Hb) as [E|E].
  - rewrite <- E. exact Hab.
  - rewrite E in Hab. exact (ContainmentFacts.prefix_of_before_dot _ _ Hplain Hab).
Qed.

Lemma isPathPrefix_transitive_witness :
  isPathPrefix "/project" "/project/contracts/A.sol" = Ok true.
Proof.
  apply (isPathPrefix_transitive "/project" "/project/contracts/."
           "/project/contracts/A.sol"); vm_compute; reflexivity.
Defined.

(** X3. For a prefix and a path that pass the assertions,
    [stripPrefixIfPresent] never fails. A path outside the prefix is
    returned unchanged. For a path inside it the result is the dot
    when the path has the elements of the prefix (a final dot element
    left out) and no more, and otherwise the non-empty rest: the
    elements of the path are those of the prefix followed by those of
    the result. *)
Theorem stripPrefixIfPresent_remainder (prefix path : path) :
  guarded prefix = true →
  guarded path = true →
  ∃ stripped,
    stripPrefixIfPresent prefix path = Ok stripped
    ∧ (isPathPrefix prefix path = Ok false → stripped = path)
    ∧ (isPathPrefix prefix path = Ok true →
       (stripped = "."
        ∧ elements path
          = elements (if filename_is_dot prefix then parent_path prefix
                      else prefix))
       ∨ (elements path
          = elements (if filename_is_dot prefix then parent_path prefix
                      else prefix)
            ++ elements stripped
          ∧ elements stripped ≠ [])).
Proof.
  intros Hg Hg'. unfold stripPrefixIfPresent.
  pose proof (PrefixFacts.isPathPrefix_guarded prefix path) as Htest.
  rewrite Hg, Hg' in Htest. cbn [andb] in Htest.
  pose proof (ContainmentFacts.isPathPrefix_elements prefix path Hg Hg') as Hel.
  rewrite Htest. cbn [mbind result_bind].
  destruct (negb (empty (lexically_relative path (prefixBase prefix)))
            && negb (path_eqb
                       (List.hd ""
                          (elements (lexically_relative path (prefixBase prefix))))
                       "..")) eqn:Et.
  - cbn [negb]. apply andb_true_iff in Et. destruct Et as [_ Et].
    unfold solAssert. rewrite Et, orb_true_r. cbn [mbind result_bind].
    eexists. split; [reflexivity|]. split; [discriminate|]. intros _.
    rewrite Htest in Hel. injection Hel as Hel. symmetry in Hel.
    apply bool_decide_eq_true in Hel.
    destruct (ContainmentFacts.prefixBase_guarded prefix Hg) as (_ & Hne & _).
    destruct (ContainmentFacts.relative_contained path (prefixBase prefix) Hne Hel)
      as [H|(H1 & H2 & _)]; [left; exact H | right; split; assumption].
  - cbn [negb]. eexists. split; [reflexivity|].
    split; [reflexivity | discriminate].
Qed.

Lemma stripPrefixIfPresent_remainder_witness :
  ∃ stripped,
    stripPrefixIfPresent "/project/." "/project/contracts/A.sol" = Ok stripped
    ∧ elements "/project/contracts/A.sol" = elements "/project" ++ elements stripped.
Proof.
  destruct (stripPrefixIfPresent_remainder "/project/." "/project/contracts/A.sol")
    as (stripped & Hs & _ & Hin); [vm_compute; reflexivity..|].
  exists stripped. split; [exact Hs|].
  destruct Hin as [[Hdot _]|[Hrest _]]; [vm_compute; reflexivity | |exact Hrest].
  rewrite Hdot in Hs. vm_compute in Hs. discriminate.
Defined.

End ContainmentProperties.

(** * Further properties of the reader's configuration and names *)

Section ReaderProperties.
Import Boost Shape Notions FileReader Cut TreeFS.

Lemma scenario_reader_libs_well_formed : well_formed scenario_reader_libs.
Proof.
  apply (ReaderFacts.create_Ok scenario_fs "/project" ["/libs"] []).
  vm_compute. reflexivity.
Qed.

Lemma scenario_posix : posix_absolute "/project".
Proof. exists ["project"]. reflexivity. Qed.

(** X4. Paths normalised without resolving symbolic links pass every
    assertion of [isPathPrefix] and [stripPrefixIfPresent]: on two
    results of [normalizeCLIPathForVFS] neither function fails. *)
Theorem normalised_paths_accepted (fs : FileSystem) (a b a' b' : path) :
  normalizeCLIPathForVFS fs a false = Ok a' →
  normalizeCLIPathForVFS fs b false = Ok b' →
  ∃ contained stripped,
    isPathPrefix a' b' = Ok contained
    ∧ stripPrefixIfPresent a' b' = Ok stripped.
Proof.
  intros Ha Hb.
  pose proof (ReaderFacts.normalised_guarded _
                (ReaderFacts.normalize_normalised fs _ _ Ha)) as Hga.
  pose proof (ReaderFacts.normalised_guarded _
                (ReaderFacts.normalize_normalised fs _ _ Hb)) as Hgb.
  pose proof (ContainmentFacts.isPathPrefix_elements a' b' Hga Hgb) as H.
  destruct (bool_decide _) eqn:E in H.
  - exists true. eexists. split; [exact H|].
    exact (ResolutionFacts.isPathPrefix_true_strip a' b' H).
  - exists false, b'. split; [exact H|].
    unfold stripPrefixIfPresent. rewrite H. reflexivity.
Qed.

Lemma normalised_paths_accepted_witness :
  ∃ contained stripped,
    isPathPrefix "/project/." "/project/contracts/A.sol" = Ok contained
    ∧ stripPrefixIfPresent "/project/." "/project/contracts/A.sol" = Ok stripped.
Proof.
  apply (normalised_paths_accepted scenario_fs "." "contracts/../contracts/A.sol");
    vm_compute; reflexivity.
Defined.

(** X5. The configuration functions keep the reader well formed: after
    a successful [setBasePath], [addIncludePath] or [allowDirectory] on
    a well-formed reader, an empty base path still goes with no include
    path, the base path and the include paths are normalised paths and
    no allowed directory is the empty path. *)
Theorem configuration_keeps_well_formed (fs : FileSystem) (this this' : t)
    (p : path) :
  well_formed this →
  setBasePath fs this p = Ok this'
  ∨ addIncludePath fs this p = Ok this'
  ∨ allowDirectory this p = Ok this' →
  well_formed this'.
Proof.
  intros Hwf [H|[H|H]].
  - exact (ReaderFacts.setBasePath_well_formed fs this p this' Hwf H).
  - exact (ReaderFacts.addIncludePath_well_formed fs this p this' Hwf H).
  - exact (ReaderFacts.allowDirectory_well_formed this p this' Hwf H).
Qed.

Lemma configuration_keeps_well_formed_witness :
  well_formed (mk "/project" ["/libs"; "/etc/."] [] ∅).
Proof.
  apply (configuration_keeps_well_formed scenario_fs scenario_reader_libs _
           "../etc/.");
    [exact scenario_reader_libs_well_formed|].
  right. left. vm_compute. reflexivity.
Defined.

(** X6. A reader the constructor returns is well formed; it holds the
    allowed directories it was given, an empty cache, the normalised
    base path (or the empty one, and then no include path was given)
    and the normalised include paths in the order given. *)
Theorem create_well_formed (fs : FileSystem) (base : path) (includes : list path)
    (allowed : FileSystemPathSet) (this : t) :
  create fs base includes allowed = Ok this →
  well_formed this
  ∧ m_allowedDirectories this = allowed
  ∧ m_sourceCodes this = ∅
  ∧ (if empty base then m_basePath this = "" ∧ includes = []
     else normalizeCLIPathForVFS fs base false = Ok (m_basePath this))
  ∧ Forall2 (λ p q, normalizeCLIPathForVFS fs p false = Ok q)
      includes (m_includePaths this).
Proof. exact (ReaderFacts.create_Ok fs base includes allowed this). Qed.

Lemma create_well_formed_witness :
  well_formed (mk "/project" ["/libs/."] ["/etc"] ∅).
Proof.
  apply (create_well_formed scenario_fs "contracts/.." ["/libs/."] ["/etc"]).
  vm_compute. reflexivity.
Defined.

(** X7. Misuse of the configuration functions is answered with an
    internal compiler error: an include path for a reader without base
    path, an empty include path, an empty base path for a reader with
    include paths, an empty allowed directory, and a constructor call
    with include paths but an empty base path; a constructor call with
    the empty path among the allowed directories returns no reader. *)
Theorem configuration_misuse_throws (fs : FileSystem) :
  (∀ this p, m_basePath this = "" →
     addIncludePath fs this p = Throw (InternalCompilerError ""))
  ∧ (∀ this, addIncludePath fs this "" = Throw (InternalCompilerError ""))
  ∧ (∀ this, m_includePaths this ≠ [] →
       setBasePath fs this "" = Throw (InternalCompilerError ""))
  ∧ (∀ this, allowDirectory this "" = Throw (InternalCompilerError ""))
  ∧ (∀ p l allowed,
       create fs "" (p :: l) allowed = Throw (InternalCompilerError ""))
  ∧ (∀ base includes allowed this,
       "" ∈ allowed → create fs base includes allowed ≠ Ok this).
Proof.
  split; [|split; [|split; [|split; [|split]]]].
  - intros this p E. unfold addIncludePath. rewrite E. reflexivity.
  - intros this. unfold addIncludePath.
    destruct (empty (m_basePath this)); reflexivity.
  - intros this Hne. unfold setBasePath. cbn [empty String.eqb].
    rewrite bool_decide_eq_false_2 by exact Hne. reflexivity.
  - intros this. reflexivity.
  - intros p l allowed. unfold create, setBasePath. cbn [empty String.eqb].
    rewrite bool_decide_eq_true_2 by reflexivity.
    cbn [solAssert mbind result_bind foldl].
    unfold addIncludePath at 2. cbn [m_basePath empty String.eqb negb solAssert].
    cbn [mbind result_bind].
    rewrite ReaderFacts.addIncludePaths_throw. reflexivity.
  - intros base includes allowed this Hin H.
    apply ReaderFacts.create_Ok in H. destruct H as (Hwf & E & _).
    pose proof (wf_allowed _ Hwf) as Ha. rewrite E, Forall_forall in Ha.
    exact (Ha "" Hin eq_refl).
Qed.

(** X8. On a well-formed reader, in a process whose working directory
    is an absolute POSIX path, [cliPathToSourceUnitName] gives every
    path a name: none of the assertions on its way fails. [setSource]
    then stores the source under that name and changes nothing else. *)
Theorem cliPathToSourceUnitName_never_fails (fs : FileSystem) (this : t)
    (cur cwd cliPath : path) (source : string) :
  well_formed this →
  current_path fs = Ok cur →
  weakly_canonical fs cur = Ok cwd →
  posix_absolute cwd →
  ∃ name,
    cliPathToSourceUnitName fs this cliPath = Ok name
    ∧ setSource fs this cliPath source
      = Ok (mk (m_basePath this) (m_includePaths this) (m_allowedDirectories this)
               (<[name := source]> (m_sourceCodes this))).
Proof.
  intros Hwf Hcur Hcwd Hposix.
  destruct (ReaderFacts.cliPathToSourceUnitName_returns fs this cur cwd cliPath
              Hwf Hcur Hcwd Hposix) as [name Hname].
  exists name. split; [exact Hname|].
  unfold setSource. rewrite Hname. reflexivity.
Qed.

Lemma cliPathToSourceUnitName_never_fails_witness :
  ∃ name,
    cliPathToSourceUnitName scenario_fs scenario_reader_libs "../libs/Token.sol"
      = Ok name
    ∧ setSource scenario_fs scenario_reader_libs "../libs/Token.sol" "contract T {}"
      = Ok (mk "/project" ["/libs"] [] (<[name := "contract T {}"]> ∅)).
Proof.
  apply (cliPathToSourceUnitName_never_fails scenario_fs scenario_reader_libs
           "/project" "/project");
    [exact scenario_reader_libs_well_formed | vm_compute; reflexivity
    | vm_compute; reflexivity | exact scenario_posix].
Defined.

(** X9. On a well-formed reader the name [cliPathToSourceUnitName]
    returns is the normalised path itself, or belongs to one of the
    roots (the base path, or the normalised ["."] when it is empty,
    and the include paths) that contains the normalised path: then it
    is the dot when the path is that root (a final dot element left
    out), and otherwise a relative path made of names only which,
    appended to that root, gives the normalised path back. *)
Theorem cliPathToSourceUnitName_round_trip (fs : FileSystem) (this : t)
    (cliPath : path) (name : string) :
  well_formed this →
  cliPathToSourceUnitName fs this cliPath = Ok name →
  ∃ first np,
    (if empty (m_basePath this) then normalizeCLIPathForVFS fs "." false
     else Ok (m_basePath this)) = Ok first
    ∧ normalizeCLIPathForVFS fs cliPath false = Ok np
    ∧ (name = np
       ∨ ∃ root, root ∈ first :: m_includePaths this
           ∧ isPathPrefix root np = Ok true
           ∧ ((name = "."
               ∧ np = (if filename_is_dot root then parent_path root else root))
              ∨ (append (if filename_is_dot root then parent_path root else root)
                        name = np
                 ∧ Forall Shape.name (elements name)))).
Proof. exact (ReaderFacts.source_unit_name_put_back fs this cliPath name). Qed.

Lemma cliPathToSourceUnitName_round_trip_witness :
  cliPathToSourceUnitName scenario_fs scenario_reader_libs "../libs/Token.sol"
    = Ok "Token.sol"
  ∧ append "/libs" "Token.sol" = "/libs/Token.sol"
  ∧ ∃ first np,
      Ok "/project" = Ok first
      ∧ normalizeCLIPathForVFS scenario_fs "../libs/Token.sol" false = Ok np.
Proof.
  split; [vm_compute; reflexivity|]. split; [vm_compute; reflexivity|].
  destruct (cliPathToSourceUnitName_round_trip scenario_fs scenario_reader_libs
              "../libs/Token.sol" "Token.sol")
    as (first & np & H1 & H2 & _);
    [exact scenario_reader_libs_well_formed | vm_compute; reflexivity|].
  exists first, np. split; [exact H1 | exact H2].
Defined.

End ReaderProperties.

(** * Further properties of reading and the cache *)

Section CacheProperties.
Import Boost Shape Notions FileReader Cut TreeFS.

(** X10. [readFile] never answers from the cache: whatever sources the
    cache has been set to, the result is the one the reader gives with
    its own cache, and the cache afterwards is the one it was set to,
    with the content read stored under the name when the call
    succeeded. *)
Theorem readFile_ignores_cache (fs : FileSystem) (this : t)
    (sources : gmap string string) (kind name : string) :
  fst (readFile fs (setSources this sources) kind name)
  = fst (readFile fs this kind name)
  ∧ m_sourceCodes (snd (readFile fs (setSources this sources) kind name))
    = (if success (fst (readFile fs this kind name))
       then <[name := responseOrErrorMessage (fst (readFile fs this kind name))]>
              sources
       else sources).
Proof.
  rewrite !CacheFacts.readFile_outcome, CacheFacts.readOutcome_sources.
  destruct (readOutcome fs this kind (stripFileScheme name)) as [r|e];
    cbn [fst snd success]; [|split; reflexivity].
  split; [reflexivity|]. unfold cached. destruct (success r); reflexivity.
Qed.

(** X11. Reading the same name again gives the same result and leaves
    the reader as the first call left it. *)
Theorem readFile_repeated (fs : FileSystem) (this : t) (kind name : string) :
  readFile fs (snd (readFile fs this kind name)) kind name
  = readFile fs this kind name.
Proof.
  rewrite (CacheFacts.readFile_outcome fs this).
  destruct (readOutcome fs this kind (stripFileScheme name)) as [r|e] eqn:E;
    cbn [snd]; rewrite CacheFacts.readFile_outcome.
  - assert (E' : readOutcome fs (cached this name r) kind (stripFileScheme name)
                 = Ok r).
    { rewrite <- E. unfold cached. destruct (success r); reflexivity. }
    rewrite E'. f_equal. unfold cached.
    destruct (success r) eqn:Hs; cbn [m_sourceCodes m_basePath m_includePaths
                                       m_allowedDirectories];
      rewrite ?Hs; [|reflexivity].
    rewrite insert_insert_eq. reflexivity.
  - rewrite E. reflexivity.
Qed.

(** X12. A name given with the [file://] scheme is read as the name
    without it, provided that name does not start with the scheme
    again (the scheme is stripped once only); the content is cached
    under the name as given, scheme included. *)
Theorem readFile_file_scheme (fs : FileSystem) (this : t) (kind name : string) :
  starts_with "file://" name = false →
  fst (readFile fs this kind ("file://" +:+ name)) = fst (readFile fs this kind name)
  ∧ m_sourceCodes (snd (readFile fs this kind ("file://" +:+ name)))
    = (if success (fst (readFile fs this kind name))
       then <["file://" +:+ name
              := responseOrErrorMessage (fst (readFile fs this kind name))]>
              (m_sourceCodes this)
       else m_sourceCodes this).
Proof.
  intros Hname. rewrite !CacheFacts.readFile_outcome.
  rewrite CacheFacts.stripFileScheme_scheme.
  unfold stripFileScheme at 1 2 3. rewrite Hname.
  destruct (readOutcome fs this kind name) as [r|e];
    cbn [fst snd success]; [|split; reflexivity].
  split; [reflexivity|]. unfold cached. destruct (success r); reflexivity.
Qed.

Lemma readFile_file_scheme_witness :
  fst (readFile scenario_fs scenario_reader "source" "file://contracts/A.sol")
  = mkResult true "contract A {}"
  ∧ m_sourceCodes
      (snd (readFile scenario_fs scenario_reader "source" "file://contracts/A.sol"))
    = <["file://contracts/A.sol" := "contract A {}"]> ∅.
Proof.
  destruct (readFile_file_scheme scenario_fs scenario_reader "source"
              "contracts/A.sol") as [H1 H2]; [reflexivity|].
  split.
  - transitivity (fst (readFile scenario_fs scenario_reader "source"
                         "contracts/A.sol")); [exact H1 | vm_compute; reflexivity].
  - etransitivity; [exact H2 | vm_compute; reflexivity].
Defined.

(** X18. The checks of [readFile] come in the order allowed, exists,
    regular: a successful call has read a target that exists and is a
    regular file, and the answer "Not a valid file." is given only for
    a target inside the allowed directories that exists and is not a
    regular file. *)
Theorem readFile_checks_in_order (fs : FileSystem) (this : t) (kind name : string) :
  (success (fst (readFile fs this kind name)) = true →
   ∃ target,
     resolveCandidates fs (stripFileScheme name) (readFilePrefixes this) ""
       = Ok target
     ∧ checkAllowed fs (effectiveAllowList this) target = Ok true
     ∧ fs_exists fs target = Ok true
     ∧ is_regular_file fs target = Ok true)
  ∧ (fst (readFile fs this kind name) = mkResult false "Not a valid file." →
     ∃ target,
       resolveCandidates fs (stripFileScheme name) (readFilePrefixes this) ""
         = Ok target
       ∧ checkAllowed fs (effectiveAllowList this) target = Ok true
       ∧ fs_exists fs target = Ok true
       ∧ is_regular_file fs target = Ok false).
Proof.
  rewrite CacheFacts.readFile_outcome. unfold readOutcome.
  destruct (negb (String.eqb kind kindString_ReadFile));
    cbn [mbind result_bind fst success];
    [split; intros H; [discriminate | injection H as H; discriminate]|].
  destruct (resolveCandidates fs (stripFileScheme name) (readFilePrefixes this) "")
    as [target|e] eqn:E1; cbn [mbind result_bind fst success];
    [|split; intros H; [discriminate | destruct e; injection H as H; discriminate]].
  destruct (checkAllowed fs (effectiveAllowList this) target) as [[|]|e] eqn:E2;
    cbn [mbind result_bind fst success negb];
    [| split; intros H; discriminate
     | split; intros H; [discriminate | destruct e; injection H as H; discriminate]].
  destruct (fs_exists fs target) as [[|]|e] eqn:E3;
    cbn [mbind result_bind fst success negb];
    [| split; intros H; discriminate
     | split; intros H; [discriminate | destruct e; injection H as H; discriminate]].
  destruct (is_regular_file fs target) as [[|]|e] eqn:E4;
    cbn [mbind result_bind fst success negb];
    [| split; intros H; [discriminate | exists target; auto]
     | split; intros H; [discriminate | destruct e; injection H as H; discriminate]].
  destruct (readFileAsString fs target) as [contents|e];
    cbn [mbind result_bind fst success negb];
    [split; intros H; [exists target; auto | discriminate]
    | split; intros H; [discriminate | destruct e; injection H as H; discriminate]].
Qed.

End CacheProperties.

(** * Further properties: names, dot-dot segments, the working
      directory and allowed directories *)

Section MoreProperties.
Import Boost Shape Notions FileReader Cut TreeFS.

(** X13. The source unit name goes by the normalised path: two
    spellings with the same normalisation get the same name, so that
    [setSource] through the second spelling replaces the source stored
    through the first. *)
Theorem source_unit_name_by_normalised_path (fs : FileSystem) (this : t)
    (a b : path) :
  normalizeCLIPathForVFS fs a false = normalizeCLIPathForVFS fs b false →
  cliPathToSourceUnitName fs this a = cliPathToSourceUnitName fs this b
  ∧ ∀ (s1 s2 : string) (this1 this2 : t),
      setSource fs this a s1 = Ok this1 →
      setSource fs this1 b s2 = Ok this2 →
      setSource fs this b s2 = Ok this2.
Proof.
  intros H.
  assert (Hname : ∀ that, cliPathToSourceUnitName fs that a
                          = cliPathToSourceUnitName fs that b).
  { intros that. unfold cliPathToSourceUnitName, resolveSymlinksDefault.
    destruct (if empty (m_basePath that) then normalizeCLIPathForVFS fs "." false
              else Ok (m_basePath that)); [|reflexivity].
    cbn [mbind result_bind]. rewrite H. reflexivity. }
  split; [exact (Hname this)|].
  intros s1 s2 this1 this2 H1 H2. unfold setSource in *.
  rewrite (Hname this) in H1. bind_inv H1. injection H1 as <-.
  change (cliPathToSourceUnitName fs
            (mk (m_basePath this) (m_includePaths this) (m_allowedDirectories this)
                (<[a0 := s1]> (m_sourceCodes this))) b)
    with (cliPathToSourceUnitName fs this b) in H2.
  rewrite Ha in H2 |- *. cbn [mbind result_bind] in H2 |- *.
  cbn [m_basePath m_includePaths m_allowedDirectories m_sourceCodes] in H2.
  rewrite insert_insert_eq in H2. exact H2.
Qed.

Lemma source_unit_name_by_normalised_path_witness :
  cliPathToSourceUnitName scenario_fs scenario_reader "contracts/A.sol"
  = cliPathToSourceUnitName scenario_fs scenario_reader "/project/./contracts//A.sol".
Proof.
  apply (source_unit_name_by_normalised_path scenario_fs scenario_reader
           "contracts/A.sol" "/project/./contracts//A.sol").
  vm_compute. reflexivity.
Defined.

(** X14. [hasDotDotSegments] answers true exactly for the paths one of
    whose elements is [".."]; a name that merely contains two dots, or
    ends in them, does not count. *)
Theorem hasDotDotSegments_elements (p : path) :
  (hasDotDotSegments p = true ↔ ".." ∈ elements p)
  ∧ hasDotDotSegments "/a..b/c../..d" = false.
Proof. split; [exact (MiscFacts.hasDotDotSegments_spec p) | reflexivity]. Qed.

(** X15. [absoluteDotDotPrefix] fails with an internal compiler error
    on a path without root directory. On a path composed of a root and
    names it returns the [".."] elements of the path, as many as the
    path has and nothing else, so that the result is empty exactly when
    [hasDotDotSegments] is false. *)
Theorem absoluteDotDotPrefix_collects :
  (∀ p, has_root_directory p = false →
        absoluteDotDotPrefix p = Throw (InternalCompilerError ""))
  ∧ (∀ R T, root R → Forall name T →
     ∃ prefix,
       absoluteDotDotPrefix (compose (R ++ T)) = Ok prefix
       ∧ elements prefix = List.filter is_dot_dot T
       ∧ empty prefix = negb (hasDotDotSegments (compose (R ++ T)))).
Proof.
  split; [exact MiscFacts.absoluteDotDotPrefix_unrooted|].
  intros R T HR HT. exists (compose (List.filter is_dot_dot T)).
  pose proof (NormalizeFacts.filter_dot_dot_names T HT) as Hf.
  split; [exact (NormalizeFacts.absoluteDotDotPrefix_rooted R T HR HT)|].
  split; [exact (PathFacts.elements_compose _ (wf_relative _ Hf))|].
  rewrite (NormalizeFacts.empty_compose_names _ Hf).
  rewrite (NormalizeFacts.hasDotDotSegments_rooted R T HR HT).
  clear. induction T as [|x T IH]; [reflexivity|].
  simpl. destruct (is_dot_dot x); [reflexivity | exact IH].
Qed.

(** X16. Without resolving symbolic links, a path that has neither
    root name nor root directory (the empty path included) is
    normalised as the same path below the working directory, when the
    working directory is an absolute POSIX path. *)
Theorem normalize_relative_to_working_directory (fs : FileSystem)
    (cur cwd p : path) :
  current_path fs = Ok cur →
  weakly_canonical fs cur = Ok cwd →
  posix_absolute cwd →
  has_root_directory p = false →
  root_name p = "" →
  normalizeCLIPathForVFS fs p false
  = normalizeCLIPathForVFS fs (append cwd p) false.
Proof. exact (MiscFacts.normalize_relative fs cur cwd p). Qed.

Lemma normalize_relative_to_working_directory_witness :
  normalizeCLIPathForVFS scenario_fs "contracts/../x" false
  = normalizeCLIPathForVFS scenario_fs (append "/project" "contracts/../x") false.
Proof.
  apply (normalize_relative_to_working_directory scenario_fs "/project" "/project");
    [vm_compute; reflexivity | vm_compute; reflexivity
    | exists ["project"]; reflexivity | reflexivity | reflexivity].
Defined.

(** X17. Allowing a directory a second time, in the same or in an
    equivalent spelling (the same elements), changes nothing: the set
    of allowed directories keeps one path per class of equivalent
    paths, the one allowed first. *)
Theorem allowDirectory_again (this this' : t) (p q : path) :
  allowDirectory this p = Ok this' →
  elements q = elements p →
  allowDirectory this' q = Ok this'.
Proof.
  intros H E. apply ReaderFacts.allowDirectory_Ok in H. destruct H as [Hp ->].
  assert (Hq : q ≠ "").
  { intros ->. apply (PrefixFacts.elements_nonempty p Hp). symmetry. exact E. }
  unfold allowDirectory. apply String.eqb_neq in Hq. unfold empty. rewrite Hq.
  cbn [negb solAssert mbind result_bind m_basePath m_includePaths
       m_allowedDirectories m_sourceCodes].
  rewrite (MiscFacts.set_insert_again p q _ E). reflexivity.
Qed.

Lemma allowDirectory_again_witness :
  allowDirectory (mk "/project" [] ["/etc"; "/libs"] ∅) "///libs"
  = Ok (mk "/project" [] ["/etc"; "/libs"] ∅).
Proof.
  apply (allowDirectory_again (mk "/project" [] ["/etc"] ∅) _ "/libs" "///libs");
    vm_compute; reflexivity.
Defined.

End MoreProperties.
